(** * svgboard: the object/transform engine of [svg-reveal.js]

    A shallow embedding of the whiteboard's camera, object model, hit-testing,
    pointer gestures, undo/redo history, overlay reveal cursor and vector
    export, followed by the properties stated about them.

    Modelling conventions.
    - A JavaScript number is a real number ([R]) in the definitions:
      rounding, signed zeros, NaN and the infinities are not represented.
      A JavaScript division by zero is the only way the modelled code could
      leave the finite numbers: the quotients that become scale factors are
      kept apart ([Factor]) and proved finite, and the other divisors are
      non-zero by a guard of the source or a hypothesis of the statement.
    - The engine computes in binary64, where every operation rounds.  The
      properties are stated through comparisons, clamps and the code's own
      expressions, which rounding does not disturb; a lemma that needs
      exact arithmetic says so.  Where rounding decides a question,
      [Module Double] repeats the functions concerned on binary64 floats
      and the closed instances evaluate them.
    - [JSON.parse(JSON.stringify(v))] (the source's [deepClone], and the
      serialisation of undo entries) is the identity on the modelled values,
      which are immutable and hold finite numbers and strings only.
    - DOM side effects ([redrawAll], [applyBgTransform], cursor styles,
      toasts) do not feed back into the document state and are left out. *)

From Stdlib Require Import PrimFloat FloatOps SpecFloat.
From Stdlib Require Import Reals Lra Lia ZArith List String Bool Ascii.
From Stdlib Require Import DecimalString.
Import ListNotations.
Open Scope R_scope.

(* ================================================================= *)
(** ** Numbers *)

Definition Rleb (a b : R) : bool := if Rle_dec a b then true else false.
Definition Rltb (a b : R) : bool := if Rlt_dec a b then true else false.
Definition Reqb (a b : R) : bool := if Req_dec_T a b then true else false.

(** [const clamp = (v, a, b) => Math.max(a, Math.min(b, v))] *)
Definition clamp (v a b : R) : R := Rmax a (Rmin b v).

(** [Math.hypot(x, y)] *)
Definition hypot (x y : R) : R := sqrt (x * x + y * y).

(** [n || d] on numbers: [0] is falsy. *)
Definition num_or (n d : R) : R := if Reqb n 0 then d else n.

(** [s || d] on strings: the empty string is falsy. *)
Definition str_or (s d : string) : string :=
  match s with EmptyString => d | _ => s end.

(** [Math.atan2(y, x)] on the reals, by the quadrant of [(x, y)]. *)
Definition atan2 (y x : R) : R :=
  if Rltb 0 x then atan (y / x)
  else if Rltb x 0 then
         (if Rleb 0 y then atan (y / x) + PI else atan (y / x) - PI)
  else if Rltb 0 y then PI / 2
  else if Rltb y 0 then - (PI / 2)
  else 0.

(** [Math.round(x)]: the nearest integer, halves going up. *)
Definition jsround (x : R) : R := IZR (Int_part (x + 1 / 2)).

(** Decides the comparisons of a goal or hypothesis by [lra]. *)
Ltac rsolve :=
  repeat match goal with
    | |- context [Rle_dec ?a ?b] => destruct (Rle_dec a b); try lra
    | |- context [Rlt_dec ?a ?b] => destruct (Rlt_dec a b); try lra
    | |- context [Req_dec_T ?a ?b] => destruct (Req_dec_T a b); try lra
    | |- context [Rcase_abs ?a] => destruct (Rcase_abs a); try lra
    | H : context [Rle_dec ?a ?b] |- _ => destruct (Rle_dec a b); try lra
    | H : context [Rlt_dec ?a ?b] |- _ => destruct (Rlt_dec a b); try lra
    | H : context [Req_dec_T ?a ?b] |- _ => destruct (Req_dec_T a b); try lra
    | H : context [Rcase_abs ?a] |- _ => destruct (Rcase_abs a); try lra
    end.

Ltac rcompute :=
  unfold clamp, num_or in *;
  unfold Rleb, Rltb, Reqb, Rmax, Rmin, Rabs in *; rsolve;
  try lra; try reflexivity.

(* ================================================================= *)
(** ** Data model *)

Record Point := mkPoint { px : R; py : R }.

Inductive ShapeKind := Line | Rect | Circle | Arrow.

(** The drawable objects, one constructor per shape of object literal the
    source creates ([kind] is the constructor; the two-corner shapes share
    one literal and carry their [kind]). *)
Inductive Obj :=
| Stroke (color : string) (size : R) (points : list Point)
| Erase (size : R) (points : list Point)
| Text (x y : R) (text color : string) (fontSize rot : R)
| Shape (kind : ShapeKind) (color : string) (size x1 y1 x2 y2 rot : R).

Record SvgState := mkSvg {
  svg_src : string; svg_x : R; svg_y : R; svg_scale : R; svg_rot : R;
  svg_viewBox : string; svg_step : Z; svg_total : nat }.

Record BgState := mkBg {
  bg_src : string; bg_natW : R; bg_natH : R;
  bg_x : R; bg_y : R; bg_scale : R; bg_rot : R }.

Definition svg_default : SvgState := mkSvg "" 0 0 1 0 "" (-1) 0.
Definition bg_default : BgState := mkBg "" 0 0 0 0 1 0.

(** What [snapshot()] builds and what [applySnapshot] reads.  The [svg]
    field is optional: [applySnapshot] reads [snap.svg || {...}]. *)
Record Snapshot := mkSnap {
  snap_tool : string; snap_color : string; snap_size : R;
  snap_zoom : R; snap_panX : R; snap_panY : R; snap_title : string;
  snap_svg : option SvgState;
  snap_bg : BgState;
  snap_objects : list Obj }.

(** The [state] object.  The undo and redo stacks grow at the end of the
    list ([push]/[pop]); [shift] drops the head. *)
Record State := mkState {
  tool : string; color : string; size : R;
  zoom : R; panX : R; panY : R;
  title : string;
  svg : SvgState;
  bg : BgState;
  objects : list Obj;
  undo_stack : list Snapshot;
  redo_stack : list Snapshot;
  selectionIndex : Z;
  viewW : R; viewH : R }.

(* ================================================================= *)
(** ** Camera *)

Definition screenToWorld (st : State) (sx sy : R) : Point :=
  mkPoint ((sx - panX st) / zoom st) ((sy - panY st) / zoom st).

Definition worldToScreen (st : State) (wx wy : R) : Point :=
  mkPoint (wx * zoom st + panX st) (wy * zoom st + panY st).

Definition set_camera (st : State) (z pX pY : R) : State :=
  mkState (tool st) (color st) (size st) z pX pY (title st) (svg st) (bg st)
          (objects st) (undo_stack st) (redo_stack st) (selectionIndex st)
          (viewW st) (viewH st).

Definition setZoomTo (st : State) (newZoom anchorSX anchorSY : R) : State :=
  let z := clamp newZoom 0.25 6 in
  let old := zoom st in
  let worldX := (anchorSX - panX st) / old in
  let worldY := (anchorSY - panY st) / old in
  set_camera st z (anchorSX - worldX * z) (anchorSY - worldY * z).

(* ----------------------------------------------------------------- *)
(** *** The camera in binary64 arithmetic *)

(** JavaScript numbers are IEEE 754 binary64 values, and every operation
    rounds.  The definitions of this file compute on real numbers; the
    camera functions and the hit test of a segment are repeated here on
    primitive floats, operation for operation, so that they can be
    evaluated as the engine evaluates them. *)
Module Double.
Local Open Scope float_scope.

(** [state.zoom], [state.panX], [state.panY] *)
Record Camera := mkCamera { zoom : float; panX : float; panY : float }.
Record Point := mkPoint { px : float; py : float }.

(** [Math.min] and [Math.max] of two numbers: NaN if either is NaN, and
    [-0] below [+0]. *)
Definition Math_min (a b : float) : float :=
  if is_nan a then a else if is_nan b then b
  else if a <? b then a else if b <? a then b
  else if get_sign a then a else b.

Definition Math_max (a b : float) : float :=
  if is_nan a then a else if is_nan b then b
  else if a <? b then b else if b <? a then a
  else if get_sign a then b else a.

Definition clamp (v a b : float) : float := Math_max a (Math_min b v).

Definition screenToWorld (c : Camera) (sx sy : float) : Point :=
  mkPoint ((sx - panX c) / zoom c) ((sy - panY c) / zoom c).

Definition worldToScreen (c : Camera) (wx wy : float) : Point :=
  mkPoint (wx * zoom c + panX c) (wy * zoom c + panY c).

Definition setZoomTo (c : Camera) (newZoom anchorSX anchorSY : float)
  : Camera :=
  let z := clamp newZoom 0.25 6 in
  let old := zoom c in
  let worldX := (anchorSX - panX c) / old in
  let worldY := (anchorSY - panY c) / old in
  mkCamera z (anchorSX - worldX * z) (anchorSY - worldY * z).

(** [Math.hypot(x, y)]: the square root of the sum of the squares, each
    operation rounded to nearest.  (The language leaves the last bits of
    [Math.hypot] to the engine; the value used below, [hypot(4.8, 6.4)], is
    8 for this formula and for the correctly rounded result alike.) *)
Definition Math_hypot (x y : float) : float := PrimFloat.sqrt (x * x + y * y).

(** [n || d] on numbers: [0], [-0] and NaN are falsy. *)
Definition num_or (n d : float) : float :=
  if is_nan n || is_zero n then d else n.

Definition distToSeg (x y x1 y1 x2 y2 : float) : float :=
  let dx := x2 - x1 in
  let dy := y2 - y1 in
  if (dx =? 0) && (dy =? 0) then Math_hypot (x - x1) (y - y1)
  else
    let t := ((x - x1) * dx + (y - y1) * dy) / (dx * dx + dy * dy) in
    let tt := clamp t 0 1 in
    let cx := x1 + tt * dx in
    let cy := y1 + tt * dy in
    Math_hypot (x - cx) (y - cy).


End Double.

(* ================================================================= *)
(** ** Object model: bounds, hit-testing, transforms *)

Record Bounds := mkBounds { minX : R; minY : R; maxX : R; maxY : R }.

(** The running minimum and maximum of the source's loops, which start from
    [Infinity] and [-Infinity]: on a non-empty list the first element
    replaces the start value. *)
Definition minOf (l : list R) : R :=
  match l with [] => 0 | x :: r => fold_left Rmin r x end.
Definition maxOf (l : list R) : R :=
  match l with [] => 0 | x :: r => fold_left Rmax r x end.

Definition boundsOfPoints (pts : list Point) (pad : R) : Bounds :=
  mkBounds (minOf (map px pts) - pad) (minOf (map py pts) - pad)
           (maxOf (map px pts) + pad) (maxOf (map py pts) + pad).

Definition rotatePoint (x y cx cy angle : R) : Point :=
  let dx := x - cx in
  let dy := y - cy in
  mkPoint (cx + dx * cos angle - dy * sin angle)
          (cy + dx * sin angle + dy * cos angle).

(** The four corners of a [w] by [h] box centred at [(cx, cy)], turned by
    [ang]: the [.map] over [corners] in [objectBounds] and [computeHandles]. *)
Definition rotatedCorners (cx cy w h ang : R) : list Point :=
  map (fun p => mkPoint (cx + px p * cos ang - py p * sin ang)
                        (cy + px p * sin ang + py p * cos ang))
      [ mkPoint (- w / 2) (- h / 2); mkPoint (w / 2) (- h / 2);
        mkPoint (w / 2) (h / 2); mkPoint (- w / 2) (h / 2) ].

Section Engine.

(** [measureCtx.measureText(text).width] for the bold font of the given
    size: a service of the browser. *)
Variable measureText : string -> R -> R.

Record TextMetrics := mkTM { tm_w : R; tm_h : R; tm_fontSize : R }.

Definition textMetrics (text : string) (fontSize : R) : TextMetrics :=
  let fs := num_or fontSize 20 in
  mkTM (measureText text fs) (fs * 1.25) fs.

Definition objectBounds (o : Obj) : Bounds :=
  match o with
  | Text x y text _ fontSize rot =>
      let m := textMetrics text fontSize in
      let w := tm_w m in
      let h := tm_h m in
      let cx := x + w / 2 in
      let cy := y + h / 2 in
      boundsOfPoints (rotatedCorners cx cy w h rot) 0
  | Stroke _ sz pts | Erase sz pts =>
      match pts with
      | [] => mkBounds 0 0 0 0
      | _ => boundsOfPoints pts (num_or sz 6 * 0.8)
      end
  | Shape Rect _ sz x1 y1 x2 y2 rot =>
      let cx := (x1 + x2) / 2 in
      let cy := (y1 + y2) / 2 in
      let rw := Rabs (x2 - x1) in
      let rh := Rabs (y2 - y1) in
      boundsOfPoints (rotatedCorners cx cy rw rh rot) (num_or sz 4 * 1.0)
  | Shape Circle _ sz x1 y1 x2 y2 rot =>
      let cx := (x1 + x2) / 2 in
      let cy := (y1 + y2) / 2 in
      let rx := Rabs (x2 - x1) / 2 in
      let ry := Rabs (y2 - y1) / 2 in
      let sample (i : nat) :=
        let t := (INR i / 16) * PI * 2 in
        let ex := cos t * rx in
        let ey := sin t * ry in
        mkPoint (cx + ex * cos rot - ey * sin rot)
                (cy + ex * sin rot + ey * cos rot) in
      boundsOfPoints (map sample (seq 0 16)) (num_or sz 4 * 1.0)
  | Shape _ _ sz x1 y1 x2 y2 _ =>
      let pad := num_or sz 4 * 1.0 in
      mkBounds (Rmin x1 x2 - pad) (Rmin y1 y2 - pad)
               (Rmax x1 x2 + pad) (Rmax y1 y2 + pad)
  end.

Definition distToSeg (x y x1 y1 x2 y2 : R) : R :=
  let dx := x2 - x1 in
  let dy := y2 - y1 in
  if Reqb dx 0 && Reqb dy 0 then hypot (x - x1) (y - y1)
  else
    let t := ((x - x1) * dx + (y - y1) * dy) / (dx * dx + dy * dy) in
    let tt := clamp t 0 1 in
    let cx := x1 + tt * dx in
    let cy := y1 + tt * dy in
    hypot (x - cx) (y - cy).

(** The segment loop of [hitObject] over [pts[i-1], pts[i]]. *)
Fixpoint hitPolyline (wx wy tol : R) (pts : list Point) : bool :=
  match pts with
  | p :: (q :: _) as rest =>
      if Rleb (distToSeg wx wy (px p) (py p) (px q) (py q)) tol then true
      else hitPolyline wx wy tol rest
  | _ => false
  end.

(** [obj.size], which text objects do not have ([undefined || 4] is [4]). *)
Definition objSize (o : Obj) : R :=
  match o with
  | Stroke _ sz _ | Erase sz _ | Shape _ _ sz _ _ _ _ _ => sz
  | Text _ _ _ _ _ _ => 0
  end.

Definition hitTol (o : Obj) : R := Rmax 8 (num_or (objSize o) 4 * 1.5).

Definition hitObject (o : Obj) (wx wy : R) : bool :=
  let tol := hitTol o in
  match o with
  | Text _ _ _ _ _ _ =>
      let b := objectBounds o in
      Rleb (minX b) wx && Rleb wx (maxX b) && Rleb (minY b) wy && Rleb wy (maxY b)
  | Stroke _ _ pts | Erase _ pts => hitPolyline wx wy tol pts
  | Shape Line _ _ x1 y1 x2 y2 _ | Shape Arrow _ _ x1 y1 x2 y2 _ =>
      Rleb (distToSeg wx wy x1 y1 x2 y2) tol
  | Shape Rect _ _ x1 y1 x2 y2 rot =>
      let cx := (x1 + x2) / 2 in
      let cy := (y1 + y2) / 2 in
      let rw := Rabs (x2 - x1) in
      let rh := Rabs (y2 - y1) in
      let c := cos (- rot) in
      let s := sin (- rot) in
      let lx := (wx - cx) * c - (wy - cy) * s in
      let ly := (wx - cx) * s + (wy - cy) * c in
      Rleb (Rabs lx) (rw / 2) && Rleb (Rabs ly) (rh / 2)
  | Shape Circle _ _ x1 y1 x2 y2 rot =>
      let cx := (x1 + x2) / 2 in
      let cy := (y1 + y2) / 2 in
      let rx := Rabs (x2 - x1) / 2 in
      let ry := Rabs (y2 - y1) / 2 in
      if Rltb rx 1 || Rltb ry 1 then false
      else
        let c := cos (- rot) in
        let s := sin (- rot) in
        let lx := (wx - cx) * c - (wy - cy) * s in
        let ly := (wx - cx) * s + (wy - cy) * c in
        let nx := lx / rx in
        let ny := ly / ry in
        Rleb (nx * nx + ny * ny) 1.2
  end.

(** [findHit]: the loop from the last object down to the first. *)
Fixpoint findHitFrom (objs : list Obj) (wx wy : R) (n : nat) : Z :=
  match n with
  | O => (-1)%Z
  | S i =>
      match nth_error objs i with
      | Some o => if hitObject o wx wy then Z.of_nat i
                  else findHitFrom objs wx wy i
      | None => findHitFrom objs wx wy i
      end
  end.

Definition findHit (st : State) (wx wy : R) : Z :=
  findHitFrom (objects st) wx wy (List.length (objects st)).

Definition moveObject (o : Obj) (dx dy : R) : Obj :=
  match o with
  | Text x y t c fs rot => Text (x + dx) (y + dy) t c fs rot
  | Stroke c sz pts =>
      Stroke c sz (map (fun p => mkPoint (px p + dx) (py p + dy)) pts)
  | Erase sz pts =>
      Erase sz (map (fun p => mkPoint (px p + dx) (py p + dy)) pts)
  | Shape k c sz x1 y1 x2 y2 rot =>
      Shape k c sz (x1 + dx) (y1 + dy) (x2 + dx) (y2 + dy) rot
  end.

(** A scale factor as the gesture code computes it: the quotient of two
    numbers, which in JavaScript is NaN or an infinity when the divisor is
    zero. *)
Inductive Factor := Fin (r : R) | NonFinite.

Definition jsdiv (a b : R) : Factor :=
  if Reqb b 0 then NonFinite else Fin (a / b).

(** [if (!isFinite(f)) f = 1] *)
Definition finiteOr1 (f : Factor) : R :=
  match f with Fin r => r | NonFinite => 1 end.

(** The factors [scaleObjectXY] applies after its guards. *)
Definition appliedFactor (f : Factor) : R := clamp (finiteOr1 f) (-20) 20.

Definition scaleObjectXY (o : Obj) (fx0 fy0 : Factor) (ax ay : R) : Obj :=
  let fx := appliedFactor fx0 in
  let fy := appliedFactor fy0 in
  match o with
  | Text x y t c fs rot =>
      let uni := Rmax 0.2 ((Rabs fx + Rabs fy) / 2) in
      Text (ax + (x - ax) * fx) (ay + (y - ay) * fy) t c (Rmax 6 (fs * uni)) rot
  | Stroke c sz pts =>
      Stroke c sz (map (fun p => mkPoint (ax + (px p - ax) * fx)
                                         (ay + (py p - ay) * fy)) pts)
  | Erase sz pts =>
      Erase sz (map (fun p => mkPoint (ax + (px p - ax) * fx)
                                      (ay + (py p - ay) * fy)) pts)
  | Shape k c sz x1 y1 x2 y2 rot =>
      Shape k c sz (ax + (x1 - ax) * fx) (ay + (y1 - ay) * fy)
                   (ax + (x2 - ax) * fx) (ay + (y2 - ay) * fy) rot
  end.

Definition boundsCenter (b : Bounds) : Point :=
  mkPoint ((minX b + maxX b) / 2) ((minY b + maxY b) / 2).

Definition rotateObject (o : Obj) (angle : R) : Obj :=
  let c := boundsCenter (objectBounds o) in
  let cx := px c in
  let cy := py c in
  match o with
  | Text x y t col fs rot => Text x y t col fs (rot + angle)
  | Shape Rect col sz x1 y1 x2 y2 rot => Shape Rect col sz x1 y1 x2 y2 (rot + angle)
  | Shape Circle col sz x1 y1 x2 y2 rot => Shape Circle col sz x1 y1 x2 y2 (rot + angle)
  | Stroke col sz pts =>
      Stroke col sz (map (fun p => rotatePoint (px p) (py p) cx cy angle) pts)
  | Erase sz pts =>
      Erase sz (map (fun p => rotatePoint (px p) (py p) cx cy angle) pts)
  | Shape k col sz x1 y1 x2 y2 rot =>
      let p1 := rotatePoint x1 y1 cx cy angle in
      let p2 := rotatePoint x2 y2 cx cy angle in
      Shape k col sz (px p1) (py p1) (px p2) (py p2) rot
  end.

(* ----------------------------------------------------------------- *)
(** *** Angle snapping (Ctrl/Cmd) *)

Definition snapsDeg : list R :=
  [ 0; 30; 45; 60; 90; 120; 135; 150;
    -30; -45; -60; -90; -120; -135; -150; 180 ].

Definition snaps : list R := map (fun d => d * PI / 180) snapsDeg.

(** The angular distance [snapAngleRad] minimises. *)
Definition angDiff (a s : R) : R :=
  Rabs (atan2 (sin (a - s)) (cos (a - s))).

(** One turn of the loop over [snaps]; [bestDiff] is [None] while it is
    still [Infinity]. *)
Definition snapStep (a : R) (acc : R * option R) (s : R) : R * option R :=
  let diff := angDiff a s in
  match snd acc with
  | None => (s, Some diff)
  | Some bd => if Rltb diff bd then (s, Some diff) else acc
  end.

Definition snapAngleRad (angleRad : R) : R :=
  let a := atan2 (sin angleRad) (cos angleRad) in
  fst (fold_left (snapStep a) snaps (hd 0 snaps, None)).

Definition snapEndpointToAngles (x1 y1 x2 y2 : R) : Point :=
  let dx := x2 - x1 in
  let dy := y2 - y1 in
  let len := hypot dx dy in
  if Rltb len 0.0001 then mkPoint x2 y2
  else
    let ang := atan2 dy dx in
    let snapped := snapAngleRad ang in
    mkPoint (x1 + cos snapped * len) (y1 + sin snapped * len).

(* ================================================================= *)
(** ** History *)

Definition snapshot (st : State) : Snapshot :=
  mkSnap (tool st) (color st) (size st) (zoom st) (panX st) (panY st)
         (title st) None (bg st) (objects st).

Definition applySnapshot (st : State) (snap : Snapshot) : State :=
  mkState (str_or (snap_tool snap) "pen")
          (str_or (snap_color snap) "#111111")
          (num_or (snap_size snap) 5)
          (num_or (snap_zoom snap) 1)
          (num_or (snap_panX snap) 0)
          (num_or (snap_panY snap) 0)
          (str_or (snap_title snap) "")
          (match snap_svg snap with Some v => v | None => svg_default end)
          (snap_bg snap)
          (snap_objects snap)
          (undo_stack st) (redo_stack st)
          (-1)
          (viewW st) (viewH st).

Definition set_stacks (st : State) (u r : list Snapshot) : State :=
  mkState (tool st) (color st) (size st) (zoom st) (panX st) (panY st)
          (title st) (svg st) (bg st) (objects st) u r (selectionIndex st)
          (viewW st) (viewH st).

Definition pushUndo (st : State) : State :=
  let u := undo_stack st ++ [snapshot st] in
  set_stacks st (if (120 <? List.length u)%nat then tl u else u) (redo_stack st).

Definition clearRedo (st : State) : State :=
  set_stacks st (undo_stack st) [].

(** [stack.pop()]: the last element and the stack without it. *)
Definition pop {A} (l : list A) : option (A * list A) :=
  match rev l with
  | [] => None
  | x :: r => Some (x, rev r)
  end.

Definition undo (st : State) : State :=
  match pop (undo_stack st) with
  | None => st
  | Some (top, rest) =>
      applySnapshot (set_stacks st rest (redo_stack st ++ [snapshot st])) top
  end.

Definition redo (st : State) : State :=
  match pop (redo_stack st) with
  | None => st
  | Some (top, rest) =>
      applySnapshot (set_stacks st (undo_stack st ++ [snapshot st]) rest) top
  end.

(* ================================================================= *)
(** ** Overlay reveal cursor *)

(** An element of [svgNodes] with its [style.visibility]. *)
Record SvgNode := mkNode { node_tag : string; node_visible : bool }.

Definition set_svg (st : State) (v : SvgState) : State :=
  mkState (tool st) (color st) (size st) (zoom st) (panX st) (panY st)
          (title st) v (bg st) (objects st) (undo_stack st) (redo_stack st)
          (selectionIndex st) (viewW st) (viewH st).

Definition set_step (v : SvgState) (s : Z) : SvgState :=
  mkSvg (svg_src v) (svg_x v) (svg_y v) (svg_scale v) (svg_rot v)
        (svg_viewBox v) s (svg_total v).

(** The loop of [revealTo] from index [i] on. *)
Fixpoint revealFrom (i : nat) (s : Z) (nodes : list SvgNode) : list SvgNode :=
  match nodes with
  | [] => []
  | n :: rest =>
      mkNode (node_tag n) (Z.of_nat i <=? s)%Z :: revealFrom (S i) s rest
  end.

Definition revealStep (nodes : list SvgNode) (step : Z) : Z :=
  Z.max (-1) (Z.min (Z.of_nat (List.length nodes) - 1) step).

Definition revealTo (st : State) (nodes : list SvgNode) (step : Z)
  : State * list SvgNode :=
  let s := revealStep nodes step in
  (set_svg st (set_step (svg st) s), revealFrom 0 s nodes).

Definition setAllHidden (st : State) (nodes : list SvgNode)
  : State * list SvgNode :=
  (set_svg st (set_step (svg st) (-1)),
   map (fun n => mkNode (node_tag n) false) nodes).

Definition setAllVisible (st : State) (nodes : list SvgNode)
  : State * list SvgNode :=
  (set_svg st (set_step (svg st) (Z.of_nat (List.length nodes) - 1)),
   map (fun n => mkNode (node_tag n) true) nodes).

Inductive RevealKey := ArrowForward | ArrowBackward | KeyHome | KeyEnd.

(** The arrow-key branch of the [keydown] handler (not typing). *)
Definition keyReveal (st : State) (nodes : list SvgNode)
           (k : RevealKey) (shiftKey : bool) : State * list SvgNode :=
  match nodes with
  | [] => (st, nodes)
  | _ =>
      let jump := if shiftKey then 5%Z else 1%Z in
      match k with
      | ArrowForward => revealTo st nodes (svg_step (svg st) + jump)
      | ArrowBackward => revealTo st nodes (svg_step (svg st) - jump)
      | KeyHome => revealTo st nodes (-1)
      | KeyEnd => revealTo st nodes (Z.of_nat (List.length nodes) - 1)
      end
  end.

(* ================================================================= *)
(** ** Pointer gestures *)

Inductive Mode :=
| MNone | MPan | MDrawStroke | MDrawErase | MDrawShape | MSelect
| MSelMove | MSelScale | MSelRotate | MBgMove | MBgScale | MBgRotate.

(** The [gesture] object.  [activeObj] aliases the object being drawn, which
    is an element of [state.objects]: it is kept as that element's index. *)
Record Gesture := mkGesture {
  g_active : bool; g_mode : Mode;
  g_startWorld : option Point; g_startScreen : option Point;
  g_lastWorld : option Point; g_lastScreen : option Point;
  g_activeObj : option nat;
  g_selIndex : Z; g_selStartObj : option Obj; g_selAnchor : option Point;
  g_selStartVec : option Point; g_selStartAngle : R;
  g_bgStart : option BgState }.

Definition hardResetGesture : Gesture :=
  mkGesture false MNone None None None None None (-1) None None None 0 None.

Definition g_with_sel (g : Gesture) (idx : Z) (o : Obj) (anchor : Point) : Gesture :=
  mkGesture (g_active g) (g_mode g) (g_startWorld g) (g_startScreen g)
            (g_lastWorld g) (g_lastScreen g) (g_activeObj g)
            idx (Some o) (Some anchor) (g_selStartVec g) (g_selStartAngle g)
            (g_bgStart g).

Definition g_with_start (g : Gesture) (m : Mode) (w : Point) : Gesture :=
  mkGesture (g_active g) m (Some w) (g_startScreen g)
            (g_lastWorld g) (g_lastScreen g) (g_activeObj g)
            (g_selIndex g) (g_selStartObj g) (g_selAnchor g)
            (g_selStartVec g) (g_selStartAngle g) (g_bgStart g).

Definition g_with_startVec (g : Gesture) (v : Point) : Gesture :=
  mkGesture (g_active g) (g_mode g) (g_startWorld g) (g_startScreen g)
            (g_lastWorld g) (g_lastScreen g) (g_activeObj g)
            (g_selIndex g) (g_selStartObj g) (g_selAnchor g)
            (Some v) (g_selStartAngle g) (g_bgStart g).

Definition g_with_startAngle (g : Gesture) (a : R) : Gesture :=
  mkGesture (g_active g) (g_mode g) (g_startWorld g) (g_startScreen g)
            (g_lastWorld g) (g_lastScreen g) (g_activeObj g)
            (g_selIndex g) (g_selStartObj g) (g_selAnchor g)
            (g_selStartVec g) a (g_bgStart g).

Definition g_with_lastScreen (g : Gesture) (p : Point) : Gesture :=
  mkGesture (g_active g) (g_mode g) (g_startWorld g) (g_startScreen g)
            (g_lastWorld g) (Some p) (g_activeObj g)
            (g_selIndex g) (g_selStartObj g) (g_selAnchor g)
            (g_selStartVec g) (g_selStartAngle g) (g_bgStart g).

Definition g_with_bgStart (g : Gesture) (b : BgState) : Gesture :=
  mkGesture (g_active g) (g_mode g) (g_startWorld g) (g_startScreen g)
            (g_lastWorld g) (g_lastScreen g) (g_activeObj g)
            (g_selIndex g) (g_selStartObj g) (g_selAnchor g)
            (g_selStartVec g) (g_selStartAngle g) (Some b).

Definition set_objects (st : State) (objs : list Obj) : State :=
  mkState (tool st) (color st) (size st) (zoom st) (panX st) (panY st)
          (title st) (svg st) (bg st) objs (undo_stack st) (redo_stack st)
          (selectionIndex st) (viewW st) (viewH st).

Definition set_bg (st : State) (b : BgState) : State :=
  mkState (tool st) (color st) (size st) (zoom st) (panX st) (panY st)
          (title st) (svg st) b (objects st) (undo_stack st) (redo_stack st)
          (selectionIndex st) (viewW st) (viewH st).

(** [arr[i] = v]: replaces within the array and appends at its end; a write
    further out would leave holes, which the object list cannot hold. *)
Fixpoint setAt (objs : list Obj) (i : nat) (v : Obj) : option (list Obj) :=
  match objs, i with
  | [], O => Some [v]
  | [], S _ => None
  | _ :: rest, O => Some (v :: rest)
  | o :: rest, S j => option_map (cons o) (setAt rest j v)
  end.

Inductive HandleKind := HMove | HScale | HRotate.
Inductive BgTool := ToolBgMove | ToolBgScale | ToolBgRotate.

Definition modeOfBgTool (t : BgTool) : Mode :=
  match t with
  | ToolBgMove => MBgMove | ToolBgScale => MBgScale | ToolBgRotate => MBgRotate
  end.

(** [beginSelectionTransform(kind, e, w, sx, sy)].  [None] is the exception
    [deepClone] raises when [state.objects[idx]] is missing. *)
Definition beginSelectionTransform (kind : HandleKind) (st : State)
           (g : Gesture) (w : Point) : option (State * Gesture * bool) :=
  let idx := selectionIndex st in
  if (idx <? 0)%Z then Some (st, g, false)
  else
    let st1 := clearRedo (pushUndo st) in
    match nth_error (objects st1) (Z.to_nat idx) with
    | None => None
    | Some o =>
        let c := boundsCenter (objectBounds o) in
        let g1 := g_with_sel g idx o c in
        match kind with
        | HMove => Some (st1, g_with_start g1 MSelMove w, true)
        | HScale =>
            Some (st1,
                  g_with_startVec (g_with_start g1 MSelScale w)
                                  (mkPoint (px w - px c) (py w - py c)),
                  true)
        | HRotate =>
            Some (st1,
                  g_with_startAngle (g_with_start g1 MSelRotate w)
                                    (atan2 (py w - py c) (px w - px c)),
                  true)
        end
    end.

Definition beginBgTransform (t : BgTool) (st : State) (g : Gesture)
           (w : Point) : State * Gesture * bool :=
  match bg_src (bg st) with
  | EmptyString => (st, g, false)
  | _ =>
      let st1 := clearRedo (pushUndo st) in
      (st1, g_with_start (g_with_bgStart g (bg st1)) (modeOfBgTool t) w, true)
  end.

Definition beginToolTransformForSelectionOrBg (t : BgTool) (st : State)
           (g : Gesture) (w : Point) : option (State * Gesture * bool) :=
  if (0 <=? selectionIndex st)%Z then
    let st1 := clearRedo (pushUndo st) in
    match nth_error (objects st1) (Z.to_nat (selectionIndex st)) with
    | None => None
    | Some o =>
        let c := boundsCenter (objectBounds o) in
        let g1 := g_with_sel g (selectionIndex st) o c in
        let g2 := mkGesture (g_active g1) (g_mode g1) (Some w) (g_startScreen g1)
                            (g_lastWorld g1) (g_lastScreen g1) (g_activeObj g1)
                            (g_selIndex g1) (g_selStartObj g1) (g_selAnchor g1)
                            (g_selStartVec g1) (g_selStartAngle g1) (g_bgStart g1) in
        match t with
        | ToolBgMove => Some (st1, g_with_start g2 MSelMove w, true)
        | ToolBgScale =>
            Some (st1,
                  g_with_startVec (g_with_start g2 MSelScale w)
                                  (mkPoint (px w - px c) (py w - py c)),
                  true)
        | ToolBgRotate =>
            Some (st1,
                  g_with_startAngle (g_with_start g2 MSelRotate w)
                                    (atan2 (py w - py c) (px w - px c)),
                  true)
        end
    end
  else Some (beginBgTransform t st g w).

Record PointerEvent := mkEvent {
  ev_sx : R; ev_sy : R;          (* the pointer after [clientToScreen] *)
  ev_shift : bool; ev_ctrl : bool; ev_meta : bool }.

(** [(kind is rect, circle or text) && (obj.rot || 0)] *)
Definition hasOwnRot (o : Obj) : bool :=
  match o with
  | Text _ _ _ _ _ rot => negb (Reqb rot 0)
  | Shape Rect _ _ _ _ _ _ rot | Shape Circle _ _ _ _ _ _ rot => negb (Reqb rot 0)
  | _ => false
  end.

(** [(Math.abs(v0) < 0.001) ? 1 : (v1 / v0)] *)
Definition axisFactor (v0 v1 : R) : Factor :=
  if Rltb (Rabs v0) 0.001 then Fin 1 else jsdiv v1 v0.

(** The Shift branch: [l1 / l0] with [l = Math.hypot(..) || 1]. *)
Definition uniformFactor (v0x v0y v1x v1y : R) : Factor :=
  let l0 := num_or (hypot v0x v0y) 1 in
  let l1 := num_or (hypot v1x v1y) 1 in
  jsdiv l1 l0.

(** [fx] and [fy] of the selScale branch, from the start vector [v0] and the
    current vector [v1] (both relative to the anchor). *)
Definition scaleFactors (v0x v0y v1x v1y : R) (shiftKey : bool)
  : Factor * Factor :=
  if shiftKey then
    let f := uniformFactor v0x v0y v1x v1y in (f, f)
  else (axisFactor v0x v1x, axisFactor v0y v1y).

(** The own-rotation part of the selScale branch: the object written over
    [state.objects[selIndex]], computed from the snapshot [obj0].  [None]: a
    factor is not a finite number, and neither is the geometry built from
    it. *)
Definition selScaleOwnRot (obj0 : Obj) (ang ax ay : R) (start w : Point)
           (shiftKey : bool) : option Obj :=
  let c := cos (- ang) in
  let s := sin (- ang) in
  let v0x := (px start - ax) * c - (py start - ay) * s in
  let v0y := (px start - ax) * s + (py start - ay) * c in
  let v1x := (px w - ax) * c - (py w - ay) * s in
  let v1y := (px w - ax) * s + (py w - ay) * c in
  match scaleFactors v0x v0y v1x v1y shiftKey with
  | (Fin fx, Fin fy) =>
      match obj0 with
      | Text x y t col fs rot =>
          let uni := Rmax 0.2 ((Rabs fx + Rabs fy) / 2) in
          let m0 := textMetrics t fs in
          Some (Text (ax - tm_w m0 / 2) (ay - tm_h m0 / 2) t col
                     (Rmax 6 (fs * uni)) rot)
      | Shape Line _ _ _ _ _ _ _ | Shape Arrow _ _ _ _ _ _ _ => Some obj0
      | Shape k col sz x1 y1 x2 y2 rot =>
          let w0 := Rabs (x2 - x1) in
          let h0 := Rabs (y2 - y1) in
          let w1 := Rmax 1 (w0 * fx) in
          let h1 := Rmax 1 (h0 * fy) in
          Some (Shape k col sz (ax - w1 / 2) (ay - h1 / 2)
                               (ax + w1 / 2) (ay + h1 / 2) rot)
      | _ => Some obj0
      end
  | _ => None
  end.

Definition objRot (o : Obj) : R :=
  match o with
  | Text _ _ _ _ _ rot | Shape _ _ _ _ _ _ _ rot => rot
  | _ => 0
  end.

(** The selScale branch as a function of the snapshot, the anchor, the start
    point, the current point and the Shift key. *)
Definition selScaleObj (obj0 : Obj) (anchor start w : Point)
           (shiftKey : bool) : option Obj :=
  let ax := px anchor in
  let ay := py anchor in
  if hasOwnRot obj0 then
    selScaleOwnRot obj0 (objRot obj0) ax ay start w shiftKey
  else
    let '(fx, fy) := scaleFactors (px start - ax) (py start - ay)
                                  (px w - ax) (py w - ay) shiftKey in
    Some (scaleObjectXY obj0 fx fy ax ay).

Definition selRotateObj (obj0 : Obj) (anchor : Point) (a0 : R) (w : Point)
           (shiftKey : bool) : Obj :=
  let a1 := atan2 (py w - py anchor) (px w - px anchor) in
  let delta := a1 - a0 in
  let delta' :=
    if shiftKey then
      let step := 15 * PI / 180 in jsround (delta / step) * step
    else delta in
  rotateObject obj0 delta'.

(** [state.objects[idx] = v] *)
Definition writeObj (st : State) (idx : Z) (v : Obj) : option State :=
  option_map (set_objects st) (setAt (objects st) (Z.to_nat idx) v).

Definition bgTransform (m : Mode) (bg0 : BgState) (start w : Point)
  : option BgState :=
  let cx0 := bg_x bg0 + bg_natW bg0 / 2 in
  let cy0 := bg_y bg0 + bg_natH bg0 / 2 in
  match m with
  | MBgMove =>
      Some (mkBg (bg_src bg0) (bg_natW bg0) (bg_natH bg0)
                 (bg_x bg0 + (px w - px start)) (bg_y bg0 + (py w - py start))
                 (bg_scale bg0) (bg_rot bg0))
  | MBgScale =>
      match uniformFactor (px start - cx0) (py start - cy0)
                          (px w - cx0) (py w - cy0) with
      | Fin factor =>
          Some (mkBg (bg_src bg0) (bg_natW bg0) (bg_natH bg0)
                     (cx0 - bg_natW bg0 / 2) (cy0 - bg_natH bg0 / 2)
                     (clamp (bg_scale bg0 * factor) 0.05 10) (bg_rot bg0))
      | NonFinite => None
      end
  | MBgRotate =>
      let a0 := atan2 (py start - cy0) (px start - cx0) in
      let a1 := atan2 (py w - cy0) (px w - cx0) in
      Some (mkBg (bg_src bg0) (bg_natW bg0) (bg_natH bg0)
                 (bg_x bg0) (bg_y bg0) (bg_scale bg0) (bg_rot bg0 + (a1 - a0)))
  | _ => None
  end.

(** [onPointerMove(e)].  The source tests the branches one after the other;
    each test starts with the gesture mode, so at most one can fire and the
    others fall through to the end without effect.  [None]: the move leaves
    the modelled values (a number that is not finite, an array with holes,
    or the exception of [points.push] on an object without points). *)
Definition onPointerMove (st : State) (g : Gesture) (e : PointerEvent)
  : option (State * Gesture) :=
  if negb (g_active g) then Some (st, g)
  else
    let sx := ev_sx e in
    let sy := ev_sy e in
    let w := screenToWorld st sx sy in
    match g_mode g with
    | MPan =>
        match g_lastScreen g with
        | Some ls =>
            let dx := sx - px ls in
            let dy := sy - py ls in
            Some (set_camera st (zoom st) (panX st + dx) (panY st + dy),
                  g_with_lastScreen g (mkPoint sx sy))
        | None => Some (st, g)
        end
    | MSelMove =>
        match (0 <=? g_selIndex g)%Z, g_selStartObj g, g_startWorld g with
        | true, Some obj0, Some start =>
            let dx := px w - px start in
            let dy := py w - py start in
            option_map (fun s => (s, g))
                       (writeObj st (g_selIndex g) (moveObject obj0 dx dy))
        | _, _, _ => Some (st, g)
        end
    | MSelScale =>
        match (0 <=? g_selIndex g)%Z, g_selStartObj g, g_selAnchor g,
              g_startWorld g with
        | true, Some obj0, Some anchor, Some start =>
            match selScaleObj obj0 anchor start w (ev_shift e) with
            | Some o => option_map (fun s => (s, g)) (writeObj st (g_selIndex g) o)
            | None => None
            end
        | _, _, _, _ => Some (st, g)
        end
    | MSelRotate =>
        match (0 <=? g_selIndex g)%Z, g_selStartObj g, g_selAnchor g with
        | true, Some obj0, Some anchor =>
            option_map (fun s => (s, g))
              (writeObj st (g_selIndex g)
                 (selRotateObj obj0 anchor (g_selStartAngle g) w (ev_shift e)))
        | _, _, _ => Some (st, g)
        end
    | MBgMove | MBgScale | MBgRotate =>
        match g_bgStart g, g_startWorld g with
        | Some bg0, Some start =>
            option_map (fun b => (set_bg st b, g))
                       (bgTransform (g_mode g) bg0 start w)
        | _, _ => Some (st, g)
        end
    | MDrawStroke | MDrawErase =>
        match g_activeObj g with
        | Some i =>
            match nth_error (objects st) i with
            | Some (Stroke c sz pts) =>
                option_map (fun s => (s, g))
                  (writeObj st (Z.of_nat i) (Stroke c sz (pts ++ [w])))
            | Some (Erase sz pts) =>
                option_map (fun s => (s, g))
                  (writeObj st (Z.of_nat i) (Erase sz (pts ++ [w])))
            | _ => None
            end
        | None => Some (st, g)
        end
    | MDrawShape =>
        match g_activeObj g with
        | Some i =>
            match nth_error (objects st) i with
            | Some (Shape k c sz x1 y1 _ _ rot) =>
                let snapHeld := ev_ctrl e || ev_meta e in
                let isSeg := match k with Line | Arrow => true | _ => false end in
                let p := if snapHeld && isSeg
                         then snapEndpointToAngles x1 y1 (px w) (py w)
                         else w in
                option_map (fun s => (s, g))
                  (writeObj st (Z.of_nat i) (Shape k c sz x1 y1 (px p) (py p) rot))
            | _ => None
            end
        | None => Some (st, g)
        end
    | _ => Some (st, g)
    end.

(** A sequence of pointer-move events, in order. *)
Fixpoint pointerMoves (st : State) (g : Gesture) (evs : list PointerEvent)
  : option (State * Gesture) :=
  match evs with
  | [] => Some (st, g)
  | e :: rest =>
      match onPointerMove st g e with
      | Some (st', g') => pointerMoves st' g' rest
      | None => None
      end
  end.

Definition onPointerUp (g : Gesture) : Gesture :=
  if g_active g then hardResetGesture else g.

(* ================================================================= *)
(** ** Vector export: the ink layer *)

Open Scope string_scope.

(** [n.toFixed(k)] and the default conversion of a number in a template
    literal: services of the language runtime. *)
Variable toFixed : R -> nat -> string.
Variable numStr : R -> string.

Definition dq : string := String (ascii_of_nat 34) EmptyString.
Definition nl : string := String (ascii_of_nat 10) EmptyString.

Definition natStr (n : nat) : string := NilEmpty.string_of_uint (Nat.to_uint n).

(** An attribute [name="value"]. *)
Definition attr (name value : string) : string :=
  name ++ "=" ++ dq ++ value ++ dq.

(** [svgEscape]: the five replacements, [&] first, so that each character
    of the input is rewritten once. *)
Fixpoint svgEscape (s : string) : string :=
  match s with
  | EmptyString => EmptyString
  | String c rest =>
      (if Ascii.eqb c "&" then "&amp;"
       else if Ascii.eqb c "<" then "&lt;"
       else if Ascii.eqb c ">" then "&gt;"
       else if Ascii.eqb c (ascii_of_nat 34) then "&quot;"
       else if Ascii.eqb c "'" then "&#39;"
       else String c EmptyString) ++ svgEscape rest
  end.

Definition pathFromPoints (pts : list Point) : string :=
  match pts with
  | p0 :: ((_ :: _) as rest) =>
      fold_left
        (fun d p => d ++ " L " ++ toFixed (px p) 2 ++ " " ++ toFixed (py p) 2)
        rest
        ("M " ++ toFixed (px p0) 2 ++ " " ++ toFixed (py p0) 2)
  | _ => ""
  end.

(** The four accumulators of [exportSVG]'s object loop. *)
Record ExportAcc := mkAcc {
  defs : string; pastLayer : string; currentLayer : string; maskCount : nat }.

Definition maskId (n : nat) : string := "m" ++ natStr n.

(** The text appended to [defs] for mask [id]. *)
Definition maskDef (id erasePathD : string) (strokeW : R) : string :=
  nl ++ "      <mask " ++ attr "id" id ++ " " ++ attr "maskUnits" "userSpaceOnUse" ++ ">"
  ++ nl ++ "        <rect " ++ attr "x" "-100000" ++ " " ++ attr "y" "-100000" ++ " "
  ++ attr "width" "200000" ++ " " ++ attr "height" "200000" ++ " "
  ++ attr "fill" "white" ++ "/>"
  ++ nl ++ "        <path " ++ attr "d" erasePathD ++ " " ++ attr "fill" "none" ++ " "
  ++ attr "stroke" "black" ++ " " ++ attr "stroke-linecap" "round" ++ " "
  ++ attr "stroke-linejoin" "round" ++ " "
  ++ attr "stroke-width" (numStr strokeW) ++ "/>"
  ++ nl ++ "      </mask>".

(** The group that applies mask [id] to [inner]. *)
Definition maskOpen (id : string) : string :=
  "<g " ++ attr "mask" ("url(#" ++ id ++ ")") ++ ">".

Definition maskGroup (id inner : string) : string :=
  maskOpen id ++ inner ++ "</g>".

Definition wrapWithEraseMask (acc : ExportAcc) (erasePathD : string)
           (eraseSize : R) : ExportAcc :=
  let n := S (maskCount acc) in
  let id := maskId n in
  let strokeW := Rmax 1 (num_or eraseSize 20) in
  let combined := pastLayer acc ++ currentLayer acc in
  mkAcc (defs acc ++ maskDef id erasePathD strokeW)
        (maskGroup id combined) "" n.

Definition fontFamily : string :=
  "system-ui, -apple-system, Segoe UI, Roboto, Arial, sans-serif".

(** The markup an object other than an eraser stroke adds to
    [currentLayer]; [None] where the loop does [continue] without adding
    (a stroke of fewer than two points). *)
Definition objectMarkup (o : Obj) : option string :=
  match o with
  | Erase _ _ => None
  | Stroke col sz pts =>
      match pathFromPoints pts with
      | EmptyString => None
      | d =>
          Some ("<path " ++ attr "d" d ++ " " ++ attr "fill" "none" ++ " "
                ++ attr "stroke" col ++ " " ++ attr "stroke-linecap" "round" ++ " "
                ++ attr "stroke-linejoin" "round" ++ " "
                ++ attr "stroke-width" (numStr sz) ++ "/>")
      end
  | Text x y text col fs rot =>
      let m := textMetrics text fs in
      let cx := (x + tm_w m / 2)%R in
      let cy := (y + tm_h m / 2)%R in
      let ang := (rot * 180 / PI)%R in
      let t := "translate(" ++ toFixed cx 3 ++ " " ++ toFixed cy 3 ++ ") rotate("
               ++ toFixed ang 6 ++ ") translate(" ++ toFixed (- tm_w m / 2)%R 3
               ++ " " ++ toFixed (- tm_h m / 2)%R 3 ++ ")" in
      Some ("<text " ++ attr "x" "0" ++ " " ++ attr "y" "0" ++ " "
            ++ attr "transform" t ++ " " ++ attr "fill" col ++ " "
            ++ attr "font-family" fontFamily ++ " " ++ attr "font-weight" "700" ++ " "
            ++ attr "font-size" (numStr (tm_fontSize m)) ++ ">"
            ++ svgEscape text ++ "</text>")
  | Shape Line col sz x1 y1 x2 y2 _ =>
      Some ("<line " ++ attr "x1" (numStr x1) ++ " " ++ attr "y1" (numStr y1) ++ " "
            ++ attr "x2" (numStr x2) ++ " " ++ attr "y2" (numStr y2) ++ " "
            ++ attr "stroke" col ++ " " ++ attr "stroke-width" (numStr sz) ++ " "
            ++ attr "stroke-linecap" "round" ++ " />")
  | Shape Arrow col sz x1 y1 x2 y2 _ =>
      let ang := atan2 (y2 - y1) (x2 - x1) in
      let headLen := Rmax 10 (sz * 3) in
      let a1 := (ang + PI * 0.85)%R in
      let a2 := (ang - PI * 0.85)%R in
      let hx1 := (x2 + cos a1 * headLen)%R in
      let hy1 := (y2 + sin a1 * headLen)%R in
      let hx2 := (x2 + cos a2 * headLen)%R in
      let hy2 := (y2 + sin a2 * headLen)%R in
      let d := "M " ++ numStr x1 ++ " " ++ numStr y1 ++ " L " ++ numStr x2 ++ " "
               ++ numStr y2 ++ " M " ++ numStr x2 ++ " " ++ numStr y2 ++ " L "
               ++ numStr hx1 ++ " " ++ numStr hy1 ++ " M " ++ numStr x2 ++ " "
               ++ numStr y2 ++ " L " ++ numStr hx2 ++ " " ++ numStr hy2 in
      Some ("<path " ++ attr "d" d ++ " " ++ attr "fill" "none" ++ " "
            ++ attr "stroke" col ++ " " ++ attr "stroke-width" (numStr sz) ++ " "
            ++ attr "stroke-linecap" "round" ++ " "
            ++ attr "stroke-linejoin" "round" ++ " />")
  | Shape Rect col sz x1 y1 x2 y2 rot =>
      let cx := ((x1 + x2) / 2)%R in
      let cy := ((y1 + y2) / 2)%R in
      let rw := Rabs (x2 - x1) in
      let rh := Rabs (y2 - y1) in
      let ang := (rot * 180 / PI)%R in
      let t := "translate(" ++ numStr cx ++ " " ++ numStr cy ++ ") rotate("
               ++ numStr ang ++ ")" in
      Some ("<rect " ++ attr "x" (numStr (- rw / 2)%R) ++ " "
            ++ attr "y" (numStr (- rh / 2)%R) ++ " "
            ++ attr "width" (numStr rw) ++ " " ++ attr "height" (numStr rh) ++ " "
            ++ attr "transform" t ++ " " ++ attr "fill" "none" ++ " "
            ++ attr "stroke" col ++ " " ++ attr "stroke-width" (numStr sz) ++ " />")
  | Shape Circle col sz x1 y1 x2 y2 rot =>
      let cx := ((x1 + x2) / 2)%R in
      let cy := ((y1 + y2) / 2)%R in
      let rx := (Rabs (x2 - x1) / 2)%R in
      let ry := (Rabs (y2 - y1) / 2)%R in
      let ang := (rot * 180 / PI)%R in
      let t := "translate(" ++ numStr cx ++ " " ++ numStr cy ++ ") rotate("
               ++ numStr ang ++ ")" in
      Some ("<ellipse " ++ attr "cx" "0" ++ " " ++ attr "cy" "0" ++ " "
            ++ attr "rx" (numStr rx) ++ " " ++ attr "ry" (numStr ry) ++ " "
            ++ attr "transform" t ++ " " ++ attr "fill" "none" ++ " "
            ++ attr "stroke" col ++ " " ++ attr "stroke-width" (numStr sz) ++ " />")
  end.

(** One turn of the loop [for (const obj of state.objects)]. *)
Definition exportStep (acc : ExportAcc) (o : Obj) : ExportAcc :=
  match o with
  | Erase sz pts =>
      match pathFromPoints pts with
      | EmptyString => acc
      | d => wrapWithEraseMask acc d sz
      end
  | _ =>
      match objectMarkup o with
      | Some m =>
          mkAcc (defs acc) (pastLayer acc) (currentLayer acc ++ m) (maskCount acc)
      | None => acc
      end
  end.

Definition exportLoop (acc : ExportAcc) (objs : list Obj) : ExportAcc :=
  fold_left exportStep objs acc.

Definition exportInit : ExportAcc := mkAcc "" "" "" 0.

(** [inkMarkup = pastLayer + currentLayer] *)
Definition inkOf (acc : ExportAcc) : string := pastLayer acc ++ currentLayer acc.

Definition inkMarkup (objs : list Obj) : string :=
  inkOf (exportLoop exportInit objs).

Definition exportDefs (objs : list Obj) : string :=
  defs (exportLoop exportInit objs).

Close Scope string_scope.

(* ================================================================= *)
(** ** Notions used to state the properties *)




Definition segDist (wx wy : R) (seg : Point * Point) : R :=
  distToSeg wx wy (px (fst seg)) (py (fst seg)) (px (snd seg)) (py (snd seg)).

(** The distance from [(wx, wy)] to the point of the segment at parameter
    [t], which runs from 0 at the first end to 1 at the second. *)
Definition pointDist (wx wy : R) (seg : Point * Point) (t : R) : R :=
  hypot (wx - (px (fst seg) + t * (px (snd seg) - px (fst seg))))
        (wy - (py (fst seg) + t * (py (snd seg) - py (fst seg)))).

(** The list [objs] with the element at index [i] replaced by [v]. *)
Definition replaceAt (objs : list Obj) (i : nat) (v : Obj) : list Obj :=
  firstn i objs ++ v :: skipn (S i) objs.

(** What gesture record a selScale drag works with. *)
Definition scaling (g : Gesture) (idx : nat) (obj0 : Obj)
           (anchor start : Point) : Prop :=
  g_active g = true /\ g_mode g = MSelScale
  /\ g_selIndex g = Z.of_nat idx /\ g_selStartObj g = Some obj0
  /\ g_selAnchor g = Some anchor /\ g_startWorld g = Some start.

(** An eraser stroke that has a path (two points or more) and so a mask. *)
Definition erases (o : Obj) : bool :=
  match o with
  | Erase _ pts => match pathFromPoints pts with EmptyString => false | _ => true end
  | _ => false
  end.

(** What the objects [objs], exported after [n] masks are in place, put
    around the markup that precedes them: the opening tags of their own
    mask groups in front ([laterOpens], outermost first), and behind it
    ([laterRest]) the closing tags of those groups and the markup of the
    objects themselves. [laterDefs] is what they append to [defs]. *)
Fixpoint laterOpens (n : nat) (objs : list Obj) : string :=
  match objs with
  | [] => EmptyString
  | o :: rest =>
      if erases o then (laterOpens (S n) rest ++ maskOpen (maskId (S n)))%string
      else laterOpens n rest
  end.

Fixpoint laterRest (n : nat) (objs : list Obj) : string :=
  match objs with
  | [] => EmptyString
  | o :: rest =>
      if erases o then ("</g>" ++ laterRest (S n) rest)%string
      else
        match o, objectMarkup o with
        | Erase _ _, _ | _, None => laterRest n rest
        | _, Some m => (m ++ laterRest n rest)%string
        end
  end.

Fixpoint laterDefs (n : nat) (objs : list Obj) : string :=
  match objs with
  | [] => EmptyString
  | Erase sz pts :: rest =>
      match pathFromPoints pts with
      | EmptyString => laterDefs n rest
      | d => (maskDef (maskId (S n)) d (Rmax 1 (num_or sz 20))
              ++ laterDefs (S n) rest)%string
      end
  | _ :: rest => laterDefs n rest
  end.

(** The loop invariant of [snapAngleRad]: once a candidate has been seen,
    [best] is one of the candidates seen, [bestDiff] is its distance, and
    no candidate seen is nearer. *)
Definition snapInv (a : R) (seen : list R) (acc : R * option R) : Prop :=
  match snd acc with
  | None => seen = []
  | Some bd =>
      bd = angDiff a (fst acc) /\ In (fst acc) seen
      /\ forall s, In s seen -> bd <= angDiff a s
  end.

(* ================================================================= *)
(** ** Further notions used to state properties *)

(** The sixteen points [objectBounds] samples on the outline of a circle
    object (an ellipse, turned by [rot]). *)
Definition circleSamples (x1 y1 x2 y2 rot : R) : list Point :=
  let cx := (x1 + x2) / 2 in
  let cy := (y1 + y2) / 2 in
  let rx := Rabs (x2 - x1) / 2 in
  let ry := Rabs (y2 - y1) / 2 in
  map (fun i : nat =>
         let t := (INR i / 16) * PI * 2 in
         let ex := cos t * rx in
         let ey := sin t * ry in
         mkPoint (cx + ex * cos rot - ey * sin rot)
                 (cy + ex * sin rot + ey * cos rot))
      (seq 0 16).

(** The points an object's bounds are taken over: the points of a stroke,
    the two ends of a line or an arrow, the four turned corners of a
    rectangle or of a text box, the sixteen sampled points of a circle. *)
Definition outlinePoints (o : Obj) : list Point :=
  match o with
  | Stroke _ _ pts | Erase _ pts => pts
  | Text x y text _ fontSize rot =>
      let m := textMetrics text fontSize in
      rotatedCorners (x + tm_w m / 2) (y + tm_h m / 2) (tm_w m) (tm_h m) rot
  | Shape Rect _ _ x1 y1 x2 y2 rot =>
      rotatedCorners ((x1 + x2) / 2) ((y1 + y2) / 2)
                     (Rabs (x2 - x1)) (Rabs (y2 - y1)) rot
  | Shape Circle _ _ x1 y1 x2 y2 rot => circleSamples x1 y1 x2 y2 rot
  | Shape _ _ _ x1 y1 x2 y2 _ => [mkPoint x1 y1; mkPoint x2 y2]
  end.

Definition inBounds (b : Bounds) (p : Point) : Prop :=
  minX b <= px p <= maxX b /\ minY b <= py p <= maxY b.

(** The pan a drag leaves: starting from the pan [(pX, pY)] with the
    pointer at the screen position [s], every move adds the step from the
    previous pointer position to its own, one addition per axis and move,
    in order. *)
Fixpoint panAfter (pX pY : R) (s : Point) (evs : list PointerEvent) : R * R :=
  match evs with
  | [] => (pX, pY)
  | e :: rest =>
      panAfter (pX + (ev_sx e - px s)) (pY + (ev_sy e - py s))
               (mkPoint (ev_sx e) (ev_sy e)) rest
  end.

(** The screen position of an event. *)
Definition evScreen (e : PointerEvent) : Point := mkPoint (ev_sx e) (ev_sy e).

(** The world point under the pointer of an event. *)
Definition evWorld (st : State) (e : PointerEvent) : Point :=
  screenToWorld st (ev_sx e) (ev_sy e).

(** The points of a stroke or eraser stroke, and the same stroke with
    other points. *)
Definition strokePoints (o : Obj) : list Point :=
  match o with
  | Stroke _ _ pts | Erase _ pts => pts
  | _ => []
  end.

Definition withPoints (o : Obj) (pts : list Point) : Obj :=
  match o with
  | Stroke c sz _ => Stroke c sz pts
  | Erase sz _ => Erase sz pts
  | _ => o
  end.

Definition isStroke (o : Obj) : bool :=
  match o with
  | Stroke _ _ _ | Erase _ _ => true
  | _ => false
  end.

(** An action on the document that leaves the history stacks alone, and a
    run of such actions, each preceded by [pushUndo(); clearRedo()] as in
    every handler of the source. *)
Definition stackPreserving (a : State -> State) : Prop :=
  forall s, undo_stack (a s) = undo_stack s /\ redo_stack (a s) = redo_stack s.

Definition runActions (acts : list (State -> State)) (st : State) : State :=
  fold_left (fun s a => a (clearRedo (pushUndo s))) acts st.

(** The two stacks together hold at most 120 entries. *)
Definition historyBounded (st : State) : Prop :=
  (List.length (undo_stack st) + List.length (redo_stack st) <= 120)%nat.

(** The markup an object contributes on its own (nothing for an eraser or
    for a stroke without a path). *)
Definition ownMarkup (o : Obj) : string :=
  match objectMarkup o with Some m => m | None => EmptyString end.

Fixpoint concatMarkup (objs : list Obj) : string :=
  match objs with
  | [] => EmptyString
  | o :: rest => (ownMarkup o ++ concatMarkup rest)%string
  end.

(** The characters [svgEscape] is there to remove. *)
Definition markupChar (c : ascii) : bool :=
  Ascii.eqb c "<" || Ascii.eqb c ">" || Ascii.eqb c (ascii_of_nat 34)
  || Ascii.eqb c "'".

Definition plainChar (c : ascii) : bool :=
  negb (Ascii.eqb c "&" || markupChar c).

(** [k] presses of an arrow key. *)
Fixpoint pressKey (k : nat) (key : RevealKey) (shiftKey : bool)
         (st : State) (nodes : list SvgNode) : State * list SvgNode :=
  match k with
  | O => (st, nodes)
  | S k' =>
      let r := keyReveal st nodes key shiftKey in
      pressKey k' key shiftKey (fst r) (snd r)
  end.

(* ================================================================= *)
(** ** Selection handles *)

Inductive Corner := NW | NE | SE | SW.

Record CornerHandle := mkCorner { c_name : Corner; c_x : R; c_y : R; c_s : R }.
Record HandleBox := mkBox { b_x : R; b_y : R; b_w : R; b_h : R }.
Record RotateHandle := mkRot { r_x : R; r_y : R; r_r : R }.

(** The [uiHandles] cache, recomputed at every redraw. *)
Record Handles := mkHandles {
  h_visible : bool;
  h_box : option HandleBox;
  h_rotate : option RotateHandle;
  h_corners : option (list CornerHandle);
  h_poly : option (list Point);
  h_center : option Point }.

Definition noHandles : Handles := mkHandles false None None None None None.

Definition computeHandles (st : State) : Handles :=
  if negb (String.eqb (tool st) "select") then noHandles
  else if (selectionIndex st <? 0)%Z then noHandles
  else
    match nth_error (objects st) (Z.to_nat (selectionIndex st)) with
    | None => noHandles
    | Some obj =>
        let b := objectBounds obj in
        if hasOwnRot obj then
          let '(w, h) :=
            match obj with
            | Text _ _ t _ fs _ =>
                let m := textMetrics t fs in (tm_w m, tm_h m)
            | Shape Rect _ _ x1 y1 x2 y2 _ | Shape Circle _ _ x1 y1 x2 y2 _ =>
                (Rabs (x2 - x1), Rabs (y2 - y1))
            | _ => (maxX b - minX b, maxY b - minY b)
            end in
          let cx := (minX b + maxX b) / 2 in
          let cy := (minY b + maxY b) / 2 in
          let ang := objRot obj in
          let cornersS :=
            map (fun p => worldToScreen st (px p) (py p))
                (rotatedCorners cx cy w h ang) in
          match cornersS with
          | [c0; c1; c2; c3] =>
              let topMidX := (px c0 + px c1) / 2 in
              let topMidY := (py c0 + py c1) / 2 in
              let edgeX := px c1 - px c0 in
              let edgeY := py c1 - py c0 in
              let elen := num_or (hypot edgeX edgeY) 1 in
              let nx := - (edgeY / elen) in
              let ny := edgeX / elen in
              mkHandles true None
                (Some (mkRot (topMidX + nx * 28) (topMidY + ny * 28) 7))
                (Some [ mkCorner NW (px c0) (py c0) 10;
                        mkCorner NE (px c1) (py c1) 10;
                        mkCorner SE (px c2) (py c2) 10;
                        mkCorner SW (px c3) (py c3) 10 ])
                (Some cornersS)
                (Some (mkPoint ((px c0 + px c2) / 2) ((py c0 + py c2) / 2)))
          | _ => noHandles
          end
        else
          let p1 := worldToScreen st (minX b) (minY b) in
          let p2 := worldToScreen st (maxX b) (maxY b) in
          let x := Rmin (px p1) (px p2) in
          let y := Rmin (py p1) (py p2) in
          let w := Rabs (px p2 - px p1) in
          let h := Rabs (py p2 - py p1) in
          let cx := x + w / 2 in
          mkHandles true (Some (mkBox x y w h))
            (Some (mkRot cx (y - 22) 7))
            (Some [ mkCorner NW x y 10; mkCorner NE (x + w) y 10;
                    mkCorner SE (x + w) (y + h) 10; mkCorner SW x (y + h) 10 ])
            None None
    end.

Inductive HandleHit := HitRotate | HitScale (corner : Corner) | HitMove.

Definition kindOfHit (h : HandleHit) : HandleKind :=
  match h with
  | HitRotate => HRotate | HitScale _ => HScale | HitMove => HMove
  end.

(** The loop over the corner handles: the first one whose square holds the
    point. *)
Fixpoint hitCorner (sx sy : R) (cs : list CornerHandle) : option Corner :=
  match cs with
  | [] => None
  | c :: rest =>
      if Rleb (c_x c - c_s c) sx && Rleb sx (c_x c + c_s c)
         && Rleb (c_y c - c_s c) sy && Rleb sy (c_y c + c_s c)
      then Some (c_name c)
      else hitCorner sx sy rest
  end.

(** The crossing-number loop of [hitHandle]: [prev] is [poly[j]]. *)
Fixpoint polyInside (sx sy : R) (pts : list Point) (prev : Point)
         (inside : bool) : bool :=
  match pts with
  | [] => inside
  | p :: rest =>
      let intersect :=
        negb (Bool.eqb (Rltb sy (py p)) (Rltb sy (py prev)))
        && Rltb sx ((px prev - px p) * (sy - py p)
                    / (py prev - py p + 1e-12) + px p) in
      polyInside sx sy rest p (if intersect then negb inside else inside)
  end.

Definition hitHandle (h : Handles) (sx sy : R) : option HandleHit :=
  if negb (h_visible h) then None
  else
    let onRotate :=
      match h_rotate h with
      | Some r => Rleb (hypot (sx - r_x r) (sy - r_y r)) (r_r r + 6)
      | None => false
      end in
    if onRotate then Some HitRotate
    else
      match (match h_corners h with
             | Some cs => hitCorner sx sy cs
             | None => None
             end) with
      | Some c => Some (HitScale c)
      | None =>
          let inBox :=
            match h_box h with
            | Some b => Rleb (b_x b) sx && Rleb sx (b_x b + b_w b)
                        && Rleb (b_y b) sy && Rleb sy (b_y b + b_h b)
            | None => false
            end in
          if inBox then Some HitMove
          else
            match h_poly h with
            | Some poly =>
                if polyInside sx sy poly (last poly (mkPoint 0 0)) false
                then Some HitMove else None
            | None => None
            end
      end.

(* ================================================================= *)
(** ** Pointer down, pointer up and the delete key *)

Definition set_selection (st : State) (sel : Z) : State :=
  mkState (tool st) (color st) (size st) (zoom st) (panX st) (panY st)
          (title st) (svg st) (bg st) (objects st) (undo_stack st)
          (redo_stack st) sel (viewW st) (viewH st).

Definition set_tool (st : State) (t : string) : State :=
  mkState t (color st) (size st) (zoom st) (panX st) (panY st)
          (title st) (svg st) (bg st) (objects st) (undo_stack st)
          (redo_stack st) (selectionIndex st) (viewW st) (viewH st).

(** The first statements of [onPointerDown]: the gesture becomes active
    and records where the pointer went down. *)
Definition gestureDown (g : Gesture) (sx sy : R) (w : Point) : Gesture :=
  mkGesture true (g_mode g) (Some w) (Some (mkPoint sx sy)) (Some w)
            (Some (mkPoint sx sy)) None (g_selIndex g) (g_selStartObj g)
            (g_selAnchor g) (g_selStartVec g) (g_selStartAngle g) (g_bgStart g).

Definition g_with_mode (g : Gesture) (m : Mode) : Gesture :=
  mkGesture (g_active g) m (g_startWorld g) (g_startScreen g)
            (g_lastWorld g) (g_lastScreen g) (g_activeObj g)
            (g_selIndex g) (g_selStartObj g) (g_selAnchor g)
            (g_selStartVec g) (g_selStartAngle g) (g_bgStart g).

Definition g_with_active (g : Gesture) (a : bool) : Gesture :=
  mkGesture a (g_mode g) (g_startWorld g) (g_startScreen g)
            (g_lastWorld g) (g_lastScreen g) (g_activeObj g)
            (g_selIndex g) (g_selStartObj g) (g_selAnchor g)
            (g_selStartVec g) (g_selStartAngle g) (g_bgStart g).

Definition g_with_activeObj (g : Gesture) (i : nat) : Gesture :=
  mkGesture (g_active g) (g_mode g) (g_startWorld g) (g_startScreen g)
            (g_lastWorld g) (g_lastScreen g) (Some i)
            (g_selIndex g) (g_selStartObj g) (g_selAnchor g)
            (g_selStartVec g) (g_selStartAngle g) (g_bgStart g).

(** The drawing tools of [onPointerDown]: the object they push and the
    gesture mode they enter. *)
Definition newDrawing (st : State) (w : Point) : option (Obj * Mode) :=
  if String.eqb (tool st) "pen" then
    Some (Stroke (color st) (size st) [w], MDrawStroke)
  else if String.eqb (tool st) "eraser" then
    Some (Erase (Rmax 10 (size st * 2.2)) [w], MDrawErase)
  else if String.eqb (tool st) "line" then
    Some (Shape Line (color st) (size st) (px w) (py w) (px w) (py w) 0, MDrawShape)
  else if String.eqb (tool st) "rect" then
    Some (Shape Rect (color st) (size st) (px w) (py w) (px w) (py w) 0, MDrawShape)
  else if String.eqb (tool st) "circle" then
    Some (Shape Circle (color st) (size st) (px w) (py w) (px w) (py w) 0, MDrawShape)
  else if String.eqb (tool st) "arrow" then
    Some (Shape Arrow (color st) (size st) (px w) (py w) (px w) (py w) 0, MDrawShape)
  else None.

(** The part of the select branch after the handle test: select what is
    under the pointer and, if there is something, begin to move it. *)
Definition selectUnderPointer (st : State) (g0 : Gesture) (w : Point)
  : option (State * Gesture * Handles) :=
  let hit := findHit st (px w) (py w) in
  let st1 := set_selection st hit in
  if (0 <=? hit)%Z then
    match beginSelectionTransform HMove st1 g0 w with
    | Some (st2, g2, _) => Some (st2, g2, computeHandles st1)
    | None => None
    end
  else Some (st1, g_with_mode g0 MSelect, computeHandles st1).

(** [onPointerDown(e)] on the canvas.  [spacePanning] is the flag the space
    key sets, [promptText] what [prompt] returns ([None] for null), [h] the
    handle cache as the last redraw left it.  The result carries the cache
    as the handler leaves it: recomputed where it redraws. *)
Definition onPointerDown (spacePanning : bool) (promptText : option string)
           (h : Handles) (st : State) (g : Gesture) (e : PointerEvent)
  : option (State * Gesture * Handles) :=
  let sx := ev_sx e in
  let sy := ev_sy e in
  let w := screenToWorld st sx sy in
  let g0 := gestureDown g sx sy w in
  if spacePanning then Some (st, g_with_mode g0 MPan, h)
  else if String.eqb (tool st) "text" then
    let g1 := g_with_mode (g_with_active g0 false) MNone in
    match promptText with
    | None | Some EmptyString => Some (st, g1, h)
    | Some text =>
        let st1 := clearRedo (pushUndo st) in
        let obj := Text (px w) (py w) text (color st1)
                        (Rmax 14 (jsround (size st1 * 4))) 0 in
        let objs := objects st1 ++ [obj] in
        let st2 := set_tool (set_selection (set_objects st1 objs)
                               (Z.of_nat (List.length objs) - 1)) "select" in
        Some (st2, g1, computeHandles st2)
    end
  else if String.eqb (tool st) "select" then
    match hitHandle h sx sy with
    | Some hit =>
        match beginSelectionTransform (kindOfHit hit) st g0 w with
        | None => None
        | Some (st1, g1, true) => Some (st1, g1, computeHandles st1)
        | Some (_, _, false) => selectUnderPointer st g0 w
        end
    | None => selectUnderPointer st g0 w
    end
  else if String.eqb (tool st) "bgMove" then
    option_map (fun r => (fst (fst r), snd (fst r), h))
               (beginToolTransformForSelectionOrBg ToolBgMove st g0 w)
  else if String.eqb (tool st) "bgScale" then
    option_map (fun r => (fst (fst r), snd (fst r), h))
               (beginToolTransformForSelectionOrBg ToolBgScale st g0 w)
  else if String.eqb (tool st) "bgRotate" then
    option_map (fun r => (fst (fst r), snd (fst r), h))
               (beginToolTransformForSelectionOrBg ToolBgRotate st g0 w)
  else
    let st1 := set_selection (clearRedo (pushUndo st)) (-1) in
    match newDrawing st1 w with
    | Some (obj, m) =>
        let st2 := set_objects st1 (objects st1 ++ [obj]) in
        Some (st2,
              g_with_mode (g_with_activeObj g0 (List.length (objects st1))) m,
              computeHandles st2)
    | None => Some (st1, g_with_mode g0 MNone, h)
    end.

(** The Delete and Backspace keys (not typing). *)
Definition deleteSelection (st : State) : State :=
  if (0 <=? selectionIndex st)%Z then
    let st1 := clearRedo (pushUndo st) in
    let i := Z.to_nat (selectionIndex st1) in
    set_selection
      (set_objects st1 (firstn i (objects st1) ++ skipn (S i) (objects st1)))
      (-1)
  else st.

(** The shape a shape tool draws. *)
Definition shapeKindOfTool (t : string) : option ShapeKind :=
  if String.eqb t "line" then Some Line
  else if String.eqb t "rect" then Some Rect
  else if String.eqb t "circle" then Some Circle
  else if String.eqb t "arrow" then Some Arrow
  else None.

(** The end point a drawShape move stores for a shape that starts at
    [(x1, y1)]: the pointer, or for a line or arrow with Ctrl or Cmd held
    the snapped pointer. *)
Definition shapeEnd (st : State) (k : ShapeKind) (x1 y1 : R)
           (e : PointerEvent) : Point :=
  let w := evWorld st e in
  if (ev_ctrl e || ev_meta e)
     && match k with Line | Arrow => true | _ => false end
  then snapEndpointToAngles x1 y1 (px w) (py w)
  else w.

(* ================================================================= *)
(** ** Sample documents *)

(** Stand-ins for the browser's text measure and number formatting, for the
    closed examples; every statement below holds whatever they are. *)
Definition sampleMeasure (text : string) (fontSize : R) : R :=
  INR (String.length text) * fontSize * 0.6.
Definition sampleFixed (x : R) (digits : nat) : string := "0"%string.
Definition sampleNum (x : R) : string := "0"%string.

Definition sampleLine : Obj := Shape Line "#111111" 5 0 0 10 0 0.
Definition sampleRect : Obj := Shape Rect "#111111" 5 0 0 100 50 0.

Definition sampleState (objs : list Obj) (sel : Z) : State :=
  mkState "select" "#111111" 5 1 0 0 "" svg_default bg_default objs [] [] sel
          800 600.

(** A document with an overlay loaded and revealed up to its third node. *)
Definition sampleOverlay : SvgState :=
  mkSvg "<svg><path/><path/><path/></svg>" 10 20 1 0 "0 0 100 100" 2 3.

Definition overlayState : State :=
  mkState "pen" "#111111" 5 1 0 0 "" sampleOverlay bg_default [] [] [] (-1)
          800 600.

(** The gesture record as [onPointerDown] leaves it before it looks at the
    tool: active, with the pointer position recorded. *)
Definition pressed (sx sy : R) (w : Point) : Gesture :=
  mkGesture true MNone (Some w) (Some (mkPoint sx sy)) (Some w)
            (Some (mkPoint sx sy)) None (-1) None None None 0 None.

(** A line being drawn from the origin: the gesture after [onPointerDown]
    with the line tool. *)
Definition drawingLine : Gesture :=
  mkGesture true MDrawShape (Some (mkPoint 0 0)) (Some (mkPoint 0 0))
            (Some (mkPoint 0 0)) (Some (mkPoint 0 0)) (Some 0%nat)
            (-1) None None None 0 None.

(** A pointer event with no modifier key held. *)
Definition pointerAt (sx sy : R) : PointerEvent :=
  mkEvent sx sy false false false.

(** A stroke being drawn: the object list after [onPointerDown] with the
    pen at the origin, and the gesture it leaves. *)
Definition sampleStroke : Obj := Stroke "#111111" 5 [mkPoint 0 0].

Definition drawingStroke : Gesture :=
  mkGesture true MDrawStroke (Some (mkPoint 0 0)) (Some (mkPoint 0 0))
            (Some (mkPoint 0 0)) (Some (mkPoint 0 0)) (Some 0%nat)
            (-1) None None None 0 None.

(** A document with a background image, the background move tool active. *)
Definition sampleBg : BgState :=
  mkBg "data:image/png;base64,AAAA" 200 100 0 0 1 0.

Definition bgState : State :=
  mkState "bgMove" "#111111" 5 1 0 0 "" svg_default sampleBg [] [] []
          (-1) 800 600.

(** The three nodes of [sampleOverlay], all revealed. *)
Definition sampleNodes : list SvgNode :=
  [mkNode "path" true; mkNode "path" true; mkNode "path" true].

(* ================================================================= *)
(** * Properties *)

(** ** Numbers *)

Lemma Rleb_true (a b : R) : Rleb a b = true <-> a <= b.
Proof. unfold Rleb. destruct (Rle_dec a b); split; intros; try easy; lra. Qed.

Lemma Rleb_false (a b : R) : Rleb a b = false <-> b < a.
Proof. unfold Rleb. destruct (Rle_dec a b); split; intros; try easy; lra. Qed.

Lemma Rltb_true (a b : R) : Rltb a b = true <-> a < b.
Proof. unfold Rltb. destruct (Rlt_dec a b); split; intros; try easy; lra. Qed.

Lemma Rltb_false (a b : R) : Rltb a b = false <-> b <= a.
Proof. unfold Rltb. destruct (Rlt_dec a b); split; intros; try easy; lra. Qed.

Lemma Reqb_true (a b : R) : Reqb a b = true <-> a = b.
Proof. unfold Reqb. destruct (Req_dec_T a b); split; intros; easy. Qed.

Lemma Reqb_false (a b : R) : Reqb a b = false <-> a <> b.
Proof. unfold Reqb. destruct (Req_dec_T a b); split; intros; easy. Qed.

Lemma clamp_bounds (v a b : R) : a <= b -> a <= clamp v a b <= b.
Proof.
  intros Hab. unfold clamp, Rmax, Rmin.
  destruct (Rle_dec b v); destruct (Rle_dec a _); lra.
Qed.

Lemma num_or_nonzero (n d : R) : d <> 0 -> num_or n d <> 0.
Proof.
  intros Hd. unfold num_or. destruct (Reqb n 0) eqn:E; [exact Hd|].
  now apply Reqb_false.
Qed.

(* ================================================================= *)
(** ** Camera *)


(** With exact arithmetic in place of the engine's rounded operations, the
    pan [setZoomTo] solves for keeps the world point under the anchor.  (In
    binary64 the point is kept up to rounding only: see the closed
    instances.) *)
Lemma setZoomTo_anchor_over_reals (st : State) (z ax ay : R) :
  0 < zoom st ->
  screenToWorld (setZoomTo st z ax ay) ax ay = screenToWorld st ax ay.
Proof.
  intros Hz.
  assert (Hc : 0.25 <= clamp z 0.25 6 <= 6) by (apply clamp_bounds; lra).
  unfold screenToWorld, setZoomTo, set_camera; cbn [panX panY zoom].
  f_equal; field; lra.
Qed.

(* ================================================================= *)
(** ** Scaling a rectangle about its centre *)

Lemma appliedFactor_2 : appliedFactor (Fin 2) = 2.
Proof. unfold appliedFactor, finiteOr1. rcompute. Qed.

(** C7 (as the code computes it). Scaling the rectangle (0,0)-(100,50) by 2
    in both axes about (50,25) gives the corners (-50,-25)-(150,75). *)
Theorem scale_rect_about_centre (col : string) (sz rot : R) :
  scaleObjectXY (Shape Rect col sz 0 0 100 50 rot) (Fin 2) (Fin 2) 50 25
  = Shape Rect col sz (-50) (-25) 150 75 rot.
Proof.
  unfold scaleObjectXY. rewrite appliedFactor_2. f_equal; lra.
Qed.

(* ================================================================= *)
(** ** Overlay reveal cursor *)

Lemma revealFrom_visible (s : Z) (nodes : list SvgNode) (i : nat) :
  map node_visible (revealFrom i s nodes)
  = map (fun j => (Z.of_nat j <=? s)%Z) (seq i (List.length nodes)).
Proof.
  revert i. induction nodes as [|n rest IH]; intros i; cbn; [reflexivity|].
  now rewrite IH.
Qed.

Lemma revealFrom_tags (s : Z) (nodes : list SvgNode) (i : nat) :
  map node_tag (revealFrom i s nodes) = map node_tag nodes.
Proof.
  revert i. induction nodes as [|n rest IH]; intros i; cbn; [reflexivity|].
  now rewrite IH.
Qed.

(** C10. [revealTo] stores the step it is given clamped to
    [-1, nodeCount - 1], that is [max(-1, min(nodeCount - 1, step))]: the
    step itself when it lies in that interval, [-1] when it is below and
    [nodeCount - 1] when it is above; it keeps the nodes, and leaves node
    [i] visible exactly when [i] is at most the stored cursor. *)
Theorem revealTo_clamps_cursor (st : State) (nodes : list SvgNode) (step : Z) :
  let st' := fst (revealTo st nodes step) in
  let nodes' := snd (revealTo st nodes step) in
  let s := svg_step (svg st') in
  let last := (Z.of_nat (List.length nodes) - 1)%Z in
  s = Z.max (-1) (Z.min last step)
  /\ ((-1 <= step <= last)%Z -> s = step)
  /\ ((step <= -1)%Z -> s = (-1)%Z)
  /\ ((last <= step)%Z -> s = last)
  /\ (-1 <= s <= last)%Z
  /\ map node_tag nodes' = map node_tag nodes
  /\ map node_visible nodes'
     = map (fun i => (Z.of_nat i <=? s)%Z) (seq 0 (List.length nodes)).
Proof.
  cbn. unfold revealStep.
  split; [reflexivity|]. split; [lia|]. split; [lia|]. split; [lia|].
  split; [lia|]. split.
  - apply revealFrom_tags.
  - apply revealFrom_visible.
Qed.

(** The arrow keys go through [revealTo], so the cursor stays in range under
    any sequence of steps. *)
Lemma keyReveal_cursor_in_range (st : State) (nodes : list SvgNode)
      (k : RevealKey) (shiftKey : bool) :
  nodes <> [] ->
  let s := svg_step (svg (fst (keyReveal st nodes k shiftKey))) in
  (-1 <= s <= Z.of_nat (List.length nodes) - 1)%Z.
Proof.
  intros Hn. destruct nodes as [|n rest]; [congruence|].
  set (ns := n :: rest).
  assert (H : forall step,
             (-1 <= svg_step (svg (fst (revealTo st ns step)))
              <= Z.of_nat (List.length ns) - 1)%Z).
  { intros step. unfold revealTo.
    cbn [fst svg set_svg svg_step set_step]. unfold revealStep. lia. }
  destruct k; apply H.
Qed.

(* ================================================================= *)
(** ** History *)

Lemma pop_snoc {A} (l : list A) (x : A) : pop (l ++ [x]) = Some (x, l).
Proof. unfold pop. rewrite rev_app_distr. cbn. now rewrite rev_involutive. Qed.

Lemma pushUndo_stack (st : State) :
  exists l, undo_stack (pushUndo st) = l ++ [snapshot st].
Proof.
  unfold pushUndo, set_stacks; cbn [undo_stack].
  remember (undo_stack st ++ [snapshot st]) as u eqn:Eu.
  destruct (120 <? List.length u)%nat eqn:E.
  - destruct (undo_stack st) as [|s0 l].
    + subst u. apply Nat.ltb_lt in E. cbn [List.length app] in E. lia.
    + exists l. subst u. reflexivity.
  - exists (undo_stack st). exact Eu.
Qed.

Lemma pushUndo_objects (st : State) : objects (pushUndo st) = objects st.
Proof. reflexivity. Qed.

(** C5. After an action that pushed one undo entry before mutating, [undo]
    brings back the object list from before the action and [redo] the one
    from after it. *)
Theorem undo_redo_object_roundtrip (st : State) (action : State -> State) :
  undo_stack (action (clearRedo (pushUndo st)))
  = undo_stack (clearRedo (pushUndo st)) ->
  objects (undo (action (clearRedo (pushUndo st)))) = objects st
  /\ objects (redo (undo (action (clearRedo (pushUndo st)))))
     = objects (action (clearRedo (pushUndo st))).
Proof.
  intros Hu.
  set (s1 := action (clearRedo (pushUndo st))) in *.
  destruct (pushUndo_stack st) as [l Hl].
  assert (Hs1 : undo_stack s1 = l ++ [snapshot st]) by (rewrite Hu; exact Hl).
  assert (Hundo : undo s1
                  = applySnapshot
                      (set_stacks s1 l (redo_stack s1 ++ [snapshot s1]))
                      (snapshot st)).
  { unfold undo. rewrite Hs1, pop_snoc. reflexivity. }
  split.
  - rewrite Hundo. reflexivity.
  - rewrite Hundo. unfold redo. cbn [applySnapshot redo_stack set_stacks].
    rewrite pop_snoc. reflexivity.
Qed.

(** [snapshot] never records the overlay. *)
Lemma snapshot_has_no_overlay (st : State) : snap_svg (snapshot st) = None.
Proof. reflexivity. Qed.

(** [undo] after [pushUndo] replaces the overlay state by the default one
    and brings back the background record as it was. *)
Lemma undo_resets_overlay (st : State) (action : State -> State) :
  undo_stack (action (clearRedo (pushUndo st)))
  = undo_stack (clearRedo (pushUndo st)) ->
  svg (undo (action (clearRedo (pushUndo st)))) = svg_default
  /\ bg (undo (action (clearRedo (pushUndo st)))) = bg st.
Proof.
  intros Hu.
  set (s1 := action (clearRedo (pushUndo st))) in *.
  destruct (pushUndo_stack st) as [l Hl].
  assert (Hs1 : undo_stack s1 = l ++ [snapshot st]) by (rewrite Hu; exact Hl).
  unfold undo. rewrite Hs1, pop_snoc. split; reflexivity.
Qed.

(* ================================================================= *)
(** ** Hit-testing of segment objects *)

Lemma hypot_nonneg (x y : R) : 0 <= hypot x y.
Proof. apply sqrt_pos. Qed.

Lemma hypot_le (x y u v : R) :
  x * x + y * y <= u * u + v * v -> hypot x y <= hypot u v.
Proof. intros H. unfold hypot. now apply sqrt_le_1_alt. Qed.

(** In exact arithmetic [distToSeg] is the distance to the nearest point of
    the segment: no point of the segment is nearer, and one is exactly that
    far. *)
Lemma distToSeg_least (x y x1 y1 x2 y2 t : R) :
  0 <= t <= 1 ->
  distToSeg x y x1 y1 x2 y2
  <= hypot (x - (x1 + t * (x2 - x1))) (y - (y1 + t * (y2 - y1))).
Proof.
  intros Ht. unfold distToSeg.
  destruct (Reqb (x2 - x1) 0 && Reqb (y2 - y1) 0) eqn:E.
  - apply andb_prop in E. destruct E as [Ex Ey].
    apply Reqb_true in Ex. apply Reqb_true in Ey.
    rewrite Ex, Ey. apply hypot_le. nra.
  - set (dx := x2 - x1). set (dy := y2 - y1).
    assert (HD : 0 < dx * dx + dy * dy).
    { apply andb_false_iff in E. destruct E as [E|E]; apply Reqb_false in E;
        fold dx in E || fold dy in E; nra. }
    set (D := dx * dx + dy * dy) in *.
    set (ts := ((x - x1) * dx + (y - y1) * dy) / D).
    assert (Hts : ts * D = (x - x1) * dx + (y - y1) * dy).
    { unfold ts. field. lra. }
    apply hypot_le.
    set (tt := clamp ts 0 1).
    assert (Hgap : 0 <= D * ((t - tt) * (t + tt - 2 * ts))).
    { apply Rmult_le_pos; [lra|].
      unfold tt, clamp, Rmax, Rmin.
      destruct (Rle_dec 1 ts) as [H1|H1]; [|apply Rnot_le_lt in H1].
      - destruct (Rle_dec 0 1); [|lra].
        replace ((t - 1) * (t + 1 - 2 * ts))
          with ((1 - t) * (2 * ts - t - 1)) by ring.
        apply Rmult_le_pos; lra.
      - destruct (Rle_dec 0 ts) as [H0|H0]; [|apply Rnot_le_lt in H0].
        + replace ((t - ts) * (t + ts - 2 * ts)) with ((t - ts) * (t - ts)) by ring.
          apply Rle_0_sqr.
        + apply Rmult_le_pos; lra. }
    assert (Hgap' : 0 <= (t - tt) * (t + tt) * D - (t - tt) * 2 * (ts * D)).
    { replace ((t - tt) * (t + tt) * D - (t - tt) * 2 * (ts * D))
        with (D * ((t - tt) * (t + tt - 2 * ts))) by ring.
      exact Hgap. }
    rewrite Hts in Hgap'. unfold D in Hgap'. fold dx dy.
    assert (Heq : (x - (x1 + t * dx)) * (x - (x1 + t * dx))
                  + (y - (y1 + t * dy)) * (y - (y1 + t * dy))
                  = (x - (x1 + tt * dx)) * (x - (x1 + tt * dx))
                    + (y - (y1 + tt * dy)) * (y - (y1 + tt * dy))
                    + ((t - tt) * (t + tt) * (dx * dx + dy * dy)
                       - (t - tt) * 2 * ((x - x1) * dx + (y - y1) * dy)))
      by ring.
    lra.
Qed.

Lemma distToSeg_attained (x y x1 y1 x2 y2 : R) :
  exists t, 0 <= t <= 1 /\
    distToSeg x y x1 y1 x2 y2
    = hypot (x - (x1 + t * (x2 - x1))) (y - (y1 + t * (y2 - y1))).
Proof.
  unfold distToSeg.
  destruct (Reqb (x2 - x1) 0 && Reqb (y2 - y1) 0) eqn:E.
  - exists 0. split; [lra|]. f_equal; lra.
  - eexists. split; [|reflexivity]. apply clamp_bounds. lra.
Qed.



(** In exact arithmetic [segDist] is the least of the distances to the
    points of the segment. *)
Lemma segDist_within (wx wy tol : R) (seg : Point * Point) :
  segDist wx wy seg <= tol
  <-> exists t, 0 <= t <= 1 /\ pointDist wx wy seg t <= tol.
Proof.
  unfold segDist, pointDist. split.
  - intros H.
    destruct (distToSeg_attained wx wy (px (fst seg)) (py (fst seg))
                                 (px (snd seg)) (py (snd seg))) as (t & Ht & E).
    exists t. split; [exact Ht|]. now rewrite <- E.
  - intros (t & Ht & H).
    pose proof (distToSeg_least wx wy (px (fst seg)) (py (fst seg))
                                (px (snd seg)) (py (snd seg)) t Ht). lra.
Qed.


(* ================================================================= *)
(** ** Scale factors of the gestures *)

Lemma jsdiv_finite (a b : R) : b <> 0 -> jsdiv a b = Fin (a / b).
Proof. intros Hb. unfold jsdiv. apply Reqb_false in Hb. now rewrite Hb. Qed.

Lemma axisFactor_degenerate (v0 v1 : R) :
  Rabs v0 < 0.001 -> axisFactor v0 v1 = Fin 1.
Proof.
  intros H. unfold axisFactor. apply Rltb_true in H. now rewrite H.
Qed.

Lemma axisFactor_finite (v0 v1 : R) : exists f, axisFactor v0 v1 = Fin f.
Proof.
  unfold axisFactor. destruct (Rltb (Rabs v0) 0.001) eqn:E; [now exists 1|].
  apply Rltb_false in E. exists (v1 / v0). apply jsdiv_finite.
  intros ->. rewrite Rabs_R0 in E. lra.
Qed.

Lemma uniformFactor_finite (v0x v0y v1x v1y : R) :
  uniformFactor v0x v0y v1x v1y
  = Fin (num_or (hypot v1x v1y) 1 / num_or (hypot v0x v0y) 1).
Proof. unfold uniformFactor. apply jsdiv_finite, num_or_nonzero. lra. Qed.

Lemma scaleFactors_finite (v0x v0y v1x v1y : R) (shiftKey : bool) :
  exists fx fy, scaleFactors v0x v0y v1x v1y shiftKey = (Fin fx, Fin fy).
Proof.
  unfold scaleFactors. destruct shiftKey.
  - rewrite uniformFactor_finite. eauto.
  - destruct (axisFactor_finite v0x v1x) as [fx ->].
    destruct (axisFactor_finite v0y v1y) as [fy ->]. eauto.
Qed.

Lemma axisFactor_same (v : R) : axisFactor v v = Fin 1.
Proof.
  unfold axisFactor. destruct (Rltb (Rabs v) 0.001) eqn:E; [reflexivity|].
  apply Rltb_false in E.
  assert (Hv : v <> 0) by (intros ->; rewrite Rabs_R0 in E; lra).
  rewrite jsdiv_finite by exact Hv. f_equal. now field.
Qed.

Lemma scaleFactors_zero_drag (v0x v0y : R) (shiftKey : bool) :
  scaleFactors v0x v0y v0x v0y shiftKey = (Fin 1, Fin 1).
Proof.
  unfold scaleFactors. destruct shiftKey.
  - rewrite uniformFactor_finite.
    assert (H : num_or (hypot v0x v0y) 1 <> 0) by (apply num_or_nonzero; lra).
    replace (_ / _) with 1 by now field. reflexivity.
  - now rewrite !axisFactor_same.
Qed.

Lemma appliedFactor_bounds (f : Factor) : -20 <= appliedFactor f <= 20.
Proof. unfold appliedFactor. apply clamp_bounds. lra. Qed.

Lemma atan2_origin : atan2 0 0 = 0.
Proof.
  unfold atan2. assert (H : Rltb 0 0 = false) by (apply Rltb_false; lra).
  now rewrite !H.
Qed.

Lemma bgScale_total (bg0 : BgState) (start w : Point) :
  exists b, bgTransform MBgScale bg0 start w = Some b
            /\ 0.05 <= bg_scale b <= 10
            /\ bg_x b + bg_natW b / 2 = bg_x bg0 + bg_natW bg0 / 2
            /\ bg_y b + bg_natH b / 2 = bg_y bg0 + bg_natH bg0 / 2.
Proof.
  unfold bgTransform. rewrite uniformFactor_finite.
  eexists. split; [reflexivity|]. cbn [bg_scale bg_x bg_y bg_natW bg_natH].
  split; [apply clamp_bounds; lra|]. split; lra.
Qed.

(* ================================================================= *)
(** ** The selScale gesture works from its snapshot *)

Lemma setAt_lt (l : list Obj) (i : nat) (v : Obj) :
  (i < List.length l)%nat -> setAt l i v = Some (replaceAt l i v).
Proof.
  revert i. induction l as [|o l IH]; intros i Hi; [cbn in Hi; lia|].
  destruct i as [|i]; [reflexivity|].
  cbn in Hi. cbn [setAt]. rewrite IH by lia. reflexivity.
Qed.

Lemma replaceAt_length (l : list Obj) (i : nat) (v : Obj) :
  (i < List.length l)%nat -> List.length (replaceAt l i v) = List.length l.
Proof.
  intros Hi. unfold replaceAt.
  rewrite length_app, length_firstn. cbn [List.length]. rewrite length_skipn. lia.
Qed.

Lemma replaceAt_replaceAt (l : list Obj) (i : nat) (v v' : Obj) :
  (i < List.length l)%nat ->
  replaceAt (replaceAt l i v) i v' = replaceAt l i v'.
Proof.
  intros Hi. unfold replaceAt.
  assert (Hf : List.length (firstn i l) = i) by (rewrite length_firstn; lia).
  rewrite firstn_app, Hf, Nat.sub_diag. cbn [firstn].
  rewrite app_nil_r, firstn_firstn, Nat.min_id.
  f_equal. f_equal.
  change (S i) with (1 + i)%nat. rewrite <- !skipn_skipn.
  rewrite <- Hf at 1. rewrite skipn_app, skipn_all, Nat.sub_diag. reflexivity.
Qed.

Lemma replaceAt_same (l : list Obj) (i : nat) (v : Obj) :
  nth_error l i = Some v -> replaceAt l i v = l.
Proof.
  revert i. induction l as [|o l IH]; intros i H; [now destruct i|].
  destruct i as [|i]; cbn in H.
  - now inversion H.
  - unfold replaceAt in *. cbn. f_equal. now apply IH.
Qed.

Lemma replaceAt_nth (l : list Obj) (i : nat) (v : Obj) :
  (i < List.length l)%nat -> nth_error (replaceAt l i v) i = Some v.
Proof.
  intros Hi. unfold replaceAt.
  rewrite nth_error_app2; rewrite length_firstn; [|lia].
  replace (i - Nat.min i (List.length l))%nat with 0%nat by lia. reflexivity.
Qed.

Lemma selScaleObj_total (obj0 : Obj) (anchor start w : Point) (shiftKey : bool) :
  exists o, selScaleObj obj0 anchor start w shiftKey = Some o.
Proof.
  unfold selScaleObj. destruct (hasOwnRot obj0).
  - unfold selScaleOwnRot.
    match goal with
    | |- context [scaleFactors ?a ?b ?c ?d ?e] =>
        destruct (scaleFactors_finite a b c d e) as (fx & fy & ->)
    end.
    destruct obj0 as [| | |k ? ? ? ? ? ? ?]; [eauto..|]. destruct k; eauto.
  - match goal with
    | |- context [scaleFactors ?a ?b ?c ?d ?e] =>
        destruct (scaleFactors_finite a b c d e) as (fx & fy & ->)
    end.
    eauto.
Qed.

Lemma set_objects_twice (st : State) (a b : list Obj) :
  set_objects (set_objects st a) b = set_objects st b.
Proof. reflexivity. Qed.

(** One move: the object at the selected index is overwritten by the
    transform of the snapshot; the gesture record is left as it was. *)
Lemma selScale_move (st : State) (g : Gesture) (e : PointerEvent)
      (idx : nat) (obj0 : Obj) (anchor start : Point) :
  scaling g idx obj0 anchor start ->
  (idx < List.length (objects st))%nat ->
  exists o,
    selScaleObj obj0 anchor start (screenToWorld st (ev_sx e) (ev_sy e))
                (ev_shift e) = Some o
    /\ onPointerMove st g e
       = Some (set_objects st (replaceAt (objects st) idx o), g).
Proof.
  intros (Ha & Hm & Hi & Ho & Han & Hs) Hlt.
  destruct (selScaleObj_total obj0 anchor start
              (screenToWorld st (ev_sx e) (ev_sy e)) (ev_shift e)) as [o Ho'].
  exists o. split; [exact Ho'|].
  unfold onPointerMove. rewrite Ha, Hm, Hi, Ho, Han, Hs. cbn [negb].
  replace (0 <=? Z.of_nat idx)%Z with true by (symmetry; apply Z.leb_le; lia).
  rewrite Ho'. unfold writeObj. rewrite Nat2Z.id, setAt_lt by exact Hlt.
  reflexivity.
Qed.

(** C6 (as the code guards its factors).  The factors of a selScale move
    are finite numbers: every quotient has a divisor other than zero.
    Without Shift an axis whose start component is within 0.001 of zero
    gets the factor 1, and a drag of length zero gets the factor 1 on both
    axes, with or without Shift.  A selScale move never fails: it
    overwrites the selected object with the transform of the snapshot,
    which for an object without a rotation of its own is [scaleObjectXY]
    with those factors.  [scaleObjectXY] replaces a factor that is not
    finite by 1, clamps both factors to [-20, 20], and scales every
    coordinate about the anchor by the clamped factors.  A selRotate move
    never fails either, and the angle of a vector of length zero is 0.  A
    bgScale move never fails and leaves the background scale within
    [0.05, 10]. *)
Theorem scale_factors_guarded :
  (forall v0x v0y v1x v1y shiftKey,
      exists fx fy, scaleFactors v0x v0y v1x v1y shiftKey = (Fin fx, Fin fy))
  /\ (forall v0x v0y v1x v1y,
         Rabs v0x < 0.001 ->
         fst (scaleFactors v0x v0y v1x v1y false) = Fin 1)
  /\ (forall v0x v0y v1x v1y,
         Rabs v0y < 0.001 ->
         snd (scaleFactors v0x v0y v1x v1y false) = Fin 1)
  /\ (forall v0x v0y shiftKey,
         scaleFactors v0x v0y v0x v0y shiftKey = (Fin 1, Fin 1))
  /\ (forall (st : State) (g : Gesture) (e : PointerEvent) (idx : nat)
             (obj0 : Obj) (anchor start : Point),
         scaling g idx obj0 anchor start ->
         (idx < List.length (objects st))%nat ->
         let w := screenToWorld st (ev_sx e) (ev_sy e) in
         exists o,
           onPointerMove st g e
           = Some (set_objects st (replaceAt (objects st) idx o), g)
           /\ selScaleObj obj0 anchor start w (ev_shift e) = Some o
           /\ (hasOwnRot obj0 = false ->
               exists fx fy,
                 scaleFactors (px start - px anchor) (py start - py anchor)
                              (px w - px anchor) (py w - py anchor)
                              (ev_shift e)
                 = (Fin fx, Fin fy)
                 /\ o = scaleObjectXY obj0 (Fin fx) (Fin fy)
                                      (px anchor) (py anchor)))
  /\ (forall (o : Obj) (fx fy : Factor) (ax ay : R),
         let cx := appliedFactor fx in
         let cy := appliedFactor fy in
         -20 <= cx <= 20 /\ -20 <= cy <= 20
         /\ scaleObjectXY o fx fy ax ay
            = match o with
              | Text x y t c fs rot =>
                  Text (ax + (x - ax) * cx) (ay + (y - ay) * cy) t c
                       (Rmax 6 (fs * Rmax 0.2 ((Rabs cx + Rabs cy) / 2))) rot
              | Stroke c sz pts =>
                  Stroke c sz
                    (map (fun p => mkPoint (ax + (px p - ax) * cx)
                                           (ay + (py p - ay) * cy)) pts)
              | Erase sz pts =>
                  Erase sz
                    (map (fun p => mkPoint (ax + (px p - ax) * cx)
                                           (ay + (py p - ay) * cy)) pts)
              | Shape k c sz x1 y1 x2 y2 rot =>
                  Shape k c sz (ax + (x1 - ax) * cx) (ay + (y1 - ay) * cy)
                               (ax + (x2 - ax) * cx) (ay + (y2 - ay) * cy) rot
              end)
  /\ appliedFactor NonFinite = 1
  /\ (forall r, appliedFactor (Fin r) = Rmax (-20) (Rmin 20 r))
  /\ (forall r, -20 <= r <= 20 -> appliedFactor (Fin r) = r)
  /\ (forall (st : State) (g : Gesture) (e : PointerEvent) (idx : nat)
             (obj0 : Obj) (anchor : Point),
         g_active g = true -> g_mode g = MSelRotate ->
         g_selIndex g = Z.of_nat idx -> g_selStartObj g = Some obj0 ->
         g_selAnchor g = Some anchor ->
         (idx < List.length (objects st))%nat ->
         onPointerMove st g e
         = Some (set_objects st
                   (replaceAt (objects st) idx
                      (selRotateObj obj0 anchor (g_selStartAngle g)
                                    (screenToWorld st (ev_sx e) (ev_sy e))
                                    (ev_shift e))),
                 g))
  /\ atan2 0 0 = 0
  /\ (forall (st : State) (g : Gesture) (e : PointerEvent) (bg0 : BgState)
             (start : Point),
         g_active g = true -> g_mode g = MBgScale ->
         g_bgStart g = Some bg0 -> g_startWorld g = Some start ->
         exists b,
           onPointerMove st g e = Some (set_bg st b, g)
           /\ bgTransform MBgScale bg0 start
                          (screenToWorld st (ev_sx e) (ev_sy e)) = Some b
           /\ 0.05 <= bg_scale b <= 10).
Proof.
  split; [apply scaleFactors_finite|].
  split; [intros; cbn; now apply axisFactor_degenerate|].
  split; [intros; cbn; now apply axisFactor_degenerate|].
  split; [apply scaleFactors_zero_drag|].
  split.
  { intros st g e idx obj0 anchor start Hg Hidx w.
    destruct (selScale_move st g e idx obj0 anchor start Hg Hidx)
      as (o & Hsel & Hmove).
    exists o. split; [exact Hmove|]. split; [exact Hsel|].
    intros Hrot. fold w in Hsel. unfold selScaleObj in Hsel.
    rewrite Hrot in Hsel.
    destruct (scaleFactors_finite (px start - px anchor) (py start - py anchor)
                                  (px w - px anchor) (py w - py anchor)
                                  (ev_shift e)) as (fx & fy & Hf).
    rewrite Hf in Hsel. exists fx, fy. split; [exact Hf|].
    now inversion Hsel. }
  split.
  { intros o fx fy ax ay cx cy.
    split; [apply appliedFactor_bounds|]. split; [apply appliedFactor_bounds|].
    destruct o; reflexivity. }
  split; [unfold appliedFactor; cbn [finiteOr1]; rcompute|].
  split; [intros r; reflexivity|].
  split; [intros r Hr; unfold appliedFactor; cbn [finiteOr1]; rcompute|].
  split.
  { intros st g e idx obj0 anchor Ha Hm Hi Ho Han Hidx.
    unfold onPointerMove. rewrite Ha, Hm, Hi, Ho, Han. cbn [negb].
    replace (0 <=? Z.of_nat idx)%Z with true by (symmetry; apply Z.leb_le; lia).
    unfold writeObj. rewrite Nat2Z.id, setAt_lt by exact Hidx. reflexivity. }
  split; [apply atan2_origin|].
  intros st g e bg0 start Ha Hm Hb Hs.
  destruct (bgScale_total bg0 start (screenToWorld st (ev_sx e) (ev_sy e)))
    as (b & Hb' & Hsc & _).
  exists b. split; [|split; [exact Hb'|exact Hsc]].
  unfold onPointerMove. rewrite Ha, Hm, Hb, Hs. cbn [negb].
  now rewrite Hb'.
Qed.

(** Any number of moves followed by a last one: only the last one shows. *)
Lemma selScale_moves (st : State) (g : Gesture) (idx : nat) (obj0 : Obj)
      (anchor start : Point) (evs : list PointerEvent) (e : PointerEvent) :
  scaling g idx obj0 anchor start ->
  (idx < List.length (objects st))%nat ->
  exists o,
    selScaleObj obj0 anchor start (screenToWorld st (ev_sx e) (ev_sy e))
                (ev_shift e) = Some o
    /\ pointerMoves st g (evs ++ [e])
       = Some (set_objects st (replaceAt (objects st) idx o), g).
Proof.
  intros Hg Hlt.
  destruct (selScale_move st g e idx obj0 anchor start Hg Hlt) as (o & Ho & Hmv).
  exists o. split; [exact Ho|].
  assert (Hgen : forall objs,
             List.length objs = List.length (objects st) ->
             (forall v, replaceAt objs idx v = replaceAt (objects st) idx v) ->
             pointerMoves (set_objects st objs) g (evs ++ [e])
             = Some (set_objects st (replaceAt (objects st) idx o), g)).
  { induction evs as [|e1 evs IH]; intros objs Hlen Hrep.
    - cbn [app pointerMoves].
      destruct (selScale_move (set_objects st objs) g e idx obj0 anchor start Hg)
        as (o' & Ho'' & Hmv'); [cbn [objects set_objects]; lia|].
      change (screenToWorld (set_objects st objs)) with (screenToWorld st) in Ho''.
      rewrite Ho in Ho''. inversion Ho''; subst o'.
      rewrite Hmv'. cbn [objects set_objects]. rewrite set_objects_twice, Hrep.
      reflexivity.
    - cbn [app pointerMoves].
      destruct (selScale_move (set_objects st objs) g e1 idx obj0 anchor start Hg)
        as (o1 & _ & Hmv1); [cbn [objects set_objects]; lia|].
      rewrite Hmv1. cbn [objects set_objects]. rewrite set_objects_twice.
      apply IH.
      + rewrite replaceAt_length; lia.
      + intros v. rewrite replaceAt_replaceAt by lia. apply Hrep. }
  destruct st; apply (Hgen _ eq_refl (fun v => eq_refl)).
Qed.

(** C1. A selScale gesture started on the selected object, followed by any
    pointer moves and a last one: the object list is the one from before the
    gesture with the selected object replaced by the scale transform of its
    pre-gesture snapshot, computed once from the anchor, the start point and
    the last pointer position (and that event's Shift key); the moves in
    between leave no trace. *)
Theorem selScale_snapshot_purity (st : State) (g : Gesture) (w0 : Point)
        (st1 : State) (g1 : Gesture) (evs : list PointerEvent)
        (e : PointerEvent) :
  g_active g = true ->
  beginSelectionTransform HScale st g w0 = Some (st1, g1, true) ->
  exists idx obj0 o,
    selectionIndex st = Z.of_nat idx
    /\ nth_error (objects st) idx = Some obj0
    /\ selScaleObj obj0 (boundsCenter (objectBounds obj0)) w0
                   (screenToWorld st (ev_sx e) (ev_sy e)) (ev_shift e)
       = Some o
    /\ pointerMoves st1 g1 (evs ++ [e])
       = Some (set_objects st1 (replaceAt (objects st) idx o), g1).
Proof.
  intros Ha Hb. unfold beginSelectionTransform in Hb.
  destruct (selectionIndex st <? 0)%Z eqn:Hneg; [inversion Hb|].
  apply Z.ltb_ge in Hneg.
  change (objects (clearRedo (pushUndo st))) with (objects st) in Hb.
  destruct (nth_error (objects st) (Z.to_nat (selectionIndex st)))
    as [obj0|] eqn:Hnth; [|discriminate].
  inversion Hb as [[Hst Hg]]. clear Hb.
  set (idx := Z.to_nat (selectionIndex st)) in *.
  assert (Hlt : (idx < List.length (objects st))%nat).
  { apply nth_error_Some. congruence. }
  set (anchor := boundsCenter (objectBounds obj0)) in *.
  assert (Hsc : scaling g1 idx obj0 anchor w0).
  { subst g1. unfold scaling. cbn. repeat split; try reflexivity.
    - exact Ha.
    - unfold idx. now rewrite Z2Nat.id. }
  destruct (selScale_moves st1 g1 idx obj0 anchor w0 evs e Hsc)
    as (o & Ho & Hmv).
  { subst st1. exact Hlt. }
  exists idx, obj0, o. repeat split.
  - unfold idx. now rewrite Z2Nat.id.
  - exact Hnth.
  - subst st1. exact Ho.
  - subst st1 g1. exact Hmv.
Qed.

(** The same holds when the drag is started with the scale tool while an
    object is selected, which enters the same selScale mode. *)
Lemma selScale_tool_snapshot_purity (st : State) (g : Gesture) (w0 : Point)
      (st1 : State) (g1 : Gesture) (evs : list PointerEvent)
      (e : PointerEvent) :
  g_active g = true ->
  (0 <= selectionIndex st)%Z ->
  beginToolTransformForSelectionOrBg ToolBgScale st g w0 = Some (st1, g1, true) ->
  exists idx obj0 o,
    selectionIndex st = Z.of_nat idx
    /\ nth_error (objects st) idx = Some obj0
    /\ selScaleObj obj0 (boundsCenter (objectBounds obj0)) w0
                   (screenToWorld st (ev_sx e) (ev_sy e)) (ev_shift e)
       = Some o
    /\ pointerMoves st1 g1 (evs ++ [e])
       = Some (set_objects st1 (replaceAt (objects st) idx o), g1).
Proof.
  intros Ha Hsel Hb. unfold beginToolTransformForSelectionOrBg in Hb.
  apply Z.leb_le in Hsel. rewrite Hsel in Hb. apply Z.leb_le in Hsel.
  change (objects (clearRedo (pushUndo st))) with (objects st) in Hb.
  destruct (nth_error (objects st) (Z.to_nat (selectionIndex st)))
    as [obj0|] eqn:Hnth; [|discriminate].
  inversion Hb as [[Hst Hg]]. clear Hb.
  set (idx := Z.to_nat (selectionIndex st)) in *.
  assert (Hlt : (idx < List.length (objects st))%nat).
  { apply nth_error_Some. congruence. }
  set (anchor := boundsCenter (objectBounds obj0)) in *.
  assert (Hsc : scaling g1 idx obj0 anchor w0).
  { subst g1. unfold scaling. cbn. repeat split; try reflexivity.
    - exact Ha.
    - unfold idx. now rewrite Z2Nat.id. }
  destruct (selScale_moves st1 g1 idx obj0 anchor w0 evs e Hsc)
    as (o & Ho & Hmv).
  { subst st1. exact Hlt. }
  exists idx, obj0, o. repeat split.
  - unfold idx. now rewrite Z2Nat.id.
  - exact Hnth.
  - subst st1. exact Ho.
  - subst st1 g1. exact Hmv.
Qed.


(* ================================================================= *)
(** ** Erase masks in the vector export *)

Lemma sapp_assoc (a b c : string) : ((a ++ b) ++ c = a ++ (b ++ c))%string.
Proof. induction a as [|ch a IH]; cbn; [reflexivity|now rewrite IH]. Qed.

Lemma sapp_nil_r (a : string) : (a ++ "" = a)%string.
Proof. induction a as [|ch a IH]; cbn; [reflexivity|now rewrite IH]. Qed.

Lemma sapp_nonempty_l (a b : string) : a <> EmptyString -> (a ++ b)%string <> EmptyString.
Proof. destruct a; [congruence|discriminate]. Qed.

Lemma path_fold_nonempty (pts : list Point) (d : string) :
  d <> EmptyString ->
  fold_left (fun d p => (d ++ " L " ++ toFixed (px p) 2 ++ " "
                         ++ toFixed (py p) 2)%string) pts d
  <> EmptyString.
Proof.
  revert d. induction pts as [|p pts IH]; intros d Hd; [exact Hd|].
  cbn [fold_left]. apply IH. now apply sapp_nonempty_l.
Qed.

Lemma pathFromPoints_nonempty (pts : list Point) :
  (2 <= List.length pts)%nat -> pathFromPoints pts <> EmptyString.
Proof.
  destruct pts as [|p0 [|p1 pts]]; cbn [List.length]; try lia. intros _.
  unfold pathFromPoints. apply path_fold_nonempty. discriminate.
Qed.

Lemma pathFromPoints_short (pts : list Point) :
  (List.length pts < 2)%nat -> pathFromPoints pts = EmptyString.
Proof. destruct pts as [|p0 [|p1 pts]]; cbn [List.length]; try lia; reflexivity. Qed.

(** The path text: [M] and the first point, then one [L] for every further
    point, in order. *)
Lemma pathFromPoints_points (p0 p1 : Point) (rest : list Point) :
  pathFromPoints (p0 :: p1 :: rest)
  = (("M " ++ toFixed (px p0) 2 ++ " " ++ toFixed (py p0) 2)
     ++ String.concat ""
          (map (fun p => " L " ++ toFixed (px p) 2 ++ " " ++ toFixed (py p) 2)
               (p1 :: rest)))%string.
Proof.
  unfold pathFromPoints.
  generalize ("M " ++ toFixed (px p0) 2 ++ " " ++ toFixed (py p0) 2)%string.
  generalize (p1 :: rest) as l.
  induction l as [|p l IH]; intros d.
  - cbn. now rewrite sapp_nil_r.
  - cbn [fold_left map]. rewrite IH.
    destruct l as [|q l'].
    + cbn. now rewrite !sapp_nil_r.
    + cbn [map String.concat]. now rewrite !sapp_assoc.
Qed.

(** The loop, told by what each object does to the accumulators. *)
Lemma exportStep_erases (acc : ExportAcc) (sz : R) (pts : list Point) :
  erases (Erase sz pts) = true ->
  exportStep acc (Erase sz pts)
  = mkAcc (defs acc ++ maskDef (maskId (S (maskCount acc))) (pathFromPoints pts)
                               (Rmax 1 (num_or sz 20)))
          (maskGroup (maskId (S (maskCount acc))) (inkOf acc))
          "" (S (maskCount acc)).
Proof.
  cbn [erases exportStep]. destruct (pathFromPoints pts); [discriminate|].
  reflexivity.
Qed.

Lemma exportLoop_shape (objs : list Obj) (acc : ExportAcc) :
  inkOf (exportLoop acc objs)
  = (laterOpens (maskCount acc) objs ++ inkOf acc
     ++ laterRest (maskCount acc) objs)%string
  /\ defs (exportLoop acc objs)
     = (defs acc ++ laterDefs (maskCount acc) objs)%string.
Proof.
  revert acc. induction objs as [|o objs IH]; intros acc.
  - cbn. now rewrite !sapp_nil_r.
  - unfold exportLoop in *. cbn [fold_left].
    destruct (IH (exportStep acc o)) as [IHi IHd]. rewrite IHi, IHd. clear IHi IHd IH.
    destruct o as [c sz pts|sz pts|x y t c fs rot|k c sz x1 y1 x2 y2 rot].
    + cbn [exportStep laterOpens laterRest laterDefs erases].
      destruct (objectMarkup (Stroke c sz pts)) as [m|].
      * cbn [maskCount defs]. split; [|reflexivity]. unfold inkOf.
        cbn [pastLayer currentLayer]. now rewrite !sapp_assoc.
      * split; reflexivity.
    + cbn [exportStep laterOpens laterRest laterDefs erases].
      destruct (pathFromPoints pts) as [|ch d] eqn:Ed.
      * split; reflexivity.
      * unfold wrapWithEraseMask. cbn [maskCount defs]. split.
        -- unfold inkOf at 1. cbn [pastLayer currentLayer]. unfold maskGroup.
           fold (inkOf acc). now rewrite sapp_nil_r, !sapp_assoc.
        -- now rewrite sapp_assoc.
    + cbn [exportStep laterOpens laterRest laterDefs erases].
      destruct (objectMarkup (Text x y t c fs rot)) as [m|].
      * cbn [maskCount defs]. split; [|reflexivity]. unfold inkOf.
        cbn [pastLayer currentLayer]. now rewrite !sapp_assoc.
      * split; reflexivity.
    + cbn [exportStep laterOpens laterRest laterDefs erases].
      destruct (objectMarkup (Shape k c sz x1 y1 x2 y2 rot)) as [m|].
      * cbn [maskCount defs]. split; [|reflexivity]. unfold inkOf.
        cbn [pastLayer currentLayer]. now rewrite !sapp_assoc.
      * split; reflexivity.
Qed.

Lemma exportLoop_app (a b : list Obj) (acc : ExportAcc) :
  exportLoop acc (a ++ b) = exportLoop (exportLoop acc a) b.
Proof. apply fold_left_app. Qed.

(** C3 (as the export guards it). In the export of
    [pre ++ Erase sz pts :: post], an eraser stroke of two points or more
    has a path ([M] and the first point, then one [L] for every further
    point) and gets the next mask; its mask definition draws the stroke's
    path with the width [max(1, size || 20)]; the group it masks
    holds exactly the ink markup of [pre] (earlier mask groups included);
    and what [post] contributes lies outside that group: opening tags of
    later groups in front of it, their closing tags and the markup of
    [post] behind it.  An eraser stroke of fewer than two points has no
    path and is passed over: the export is that of [pre ++ post]. *)
Theorem erase_masks_what_precedes (pre post : list Obj) (sz : R)
        (pts : list Point) :
  ((2 <= List.length pts)%nat ->
   let n := S (maskCount (exportLoop exportInit pre)) in
   inkMarkup (pre ++ Erase sz pts :: post)
   = (laterOpens n post
      ++ maskGroup (maskId n) (inkMarkup pre)
      ++ laterRest n post)%string
   /\ exportDefs (pre ++ Erase sz pts :: post)
      = (exportDefs pre
         ++ maskDef (maskId n) (pathFromPoints pts) (Rmax 1 (num_or sz 20))
         ++ laterDefs n post)%string
   /\ pathFromPoints pts <> EmptyString
   /\ exists p0 p1 rest,
       pts = p0 :: p1 :: rest
       /\ pathFromPoints pts
          = (("M " ++ toFixed (px p0) 2 ++ " " ++ toFixed (py p0) 2)
             ++ String.concat ""
                  (map (fun p => " L " ++ toFixed (px p) 2 ++ " "
                                  ++ toFixed (py p) 2)
                       (p1 :: rest)))%string)
  /\ ((List.length pts < 2)%nat ->
      pathFromPoints pts = EmptyString
      /\ inkMarkup (pre ++ Erase sz pts :: post) = inkMarkup (pre ++ post)
      /\ exportDefs (pre ++ Erase sz pts :: post) = exportDefs (pre ++ post)
      /\ maskCount (exportLoop exportInit (pre ++ Erase sz pts :: post))
         = maskCount (exportLoop exportInit (pre ++ post))).
Proof.
  split.
  - intros Hpts n.
    assert (Hd : pathFromPoints pts <> EmptyString)
      by now apply pathFromPoints_nonempty.
    assert (He : erases (Erase sz pts) = true).
    { cbn [erases]. destruct (pathFromPoints pts); congruence. }
    unfold inkMarkup, exportDefs.
    rewrite exportLoop_app.
    change (exportLoop (exportLoop exportInit pre) (Erase sz pts :: post))
      with (exportLoop (exportStep (exportLoop exportInit pre) (Erase sz pts)) post).
    rewrite (exportStep_erases _ sz pts He).
    match goal with
    | |- context [exportLoop ?a post] =>
        destruct (exportLoop_shape post a) as [Hi Hdf]; rewrite Hi, Hdf
    end.
    cbn [maskCount defs]. fold n. unfold inkOf at 1. cbn [pastLayer currentLayer].
    rewrite sapp_nil_r, sapp_assoc.
    split; [reflexivity|]. split; [reflexivity|]. split; [exact Hd|].
    destruct pts as [|p0 [|p1 rest]]; cbn in Hpts; try lia.
    exists p0, p1, rest. split; [reflexivity|]. apply pathFromPoints_points.
  - intros Hpts.
    assert (Hd : pathFromPoints pts = EmptyString)
      by now apply pathFromPoints_short.
    assert (Hloop : exportLoop exportInit (pre ++ Erase sz pts :: post)
                    = exportLoop exportInit (pre ++ post)).
    { rewrite !exportLoop_app.
      change (exportLoop (exportLoop exportInit pre) (Erase sz pts :: post))
        with (exportLoop (exportStep (exportLoop exportInit pre) (Erase sz pts))
                         post).
      cbn [exportStep]. now rewrite Hd. }
    unfold inkMarkup, exportDefs. rewrite Hloop. repeat split. exact Hd.
Qed.

(* ================================================================= *)
(** ** Angle snapping *)

Lemma atan2_right (y x : R) : 0 < x -> atan2 y x = atan (y / x).
Proof. intros H. unfold atan2. apply Rltb_true in H. now rewrite H. Qed.

Lemma atan2_upper_left (y x : R) : x < 0 -> 0 <= y -> atan2 y x = atan (y / x) + PI.
Proof.
  intros Hx Hy. unfold atan2.
  assert (H1 : Rltb 0 x = false) by (apply Rltb_false; lra).
  apply Rltb_true in Hx. apply Rleb_true in Hy. now rewrite H1, Hx, Hy.
Qed.

Lemma atan2_lower_left (y x : R) : x < 0 -> y < 0 -> atan2 y x = atan (y / x) - PI.
Proof.
  intros Hx Hy. unfold atan2.
  assert (H1 : Rltb 0 x = false) by (apply Rltb_false; lra).
  apply Rltb_true in Hx. apply Rleb_false in Hy. now rewrite H1, Hx, Hy.
Qed.

Lemma atan2_up (y : R) : 0 < y -> atan2 y 0 = PI / 2.
Proof.
  intros Hy. unfold atan2.
  assert (H1 : Rltb 0 0 = false) by (apply Rltb_false; lra).
  apply Rltb_true in Hy. now rewrite !H1, Hy.
Qed.

Lemma atan2_down (y : R) : y < 0 -> atan2 y 0 = - (PI / 2).
Proof.
  intros Hy. unfold atan2.
  assert (H1 : Rltb 0 0 = false) by (apply Rltb_false; lra).
  assert (H2 : Rltb 0 y = false) by (apply Rltb_false; lra).
  apply Rltb_true in Hy. now rewrite !H1, H2, Hy.
Qed.

(** The angle of the point at distance [L] in direction [t]. *)
Lemma atan2_polar (L t : R) :
  0 < L -> - PI < t <= PI -> atan2 (L * sin t) (L * cos t) = t.
Proof.
  intros HL [Hlo Hhi]. pose proof PI_RGT_0 as Hpi.
  destruct (Rtotal_order t (- (PI / 2))) as [H1|[H1|H1]].
  - (* third quadrant *)
    assert (Hc : cos t < 0).
    { rewrite <- cos_neg. apply cos_lt_0; lra. }
    assert (Hs : sin t < 0) by (apply sin_lt_0_var; lra).
    rewrite atan2_lower_left by nra.
    replace (L * sin t / (L * cos t)) with (tan (t + PI)).
    + rewrite atan_tan by lra. lra.
    + unfold tan. rewrite neg_sin, neg_cos. field. split; lra.
  - subst t. rewrite cos_neg, sin_neg, cos_PI2, sin_PI2.
    rewrite Rmult_0_r. apply atan2_down. lra.
  - destruct (Rtotal_order t (PI / 2)) as [H2|[H2|H2]].
    + assert (Hc : 0 < cos t) by (apply cos_gt_0; lra).
      rewrite atan2_right by nra.
      replace (L * sin t / (L * cos t)) with (tan t).
      * apply atan_tan. lra.
      * unfold tan. field. split; lra.
    + subst t. rewrite cos_PI2, sin_PI2, Rmult_0_r. apply atan2_up. lra.
    + assert (Hc : cos t < 0) by (apply cos_lt_0; lra).
      assert (Hs : 0 <= sin t) by (apply sin_ge_0; lra).
      rewrite atan2_upper_left by nra.
      replace (L * sin t / (L * cos t)) with (tan (t - PI)).
      * rewrite atan_tan by lra. lra.
      * unfold tan.
        replace (sin t) with (- sin (t - PI))
          by (rewrite <- neg_sin; f_equal; lra).
        replace (cos t) with (- cos (t - PI))
          by (rewrite <- neg_cos; f_equal; lra).
        assert (cos (t - PI) <> 0).
        { intros E. replace (cos t) with (- cos (t - PI)) in Hc
            by (rewrite <- neg_cos; f_equal; lra). lra. }
        field. split; lra.
Qed.

Lemma atan2_sin_cos (t : R) : - PI < t <= PI -> atan2 (sin t) (cos t) = t.
Proof.
  intros H. rewrite <- (Rmult_1_l (sin t)), <- (Rmult_1_l (cos t)).
  apply atan2_polar; lra.
Qed.

Lemma angDiff_near (a s : R) : - PI < a - s <= PI -> angDiff a s = Rabs (a - s).
Proof. intros H. unfold angDiff. now rewrite atan2_sin_cos. Qed.

Lemma angDiff_above (a s : R) :
  PI < a - s <= 3 * PI -> angDiff a s = Rabs (a - s - 2 * PI).
Proof.
  intros H. unfold angDiff.
  assert (Hs : sin (a - s) = sin (a - s - 2 * PI)).
  { rewrite <- (sin_period (a - s - 2 * PI) 1). f_equal. simpl. lra. }
  assert (Hc : cos (a - s) = cos (a - s - 2 * PI)).
  { rewrite <- (cos_period (a - s - 2 * PI) 1). f_equal. simpl. lra. }
  rewrite Hs, Hc, atan2_sin_cos; [reflexivity|lra].
Qed.

Lemma angDiff_below (a s : R) :
  - 3 * PI < a - s <= - PI -> angDiff a s = Rabs (a - s + 2 * PI).
Proof.
  intros H. unfold angDiff.
  assert (Hs : sin (a - s) = sin (a - s + 2 * PI)).
  { rewrite <- (sin_period (a - s) 1). f_equal. simpl. lra. }
  assert (Hc : cos (a - s) = cos (a - s + 2 * PI)).
  { rewrite <- (cos_period (a - s) 1). f_equal. simpl. lra. }
  rewrite Hs, Hc, atan2_sin_cos; [reflexivity|lra].
Qed.

Lemma snapStep_inv (a : R) (seen : list R) (acc : R * option R) (s : R) :
  snapInv a seen acc -> snapInv a (seen ++ [s]) (snapStep a acc s).
Proof.
  unfold snapInv, snapStep. destruct acc as [b [bd|]]; cbn [fst snd].
  - intros (Hbd & Hin & Hmin).
    destruct (Rltb (angDiff a s) bd) eqn:E; cbn [fst snd].
    + apply Rltb_true in E. split; [reflexivity|]. split.
      * apply in_or_app. right. now left.
      * intros s' Hs'. apply in_app_or in Hs'. destruct Hs' as [Hs'|[<-|[]]].
        -- specialize (Hmin s' Hs'). lra.
        -- lra.
    + apply Rltb_false in E. split; [exact Hbd|]. split.
      * apply in_or_app. now left.
      * intros s' Hs'. apply in_app_or in Hs'. destruct Hs' as [Hs'|[<-|[]]].
        -- now apply Hmin.
        -- exact E.
  - intros ->. cbn. split; [reflexivity|]. split; [now left|].
    intros s' [<-|[]]. lra.
Qed.

Lemma snapFold_inv (a : R) (l seen : list R) (acc : R * option R) :
  snapInv a seen acc -> snapInv a (seen ++ l) (fold_left (snapStep a) l acc).
Proof.
  revert seen acc. induction l as [|s l IH]; intros seen acc H.
  - now rewrite app_nil_r.
  - cbn [fold_left]. replace (seen ++ s :: l) with ((seen ++ [s]) ++ l)
      by (now rewrite <- app_assoc).
    apply IH. now apply snapStep_inv.
Qed.

(** [snapAngleRad] returns a candidate at the least distance from the
    normalised angle. *)
Lemma snapAngleRad_nearest (angleRad : R) :
  let a := atan2 (sin angleRad) (cos angleRad) in
  In (snapAngleRad angleRad) snaps
  /\ forall s, In s snaps -> angDiff a (snapAngleRad angleRad) <= angDiff a s.
Proof.
  intros a. unfold snapAngleRad. fold a.
  pose proof (snapFold_inv a snaps [] (hd 0 snaps, None) eq_refl) as H.
  rewrite app_nil_l in H. unfold snapInv in H.
  destruct (fold_left (snapStep a) snaps (hd 0 snaps, None)) as [b [bd|]];
    cbn [fst snd] in *.
  - destruct H as (Hbd & Hin & Hmin). split; [exact Hin|].
    intros s Hs. rewrite <- Hbd. now apply Hmin.
  - discriminate.
Qed.

(** A candidate strictly nearer than every other one is the one returned. *)
Lemma snapAngleRad_unique (angleRad s0 : R) :
  let a := atan2 (sin angleRad) (cos angleRad) in
  In s0 snaps ->
  (forall s, In s snaps -> s <> s0 -> angDiff a s0 < angDiff a s) ->
  snapAngleRad angleRad = s0.
Proof.
  intros a Hin Hstrict.
  destruct (snapAngleRad_nearest angleRad) as [Hr Hmin]. fold a in Hmin.
  destruct (Req_dec_T (snapAngleRad angleRad) s0) as [E|E]; [exact E|].
  specialize (Hstrict _ Hr E). specialize (Hmin _ Hin). lra.
Qed.

Lemma snaps_cases (s : R) :
  In s snaps ->
  exists d, s = d * PI / 180 /\ In d snapsDeg.
Proof.
  unfold snaps. intros H. apply in_map_iff in H. destruct H as (d & <- & Hd).
  now exists d.
Qed.

Ltac angdiff_eval :=
  match goal with
  | |- context [angDiff ?a ?s] =>
      first [ rewrite (angDiff_near a s) by lra
            | rewrite (angDiff_above a s) by lra
            | rewrite (angDiff_below a s) by lra ]
  end.

Lemma snap_44 : snapAngleRad (44 * PI / 180) = 45 * PI / 180.
Proof.
  pose proof PI_RGT_0 as Hpi.
  apply snapAngleRad_unique.
  - unfold snaps, snapsDeg. cbn [map]. right. right. now left.
  - rewrite atan2_sin_cos by lra.
    intros s Hs Hne. apply snaps_cases in Hs. destruct Hs as (d & -> & Hd).
    unfold snapsDeg in Hd. cbn [In] in Hd.
    repeat (destruct Hd as [<-|Hd]); try contradiction;
      try (exfalso; apply Hne; reflexivity);
      repeat angdiff_eval; unfold Rabs;
      repeat match goal with
        | |- context [Rcase_abs ?x] => destruct (Rcase_abs x)
        end; lra.
Qed.

Lemma snap_91 : snapAngleRad (91 * PI / 180) = 90 * PI / 180.
Proof.
  pose proof PI_RGT_0 as Hpi.
  apply snapAngleRad_unique.
  - unfold snaps, snapsDeg. cbn [map]. do 4 right. now left.
  - rewrite atan2_sin_cos by lra.
    intros s Hs Hne. apply snaps_cases in Hs. destruct Hs as (d & -> & Hd).
    unfold snapsDeg in Hd. cbn [In] in Hd.
    repeat (destruct Hd as [<-|Hd]); try contradiction;
      try (exfalso; apply Hne; reflexivity);
      repeat angdiff_eval; unfold Rabs;
      repeat match goal with
        | |- context [Rcase_abs ?x] => destruct (Rcase_abs x)
        end; lra.
Qed.

Lemma hypot_polar (L t : R) : 0 <= L -> hypot (L * cos t) (L * sin t) = L.
Proof.
  intros HL. unfold hypot.
  replace (L * cos t * (L * cos t) + L * sin t * (L * sin t))
    with (L * L * (Rsqr (sin t) + Rsqr (cos t))) by (unfold Rsqr; ring).
  rewrite sin2_cos2, Rmult_1_r. now apply sqrt_square.
Qed.

Lemma hypot_polar' (L t : R) : 0 <= L -> hypot (cos t * L) (sin t * L) = L.
Proof.
  intros HL. rewrite (Rmult_comm (cos t)), (Rmult_comm (sin t)).
  now apply hypot_polar.
Qed.

(** In exact arithmetic: snapping the end point that lies at distance [L]
    in direction [t]. *)
Lemma snapEndpoint_polar (x1 y1 L t : R) :
  0.0001 <= L -> - PI < t <= PI ->
  snapEndpointToAngles x1 y1 (x1 + L * cos t) (y1 + L * sin t)
  = mkPoint (x1 + cos (snapAngleRad t) * L) (y1 + sin (snapAngleRad t) * L).
Proof.
  intros HL Ht. unfold snapEndpointToAngles.
  replace (x1 + L * cos t - x1) with (L * cos t) by ring.
  replace (y1 + L * sin t - y1) with (L * sin t) by ring.
  rewrite hypot_polar by lra.
  assert (H : Rltb L 0.0001 = false) by (apply Rltb_false; lra).
  rewrite H, atan2_polar by lra. reflexivity.
Qed.

(** The sines and cosines of the candidate angles, as far as needed to tell
    them from other directions. *)
Lemma snaps_trig (s : R) :
  In s snaps ->
  sin s = 0 \/ cos s = 0 \/ sin s = 1 / 2 \/ sin s = - (1 / 2)
  \/ cos s = 1 / 2 \/ cos s = - (1 / 2) \/ cos s = sin s \/ cos s = - sin s.
Proof.
  intros Hs. apply snaps_cases in Hs. destruct Hs as (d & -> & Hd).
  unfold snapsDeg in Hd. cbn [In] in Hd.
  assert (H45 : cos (PI / 4) = sin (PI / 4)) by (now rewrite cos_PI4, sin_PI4).
  assert (H135 : cos (3 * (PI / 4)) = - sin (3 * (PI / 4))).
  { rewrite cos_3PI4, sin_3PI4. unfold Rdiv. ring. }
  assert (H150 : sin (5 * (PI / 6)) = 1 / 2).
  { replace (5 * (PI / 6)) with (PI - PI / 6) by lra.
    rewrite sin_PI_x. apply sin_PI6. }
  repeat (destruct Hd as [<-|Hd]); try contradiction.
  - left. replace (0 * PI / 180) with 0 by lra. apply sin_0.
  - right; right; left. replace (30 * PI / 180) with (PI / 6) by lra. apply sin_PI6.
  - do 6 right. left. replace (45 * PI / 180) with (PI / 4) by lra. exact H45.
  - do 4 right. left. replace (60 * PI / 180) with (PI / 3) by lra. apply cos_PI3.
  - right; left. replace (90 * PI / 180) with (PI / 2) by lra. apply cos_PI2.
  - do 5 right. left. replace (120 * PI / 180) with (2 * (PI / 3)) by lra.
    rewrite cos_2PI3. lra.
  - do 7 right. replace (135 * PI / 180) with (3 * (PI / 4)) by lra. exact H135.
  - right; right; left. replace (150 * PI / 180) with (5 * (PI / 6)) by lra. exact H150.
  - do 3 right. left. replace (-30 * PI / 180) with (- (PI / 6)) by lra.
    rewrite sin_neg, sin_PI6. reflexivity.
  - do 7 right. replace (-45 * PI / 180) with (- (PI / 4)) by lra.
    rewrite sin_neg, cos_neg, H45. lra.
  - do 4 right. left. replace (-60 * PI / 180) with (- (PI / 3)) by lra.
    rewrite cos_neg. apply cos_PI3.
  - right; left. replace (-90 * PI / 180) with (- (PI / 2)) by lra.
    rewrite cos_neg. apply cos_PI2.
  - do 5 right. left. replace (-120 * PI / 180) with (- (2 * (PI / 3))) by lra.
    rewrite cos_neg, cos_2PI3. lra.
  - do 6 right. left. replace (-135 * PI / 180) with (- (3 * (PI / 4))) by lra.
    rewrite sin_neg, cos_neg, H135. reflexivity.
  - do 3 right. left. replace (-150 * PI / 180) with (- (5 * (PI / 6))) by lra.
    rewrite sin_neg, H150. reflexivity.
  - left. replace (180 * PI / 180) with PI by lra. apply sin_PI.
Qed.

Lemma hypot_345 : hypot (0.00004 - 0) (0.00003 - 0) = 0.00005.
Proof.
  unfold hypot.
  replace ((0.00004 - 0) * (0.00004 - 0) + (0.00003 - 0) * (0.00003 - 0))
    with (0.00005 * 0.00005) by lra.
  apply sqrt_square. lra.
Qed.

Lemma short_segment_not_snapped :
  hypot (0.00004 - 0) (0.00003 - 0) <> 0
  /\ snapEndpointToAngles 0 0 0.00004 0.00003 = mkPoint 0.00004 0.00003
  /\ ~ exists s, In s snaps
        /\ snapEndpointToAngles 0 0 0.00004 0.00003
           = mkPoint (0 + cos s * hypot (0.00004 - 0) (0.00003 - 0))
                     (0 + sin s * hypot (0.00004 - 0) (0.00003 - 0)).
Proof.
  assert (Hs : snapEndpointToAngles 0 0 0.00004 0.00003 = mkPoint 0.00004 0.00003).
  { unfold snapEndpointToAngles. rewrite hypot_345.
    assert (H : Rltb 0.00005 0.0001 = true) by (apply Rltb_true; lra).
    now rewrite H. }
  split; [rewrite hypot_345; lra|]. split; [exact Hs|].
  intros (s & Hin & Heq). rewrite Hs, hypot_345 in Heq.
  inversion Heq as [[Hx Hy]].
  destruct (snaps_trig s Hin) as [H|[H|[H|[H|[H|[H|[H|H]]]]]]];
    rewrite ?H in *; lra.
Qed.

Lemma atan_nonpos (x : R) : x <= 0 -> atan x <= 0.
Proof.
  intros [H|H].
  - left. rewrite <- atan_0. now apply atan_increasing.
  - subst. rewrite atan_0. lra.
Qed.

Lemma atan_pos (x : R) : 0 < x -> 0 < atan x.
Proof. intros H. rewrite <- atan_0. now apply atan_increasing. Qed.

Lemma atan2_range (y x : R) : - PI < atan2 y x <= PI.
Proof.
  pose proof PI_RGT_0 as Hpi. pose proof (atan_bound (y / x)) as Hb.
  unfold atan2.
  destruct (Rltb 0 x) eqn:E1; [lra|]. apply Rltb_false in E1.
  destruct (Rltb x 0) eqn:E2.
  - apply Rltb_true in E2. destruct (Rleb 0 y) eqn:E3.
    + apply Rleb_true in E3.
      assert (atan (y / x) <= 0).
      { apply atan_nonpos. unfold Rdiv.
        assert (/ x < 0) by now apply Rinv_lt_0_compat. nra. }
      lra.
    + apply Rleb_false in E3.
      assert (0 < atan (y / x)).
      { apply atan_pos. unfold Rdiv.
        assert (/ x < 0) by now apply Rinv_lt_0_compat. nra. }
      lra.
  - destruct (Rltb 0 y); [lra|]. destruct (Rltb y 0); lra.
Qed.

Lemma atan2_normal (y x : R) :
  atan2 (sin (atan2 y x)) (cos (atan2 y x)) = atan2 y x.
Proof. apply atan2_sin_cos, atan2_range. Qed.

(** In exact arithmetic a segment of length at least 0.0001 keeps its
    length under [snapEndpointToAngles] and takes the candidate direction
    nearest to its own. *)
Lemma snapEndpoint_nearest (x1 y1 x2 y2 : R) :
  let len := hypot (x2 - x1) (y2 - y1) in
  let ang := atan2 (y2 - y1) (x2 - x1) in
  0.0001 <= len ->
  exists s,
    In s snaps
    /\ (forall s', In s' snaps -> angDiff ang s <= angDiff ang s')
    /\ snapEndpointToAngles x1 y1 x2 y2
       = mkPoint (x1 + cos s * len) (y1 + sin s * len)
    /\ hypot (x1 + cos s * len - x1) (y1 + sin s * len - y1) = len.
Proof.
  intros len ang Hlen. exists (snapAngleRad ang).
  destruct (snapAngleRad_nearest ang) as [Hin Hmin].
  assert (Hn : atan2 (sin ang) (cos ang) = ang) by apply atan2_normal.
  cbv zeta in Hmin. rewrite Hn in Hmin.
  split; [exact Hin|]. split; [exact Hmin|]. split.
  - unfold snapEndpointToAngles. fold len ang.
    assert (H : Rltb len 0.0001 = false) by (apply Rltb_false; lra).
    now rewrite H.
  - replace (x1 + cos (snapAngleRad ang) * len - x1)
      with (cos (snapAngleRad ang) * len) by ring.
    replace (y1 + sin (snapAngleRad ang) * len - y1)
      with (sin (snapAngleRad ang) * len) by ring.
    apply hypot_polar'. lra.
Qed.

(** C8 (as the code snaps).  While a line or an arrow is being drawn with
    Ctrl or Cmd held, a pointer move over a raw segment of length [len] at
    least 0.0001 stores the end point [start + len * (cos s, sin s)], where
    [s] is what [snapAngleRad] returns for the raw direction: an angle of
    the candidate set at the least angular distance, as the code measures
    it, from the raw direction normalised to (-pi, pi].  A raw segment
    shorter than 0.0001 is stored as dragged.  [snapAngleRad] takes 44
    degrees to 45 degrees and 91 degrees to 90. *)
Theorem angle_snap :
  (forall (st : State) (g : Gesture) (e : PointerEvent) (i : nat)
          (k : ShapeKind) (col : string) (sz x1 y1 x2 y2 rot : R),
      g_active g = true -> g_mode g = MDrawShape -> g_activeObj g = Some i ->
      nth_error (objects st) i = Some (Shape k col sz x1 y1 x2 y2 rot) ->
      k = Line \/ k = Arrow ->
      ev_ctrl e || ev_meta e = true ->
      let w := screenToWorld st (ev_sx e) (ev_sy e) in
      let len := hypot (px w - x1) (py w - y1) in
      let ang := atan2 (py w - y1) (px w - x1) in
      let a := atan2 (sin ang) (cos ang) in
      (0.0001 <= len ->
       exists s,
         s = snapAngleRad ang
         /\ In s snaps
         /\ (forall s', In s' snaps -> angDiff a s <= angDiff a s')
         /\ onPointerMove st g e
            = Some (set_objects st
                      (replaceAt (objects st) i
                         (Shape k col sz x1 y1
                                (x1 + cos s * len) (y1 + sin s * len) rot)),
                    g))
      /\ (len < 0.0001 ->
          onPointerMove st g e
          = Some (set_objects st
                    (replaceAt (objects st) i
                       (Shape k col sz x1 y1 (px w) (py w) rot)),
                  g)))
  /\ snapAngleRad (44 * PI / 180) = 45 * PI / 180
  /\ snapAngleRad (91 * PI / 180) = 90 * PI / 180.
Proof.
  split; [|split; [exact snap_44|exact snap_91]].
  intros st g e i k col sz x1 y1 x2 y2 rot Ha Hm Hact Hnth Hk Hsnap w len ang a.
  assert (Hlt : (i < List.length (objects st))%nat).
  { apply nth_error_Some. congruence. }
  assert (Hmove : onPointerMove st g e
                  = Some (set_objects st
                            (replaceAt (objects st) i
                               (Shape k col sz x1 y1
                                  (px (snapEndpointToAngles x1 y1 (px w) (py w)))
                                  (py (snapEndpointToAngles x1 y1 (px w) (py w)))
                                  rot)),
                          g)).
  { unfold onPointerMove. rewrite Ha, Hm, Hact, Hnth. cbn [negb].
    rewrite Hsnap. fold w.
    replace (match k with Line | Arrow => true | _ => false end) with true
      by (destruct Hk as [-> | ->]; reflexivity).
    cbn [andb]. unfold writeObj.
    rewrite Nat2Z.id, setAt_lt by exact Hlt. reflexivity. }
  split.
  - intros Hlen. exists (snapAngleRad ang).
    destruct (snapAngleRad_nearest ang) as [Hin Hmin].
    split; [reflexivity|]. split; [exact Hin|]. split; [exact Hmin|].
    rewrite Hmove. unfold snapEndpointToAngles. fold len ang.
    replace (Rltb len 0.0001) with false by (symmetry; apply Rltb_false; lra).
    reflexivity.
  - intros Hlen. rewrite Hmove. unfold snapEndpointToAngles. fold len.
    replace (Rltb len 0.0001) with true by (symmetry; apply Rltb_true; lra).
    reflexivity.
Qed.

(** An eraser stroke of fewer than two points has no path: the export
    passes over it. *)
Lemma exportStep_short_erase (acc : ExportAcc) (sz : R) (pts : list Point) :
  (List.length pts < 2)%nat -> exportStep acc (Erase sz pts) = acc.
Proof.
  intros H. cbn [exportStep]. now rewrite pathFromPoints_short.
Qed.

(* ================================================================= *)
(** ** Picking *)

Lemma findHitFrom_spec (objs : list Obj) (wx wy : R) (n : nat) :
  (findHitFrom objs wx wy n = (-1)%Z
   /\ forall j o, (j < n)%nat -> nth_error objs j = Some o ->
                  hitObject o wx wy = false)
  \/ (exists i o,
         findHitFrom objs wx wy n = Z.of_nat i /\ (i < n)%nat
         /\ nth_error objs i = Some o /\ hitObject o wx wy = true
         /\ forall j o', (i < j < n)%nat -> nth_error objs j = Some o' ->
                         hitObject o' wx wy = false).
Proof.
  induction n as [|n IH].
  - left. split; [reflexivity|]. intros j o Hj. lia.
  - cbn [findHitFrom]. destruct (nth_error objs n) as [o|] eqn:En.
    + destruct (hitObject o wx wy) eqn:Eh.
      * right. exists n, o. repeat split; try assumption; try lia.
      * destruct IH as [[Hm Hnone]|(i & oi & Hi & Hlt & Hnth & Hhit & Hlater)].
        -- left. split; [exact Hm|]. intros j o' Hj Hj'.
           destruct (Nat.eq_dec j n) as [->|Hne]; [congruence|].
           apply (Hnone j o'); [lia|exact Hj'].
        -- right. exists i, oi. repeat split; try assumption; try lia.
           intros j o' Hj Hj'.
           destruct (Nat.eq_dec j n) as [->|Hne]; [congruence|].
           apply (Hlater j o'); [lia|exact Hj'].
    + destruct IH as [[Hm Hnone]|(i & oi & Hi & Hlt & Hnth & Hhit & Hlater)].
      * left. split; [exact Hm|]. intros j o' Hj Hj'.
        destruct (Nat.eq_dec j n) as [->|Hne]; [congruence|].
        apply (Hnone j o'); [lia|exact Hj'].
      * right. exists i, oi. repeat split; try assumption; try lia.
        intros j o' Hj Hj'.
        destruct (Nat.eq_dec j n) as [->|Hne]; [congruence|].
        apply (Hlater j o'); [lia|exact Hj'].
Qed.

(** X2. [findHit] answers -1 exactly when no object is hit, and otherwise
    the index of the last object in the list (the topmost one) that is
    hit. *)
Theorem findHit_topmost (st : State) (wx wy : R) :
  (findHit st wx wy = (-1)%Z
   /\ forall j o, nth_error (objects st) j = Some o ->
                  hitObject o wx wy = false)
  \/ (exists i o,
         findHit st wx wy = Z.of_nat i
         /\ nth_error (objects st) i = Some o /\ hitObject o wx wy = true
         /\ forall j o', (i < j)%nat -> nth_error (objects st) j = Some o' ->
                         hitObject o' wx wy = false).
Proof.
  unfold findHit.
  destruct (findHitFrom_spec (objects st) wx wy (List.length (objects st)))
    as [[Hm Hnone]|(i & o & Hi & Hlt & Hnth & Hhit & Hlater)].
  - left. split; [exact Hm|]. intros j o Hj. apply (Hnone j o); [|exact Hj].
    apply nth_error_Some. congruence.
  - right. exists i, o. repeat split; try assumption.
    intros j o' Hj Hj'. apply (Hlater j o'); [|exact Hj'].
    split; [exact Hj|]. apply nth_error_Some. congruence.
Qed.

(* ================================================================= *)
(** ** Bounds *)

Lemma fold_Rmin_le (l : list R) (a : R) :
  fold_left Rmin l a <= a /\ forall x, In x l -> fold_left Rmin l a <= x.
Proof.
  revert a. induction l as [|y l IH]; intros a; cbn [fold_left].
  - split; [lra|]. intros x [].
  - destruct (IH (Rmin a y)) as [H1 H2].
    pose proof (Rmin_l a y). pose proof (Rmin_r a y).
    split; [lra|]. intros x [<-|Hx]; [lra|now apply H2].
Qed.

Lemma fold_Rmax_ge (l : list R) (a : R) :
  a <= fold_left Rmax l a /\ forall x, In x l -> x <= fold_left Rmax l a.
Proof.
  revert a. induction l as [|y l IH]; intros a; cbn [fold_left].
  - split; [lra|]. intros x [].
  - destruct (IH (Rmax a y)) as [H1 H2].
    pose proof (Rmax_l a y). pose proof (Rmax_r a y).
    split; [lra|]. intros x [<-|Hx]; [lra|now apply H2].
Qed.

Lemma minOf_le (l : list R) (x : R) : In x l -> minOf l <= x.
Proof.
  destruct l as [|a l]; [intros []|]. cbn [minOf].
  destruct (fold_Rmin_le l a) as [H1 H2]. intros [<-|Hx]; [exact H1|now apply H2].
Qed.

Lemma maxOf_ge (l : list R) (x : R) : In x l -> x <= maxOf l.
Proof.
  destruct l as [|a l]; [intros []|]. cbn [maxOf].
  destruct (fold_Rmax_ge l a) as [H1 H2]. intros [<-|Hx]; [exact H1|now apply H2].
Qed.

Lemma boundsOfPoints_contains (pts : list Point) (pad : R) (p : Point) :
  0 <= pad -> In p pts -> inBounds (boundsOfPoints pts pad) p.
Proof.
  intros Hpad Hin. unfold inBounds, boundsOfPoints. cbn [minX minY maxX maxY].
  pose proof (minOf_le (map px pts) (px p) (in_map px _ _ Hin)).
  pose proof (maxOf_ge (map px pts) (px p) (in_map px _ _ Hin)).
  pose proof (minOf_le (map py pts) (py p) (in_map py _ _ Hin)).
  pose proof (maxOf_ge (map py pts) (py p) (in_map py _ _ Hin)).
  lra.
Qed.

Lemma num_or_pad (sz d : R) : 0 <= sz -> 0 < d -> 0 <= num_or sz d.
Proof. intros Hs Hd. unfold num_or. destruct (Reqb sz 0); lra. Qed.

(** X3. The bounds of an object with a non-negative width hold every point
    they are taken over: the points of a stroke, the ends of a line or
    arrow, the turned corners of a rectangle or a text box, the sixteen
    points sampled on a circle.  (The corners of a circle's box are not
    among them.) *)
Theorem bounds_contain_outline (o : Obj) (p : Point) :
  0 <= objSize o ->
  In p (outlinePoints o) ->
  inBounds (objectBounds o) p.
Proof.
  intros Hsz Hin.
  destruct o as [c sz pts|sz pts|x y t c fs rot|k c sz x1 y1 x2 y2 rot];
    cbn [objSize outlinePoints objectBounds] in *.
  - destruct pts as [|q pts]; [destruct Hin|].
    apply boundsOfPoints_contains; [|exact Hin].
    pose proof (num_or_pad sz 6 Hsz). lra.
  - destruct pts as [|q pts]; [destruct Hin|].
    apply boundsOfPoints_contains; [|exact Hin].
    pose proof (num_or_pad sz 6 Hsz). lra.
  - apply boundsOfPoints_contains; [lra|exact Hin].
  - pose proof (num_or_pad sz 4 Hsz) as Hp.
    destruct k.
    + unfold inBounds. cbn [minX minY maxX maxY].
      pose proof (Rmin_l x1 x2). pose proof (Rmin_r x1 x2).
      pose proof (Rmax_l x1 x2). pose proof (Rmax_r x1 x2).
      pose proof (Rmin_l y1 y2). pose proof (Rmin_r y1 y2).
      pose proof (Rmax_l y1 y2). pose proof (Rmax_r y1 y2).
      destruct Hin as [<-|[<-|[]]]; cbn [px py]; lra.
    + apply boundsOfPoints_contains; [lra|exact Hin].
    + apply (boundsOfPoints_contains (circleSamples x1 y1 x2 y2 rot));
        [lra|exact Hin].
    + unfold inBounds. cbn [minX minY maxX maxY].
      pose proof (Rmin_l x1 x2). pose proof (Rmin_r x1 x2).
      pose proof (Rmax_l x1 x2). pose proof (Rmax_r x1 x2).
      pose proof (Rmin_l y1 y2). pose proof (Rmin_r y1 y2).
      pose proof (Rmax_l y1 y2). pose proof (Rmax_r y1 y2).
      destruct Hin as [<-|[<-|[]]]; cbn [px py]; lra.
Qed.

(* ================================================================= *)
(** ** The other drags *)

(** A drag whose every move overwrites the object at one index with a
    function of the event alone ends with the object of the last event. *)
Lemma overwrite_moves (st : State) (g : Gesture) (idx : nat)
      (F : PointerEvent -> Obj) (evs : list PointerEvent) (e : PointerEvent) :
  (idx < List.length (objects st))%nat ->
  (forall objs ev,
      List.length objs = List.length (objects st) ->
      onPointerMove (set_objects st objs) g ev
      = Some (set_objects st (replaceAt objs idx (F ev)), g)) ->
  pointerMoves st g (evs ++ [e])
  = Some (set_objects st (replaceAt (objects st) idx (F e)), g).
Proof.
  intros Hlt Hstep.
  assert (Hgen : forall objs,
             List.length objs = List.length (objects st) ->
             (forall v, replaceAt objs idx v = replaceAt (objects st) idx v) ->
             pointerMoves (set_objects st objs) g (evs ++ [e])
             = Some (set_objects st (replaceAt (objects st) idx (F e)), g)).
  { induction evs as [|e1 evs IH]; intros objs Hlen Hrep.
    - cbn [app pointerMoves]. rewrite Hstep by exact Hlen. now rewrite Hrep.
    - cbn [app pointerMoves]. rewrite Hstep by exact Hlen.
      change (pointerMoves (set_objects st (replaceAt objs idx (F e1))) g
                           (evs ++ [e])
              = Some (set_objects st (replaceAt (objects st) idx (F e)), g)).
      apply IH.
      + rewrite replaceAt_length; lia.
      + intros v. rewrite replaceAt_replaceAt by lia. apply Hrep. }
  destruct st; apply (Hgen _ eq_refl (fun v => eq_refl)).
Qed.

(** X9. A selMove drag, begun on the selected object, after any moves and
    a last one: the object is its pre-drag snapshot moved by the vector
    from the start point to the last pointer position; no other object
    changes and the moves in between leave no trace. *)
Theorem selMove_from_snapshot (st : State) (g : Gesture) (w0 : Point)
        (st1 : State) (g1 : Gesture) (evs : list PointerEvent)
        (e : PointerEvent) :
  g_active g = true ->
  beginSelectionTransform HMove st g w0 = Some (st1, g1, true) ->
  exists idx obj0,
    selectionIndex st = Z.of_nat idx
    /\ nth_error (objects st) idx = Some obj0
    /\ pointerMoves st1 g1 (evs ++ [e])
       = Some (set_objects st1
                 (replaceAt (objects st) idx
                    (moveObject obj0
                       (px (screenToWorld st (ev_sx e) (ev_sy e)) - px w0)
                       (py (screenToWorld st (ev_sx e) (ev_sy e)) - py w0))),
               g1).
Proof.
  intros Ha Hb. unfold beginSelectionTransform in Hb.
  destruct (selectionIndex st <? 0)%Z eqn:Hneg; [inversion Hb|].
  apply Z.ltb_ge in Hneg.
  change (objects (clearRedo (pushUndo st))) with (objects st) in Hb.
  destruct (nth_error (objects st) (Z.to_nat (selectionIndex st)))
    as [obj0|] eqn:Hnth; [|discriminate].
  inversion Hb as [[Hst Hg]]. clear Hb.
  set (idx := Z.to_nat (selectionIndex st)) in *.
  assert (Hidx : selectionIndex st = Z.of_nat idx)
    by (unfold idx; now rewrite Z2Nat.id).
  assert (Hlt : (idx < List.length (objects st))%nat).
  { apply nth_error_Some. congruence. }
  exists idx, obj0. split; [exact Hidx|]. split; [exact Hnth|].
  apply (overwrite_moves (clearRedo (pushUndo st)) _ idx
           (fun ev => moveObject obj0
                        (px (screenToWorld st (ev_sx ev) (ev_sy ev)) - px w0)
                        (py (screenToWorld st (ev_sx ev) (ev_sy ev)) - py w0))).
  - exact Hlt.
  - intros objs ev Hlen. unfold onPointerMove.
    cbn [g_active g_mode g_selIndex g_selStartObj g_startWorld
         g_with_start g_with_sel]. rewrite Ha, Hidx. cbn [negb].
    replace (0 <=? Z.of_nat idx)%Z with true by (symmetry; apply Z.leb_le; lia).
    unfold writeObj. cbn [objects set_objects]. rewrite Nat2Z.id.
    rewrite setAt_lt by (change (objects (clearRedo (pushUndo st)))
                           with (objects st) in Hlen; lia).
    reflexivity.
Qed.

(** X10. A selRotate drag, begun on the selected object, after any moves
    and a last one: the object is its pre-drag snapshot turned by the angle
    between the start direction and the last pointer direction as seen from
    the centre of its bounds (snapped to 15 degrees when that event has
    Shift); the moves in between leave no trace. *)
Theorem selRotate_from_snapshot (st : State) (g : Gesture) (w0 : Point)
        (st1 : State) (g1 : Gesture) (evs : list PointerEvent)
        (e : PointerEvent) :
  g_active g = true ->
  beginSelectionTransform HRotate st g w0 = Some (st1, g1, true) ->
  exists idx obj0,
    selectionIndex st = Z.of_nat idx
    /\ nth_error (objects st) idx = Some obj0
    /\ pointerMoves st1 g1 (evs ++ [e])
       = Some (set_objects st1
                 (replaceAt (objects st) idx
                    (let c := boundsCenter (objectBounds obj0) in
                     selRotateObj obj0 c (atan2 (py w0 - py c) (px w0 - px c))
                                  (screenToWorld st (ev_sx e) (ev_sy e))
                                  (ev_shift e))),
               g1).
Proof.
  intros Ha Hb. unfold beginSelectionTransform in Hb.
  destruct (selectionIndex st <? 0)%Z eqn:Hneg; [inversion Hb|].
  apply Z.ltb_ge in Hneg.
  change (objects (clearRedo (pushUndo st))) with (objects st) in Hb.
  destruct (nth_error (objects st) (Z.to_nat (selectionIndex st)))
    as [obj0|] eqn:Hnth; [|discriminate].
  inversion Hb as [[Hst Hg]]. clear Hb.
  set (idx := Z.to_nat (selectionIndex st)) in *.
  assert (Hidx : selectionIndex st = Z.of_nat idx)
    by (unfold idx; now rewrite Z2Nat.id).
  assert (Hlt : (idx < List.length (objects st))%nat).
  { apply nth_error_Some. congruence. }
  exists idx, obj0. split; [exact Hidx|]. split; [exact Hnth|].
  apply (overwrite_moves (clearRedo (pushUndo st)) _ idx
           (fun ev => let c := boundsCenter (objectBounds obj0) in
                      selRotateObj obj0 c (atan2 (py w0 - py c) (px w0 - px c))
                                   (screenToWorld st (ev_sx ev) (ev_sy ev))
                                   (ev_shift ev))).
  - exact Hlt.
  - intros objs ev Hlen. unfold onPointerMove.
    cbn [g_active g_mode g_selIndex g_selStartObj g_selAnchor g_selStartAngle
         g_with_start g_with_sel g_with_startAngle]. rewrite Ha, Hidx. cbn [negb].
    replace (0 <=? Z.of_nat idx)%Z with true by (symmetry; apply Z.leb_le; lia).
    unfold writeObj. cbn [objects set_objects]. rewrite Nat2Z.id.
    rewrite setAt_lt by (change (objects (clearRedo (pushUndo st)))
                           with (objects st) in Hlen; lia).
    reflexivity.
Qed.

Lemma bgTransform_total (t : BgTool) (bg0 : BgState) (start w : Point) :
  exists b, bgTransform (modeOfBgTool t) bg0 start w = Some b.
Proof.
  destruct t; cbn [modeOfBgTool]; [eexists; reflexivity| |eexists; reflexivity].
  destruct (bgScale_total bg0 start w) as (b & Hb & _). eauto.
Qed.

Lemma bg_moves (st : State) (g : Gesture) (t : BgTool) (bg0 : BgState)
      (start : Point) (b : BgState) (evs : list PointerEvent) (e : PointerEvent) :
  g_active g = true -> g_mode g = modeOfBgTool t ->
  g_bgStart g = Some bg0 -> g_startWorld g = Some start ->
  bgTransform (modeOfBgTool t) bg0 start (evWorld st e) = Some b ->
  pointerMoves st g (evs ++ [e]) = Some (set_bg st b, g).
Proof.
  intros Ha Hm Hb0 Hs Hb.
  assert (Hstep : forall b' ev b'',
             bgTransform (modeOfBgTool t) bg0 start (evWorld st ev) = Some b'' ->
             onPointerMove (set_bg st b') g ev = Some (set_bg st b'', g)).
  { intros b' ev b'' H. unfold onPointerMove. rewrite Ha, Hm, Hb0, Hs. cbn [negb].
    change (screenToWorld (set_bg st b') (ev_sx ev) (ev_sy ev)) with (evWorld st ev).
    destruct t; cbn [modeOfBgTool] in *; rewrite H; reflexivity. }
  assert (Hgen : forall b',
             pointerMoves (set_bg st b') g (evs ++ [e]) = Some (set_bg st b, g)).
  { induction evs as [|e1 evs IH]; intros b'; cbn [app pointerMoves].
    - now rewrite (Hstep b' e b Hb).
    - destruct (bgTransform_total t bg0 start (evWorld st e1)) as [b1 Hb1].
      rewrite (Hstep b' e1 b1 Hb1). apply IH. }
  destruct st; apply Hgen.
Qed.

(** X11. A background drag (move, scale or rotate tool, nothing selected),
    after any moves and a last one, leaves the background record computed
    from the record at the start of the drag and the last pointer position
    alone; the image source and its natural size are kept.  Moving adds the
    pointer's displacement to the stored corner.  Scaling stores the corner
    back as the centre less half the natural size, keeps the rotation and
    leaves the scale within [0.05, 10].  Rotating keeps corner and scale
    and adds the angle between the start and the current direction, seen
    from the centre. *)
Theorem bg_drag_from_snapshot (t : BgTool) (st : State) (g : Gesture)
        (w0 : Point) (st1 : State) (g1 : Gesture)
        (evs : list PointerEvent) (e : PointerEvent) :
  g_active g = true ->
  beginBgTransform t st g w0 = (st1, g1, true) ->
  let cx0 := bg_x (bg st) + bg_natW (bg st) / 2 in
  let cy0 := bg_y (bg st) + bg_natH (bg st) / 2 in
  exists b,
    bgTransform (modeOfBgTool t) (bg st) w0 (evWorld st e) = Some b
    /\ pointerMoves st1 g1 (evs ++ [e]) = Some (set_bg st1 b, g1)
    /\ bg_src b = bg_src (bg st)
    /\ bg_natW b = bg_natW (bg st) /\ bg_natH b = bg_natH (bg st)
    /\ match t with
       | ToolBgMove =>
           bg_x b = bg_x (bg st) + (px (evWorld st e) - px w0)
           /\ bg_y b = bg_y (bg st) + (py (evWorld st e) - py w0)
           /\ bg_scale b = bg_scale (bg st) /\ bg_rot b = bg_rot (bg st)
       | ToolBgScale =>
           bg_x b = cx0 - bg_natW (bg st) / 2
           /\ bg_y b = cy0 - bg_natH (bg st) / 2
           /\ 0.05 <= bg_scale b <= 10 /\ bg_rot b = bg_rot (bg st)
       | ToolBgRotate =>
           bg_x b = bg_x (bg st) /\ bg_y b = bg_y (bg st)
           /\ bg_scale b = bg_scale (bg st)
           /\ bg_rot b
              = bg_rot (bg st)
                + (atan2 (py (evWorld st e) - cy0) (px (evWorld st e) - cx0)
                   - atan2 (py w0 - cy0) (px w0 - cx0))
       end.
Proof.
  intros Ha Hb cx0 cy0. unfold beginBgTransform in Hb.
  destruct (bg_src (bg st)) in Hb; [inversion Hb|].
  inversion Hb as [[Hst Hg]]. clear Hb.
  destruct (bgTransform_total t (bg st) w0 (evWorld st e)) as [b Hbt].
  exists b. split; [exact Hbt|]. split.
  - subst st1 g1.
    apply (bg_moves (clearRedo (pushUndo st)) _ t (bg st) w0 b evs e);
      [exact Ha|reflexivity|reflexivity|reflexivity|exact Hbt].
  - destruct t; cbn [modeOfBgTool bgTransform] in Hbt.
    + inversion Hbt; subst b. cbn. repeat split; reflexivity.
    + rewrite uniformFactor_finite in Hbt. inversion Hbt; subst b.
      cbn [bg_src bg_natW bg_natH bg_x bg_y bg_scale bg_rot].
      repeat split; try reflexivity; apply clamp_bounds; lra.
    + inversion Hbt; subst b. cbn. repeat split; reflexivity.
Qed.

Lemma last_cons_default {A} (l : list A) (x d : A) :
  last (x :: l) d = last l x.
Proof.
  revert x d. induction l as [|y l IH]; intros x d; [reflexivity|].
  change (last (x :: y :: l) d) with (last (y :: l) d).
  now rewrite (IH y d), (IH y x).
Qed.

(** The invariant of a pan drag, for any number of moves: only the pan
    changes, by one addition per move. *)
Lemma pan_moves (evs : list PointerEvent) (st : State) (g : Gesture)
      (s0 : Point) :
  g_active g = true -> g_mode g = MPan -> g_lastScreen g = Some s0 ->
  pointerMoves st g evs
  = Some (set_camera st (zoom st)
                     (fst (panAfter (panX st) (panY st) s0 evs))
                     (snd (panAfter (panX st) (panY st) s0 evs)),
          match evs with
          | [] => g
          | _ => g_with_lastScreen g (last (map evScreen evs) s0)
          end).
Proof.
  revert st g s0. induction evs as [|e evs IH]; intros st g s0 Ha Hm Hl.
  - cbn [pointerMoves panAfter fst snd]. destruct st; reflexivity.
  - cbn [pointerMoves panAfter]. unfold onPointerMove.
    rewrite Ha, Hm, Hl. cbn [negb].
    rewrite (IH _ (g_with_lastScreen g (mkPoint (ev_sx e) (ev_sy e)))
                (mkPoint (ev_sx e) (ev_sy e)))
      by (try reflexivity; assumption).
    cbn [set_camera zoom panX panY tool color size title svg bg objects
         undo_stack redo_stack selectionIndex viewW viewH].
    f_equal. f_equal.
    destruct evs as [|e' evs']; [reflexivity|].
    change (map evScreen (e :: e' :: evs'))
      with (evScreen e :: map evScreen (e' :: evs')).
    rewrite (last_cons_default (map evScreen (e' :: evs')) (evScreen e) s0).
    reflexivity.
Qed.

(** X12. A pan drag changes the pan and nothing else.  After any number of
    moves the state is the initial one with the pan that one addition per
    move and axis leaves, each move adding the step from the previous
    pointer position (the first from the pointer-down position); zoom,
    objects, background, overlay, selection and history are as before.  A
    single move adds the pointer's displacement; the gesture stays a pan
    and remembers the last pointer position. *)
Theorem pan_drag_follows_pointer (st : State) (g : Gesture) (s0 : Point)
        (evs : list PointerEvent) (e : PointerEvent) :
  g_active g = true -> g_mode g = MPan -> g_lastScreen g = Some s0 ->
  exists pX pY g',
    pointerMoves st g (evs ++ [e]) = Some (set_camera st (zoom st) pX pY, g')
    /\ (pX, pY) = panAfter (panX st) (panY st) s0 (evs ++ [e])
    /\ g_active g' = true /\ g_mode g' = MPan
    /\ g_lastScreen g' = Some (evScreen e)
    /\ onPointerMove st g e
       = Some (set_camera st (zoom st) (panX st + (ev_sx e - px s0))
                          (panY st + (ev_sy e - py s0)),
               g_with_lastScreen g (evScreen e)).
Proof.
  intros Ha Hm Hl.
  pose proof (pan_moves (evs ++ [e]) st g s0 Ha Hm Hl) as Hr.
  eexists. eexists. eexists. split; [exact Hr|]. split.
  - now destruct (panAfter (panX st) (panY st) s0 (evs ++ [e])).
  - assert (Hne : evs ++ [e] <> []) by (now destruct evs).
    destruct (evs ++ [e]) as [|x l] eqn:E; [congruence|].
    rewrite <- E. rewrite map_app. cbn [map]. rewrite last_last.
    split; [exact Ha|]. split; [exact Hm|]. split; [reflexivity|].
    unfold onPointerMove. rewrite Ha, Hm, Hl. reflexivity.
Qed.

(** The moves of a stroke drag, for any number of moves. *)
Lemma stroke_moves (evs : list PointerEvent) (st : State)
      (g : Gesture) (i : nat) (o : Obj) :
  g_active g = true ->
  g_mode g = MDrawStroke \/ g_mode g = MDrawErase ->
  g_activeObj g = Some i ->
  nth_error (objects st) i = Some o ->
  isStroke o = true ->
  pointerMoves st g evs
  = Some (set_objects st
            (replaceAt (objects st) i
               (withPoints o (strokePoints o ++ map (evWorld st) evs))),
          g).
Proof.
  intros Ha Hm Hact. revert st o.
  induction evs as [|e evs IH]; intros st o Hnth Hs.
  - cbn [pointerMoves map]. rewrite app_nil_r.
    replace (withPoints o (strokePoints o)) with o
      by (destruct o; try discriminate; reflexivity).
    rewrite replaceAt_same by exact Hnth. destruct st; reflexivity.
  - assert (Hlt : (i < List.length (objects st))%nat).
    { apply nth_error_Some. congruence. }
    cbn [pointerMoves].
    assert (Hstep : onPointerMove st g e
                    = Some (set_objects st
                              (replaceAt (objects st) i
                                 (withPoints o (strokePoints o ++ [evWorld st e]))),
                            g)).
    { unfold onPointerMove. rewrite Ha. cbn [negb].
      destruct o as [c sz pts|sz pts| |]; try discriminate;
        cbn [withPoints strokePoints];
        destruct Hm as [-> | ->]; rewrite Hact, Hnth; unfold writeObj;
          rewrite Nat2Z.id, setAt_lt by exact Hlt; reflexivity. }
    rewrite Hstep.
    rewrite (IH _ (withPoints o (strokePoints o ++ [evWorld st e]))).
    + cbn [objects set_objects]. rewrite set_objects_twice.
      rewrite replaceAt_replaceAt by exact Hlt.
      do 3 f_equal. destruct o; try discriminate; cbn [withPoints strokePoints map];
        rewrite <- app_assoc; reflexivity.
    + cbn [objects set_objects]. now apply replaceAt_nth.
    + destruct o; try discriminate; reflexivity.
Qed.

Lemma replaceAt_other (l : list Obj) (i j : nat) (v : Obj) :
  (i < List.length l)%nat -> j <> i ->
  nth_error (replaceAt l i v) j = nth_error l j.
Proof.
  intros Hi Hj. unfold replaceAt.
  destruct (Nat.lt_ge_cases j i) as [Hlt|Hge].
  - rewrite nth_error_app1 by (rewrite length_firstn; lia).
    rewrite nth_error_firstn.
    replace (j <? i)%nat with true by (symmetry; apply Nat.ltb_lt; lia).
    reflexivity.
  - rewrite nth_error_app2 by (rewrite length_firstn; lia).
    rewrite length_firstn. replace (Nat.min i (List.length l)) with i by lia.
    destruct (j - i)%nat as [|k] eqn:E; [lia|]. cbn [nth_error].
    rewrite nth_error_skipn. f_equal. lia.
Qed.

(** X13. While a stroke or an eraser stroke is being drawn, every move
    appends the world point under the pointer: after the moves the stroke
    holds its earlier points followed by the points of the moves, in order,
    and no other object of the document changes. *)
Theorem drawStroke_appends (evs : list PointerEvent) (st : State)
        (g : Gesture) (i : nat) (o : Obj) :
  g_active g = true ->
  g_mode g = MDrawStroke \/ g_mode g = MDrawErase ->
  g_activeObj g = Some i ->
  nth_error (objects st) i = Some o ->
  isStroke o = true ->
  exists st',
    pointerMoves st g evs = Some (st', g)
    /\ nth_error (objects st') i
       = Some (withPoints o (strokePoints o ++ map (evWorld st) evs))
    /\ List.length (objects st') = List.length (objects st)
    /\ (forall j, j <> i -> nth_error (objects st') j = nth_error (objects st) j)
    /\ undo_stack st' = undo_stack st /\ selectionIndex st' = selectionIndex st.
Proof.
  intros Ha Hm Hact Hnth Hs.
  assert (Hlt : (i < List.length (objects st))%nat).
  { apply nth_error_Some. congruence. }
  eexists. split; [apply (stroke_moves evs st g i o); assumption|].
  cbn [objects set_objects undo_stack selectionIndex].
  split; [now apply replaceAt_nth|]. split; [now apply replaceAt_length|].
  split; [|split; reflexivity].
  intros j Hj. now apply replaceAt_other.
Qed.

(* ================================================================= *)
(** ** History: bounds and depth *)

Lemma pop_length {A} (l : list A) (x : A) (r : list A) :
  pop l = Some (x, r) -> List.length l = S (List.length r).
Proof.
  unfold pop. destruct (rev l) as [|y t] eqn:E; [discriminate|].
  intros H. inversion H; subst. rewrite <- (rev_involutive l), E.
  cbn [rev]. rewrite length_app, !length_rev. cbn. lia.
Qed.

Lemma pushUndo_length (st : State) :
  (List.length (undo_stack st) <= 120)%nat ->
  (List.length (undo_stack (pushUndo st)) <= 120)%nat.
Proof.
  intros H. unfold pushUndo, set_stacks; cbn [undo_stack].
  remember (undo_stack st ++ [snapshot st]) as u eqn:Eu.
  assert (Hu : List.length u = S (List.length (undo_stack st))).
  { subst u. rewrite length_app. cbn. lia. }
  destruct (120 <? List.length u)%nat eqn:E.
  - destruct u; cbn [tl List.length] in *; lia.
  - apply Nat.ltb_ge in E. exact E.
Qed.

(** X14. The history never holds more than 120 entries: if the undo and
    redo stacks together hold at most 120, they still do after the start
    of a new action ([pushUndo(); clearRedo()], which drops the oldest
    entry when the undo stack is full), after [undo] and after [redo]. *)
Theorem history_stays_bounded (st : State) :
  historyBounded st ->
  historyBounded (clearRedo (pushUndo st))
  /\ historyBounded (undo st)
  /\ historyBounded (redo st).
Proof.
  unfold historyBounded. intros H. split; [|split].
  - cbn [clearRedo set_stacks undo_stack redo_stack List.length].
    pose proof (pushUndo_length st). lia.
  - unfold undo. destruct (pop (undo_stack st)) as [[top rest]|] eqn:E; [|exact H].
    apply pop_length in E.
    cbn [applySnapshot undo_stack redo_stack set_stacks].
    rewrite length_app. cbn [List.length]. lia.
  - unfold redo. destruct (pop (redo_stack st)) as [[top rest]|] eqn:E; [|exact H].
    apply pop_length in E.
    cbn [applySnapshot undo_stack redo_stack set_stacks].
    rewrite length_app. cbn [List.length]. lia.
Qed.

Lemma undo_top (s : State) (U : list Snapshot) (p : Snapshot) :
  undo_stack s = U ++ [p] ->
  undo_stack (undo s) = U
  /\ objects (undo s) = snap_objects p /\ bg (undo s) = snap_bg p.
Proof.
  intros H. unfold undo. rewrite H, pop_snoc. repeat split.
Qed.

(** Undoing through a pile of entries ends at the lowest of them. *)
Lemma undo_pile (ps : list Snapshot) (s : State) (U : list Snapshot)
      (p : Snapshot) :
  undo_stack s = U ++ p :: ps ->
  objects (Nat.iter (S (List.length ps)) undo s) = snap_objects p
  /\ bg (Nat.iter (S (List.length ps)) undo s) = snap_bg p
  /\ undo_stack (Nat.iter (S (List.length ps)) undo s) = U.
Proof.
  revert s. induction ps as [|q ps IH] using rev_ind; intros s H.
  - cbn [List.length Nat.iter]. destruct (undo_top s U p H) as (H1 & H2 & H3).
    repeat split; assumption.
  - rewrite length_app. cbn [List.length].
    replace (S (List.length ps + 1)) with (S (S (List.length ps))) by lia.
    rewrite Nat.iter_succ_r.
    apply IH.
    apply (undo_top s (U ++ p :: ps) q).
    rewrite H, <- app_assoc. reflexivity.
Qed.

(** The states in which the actions of a run start. *)
Lemma runActions_stack (acts : list (State -> State)) (st : State) :
  Forall stackPreserving acts ->
  (List.length acts <= 120)%nat ->
  exists U ps,
    undo_stack (runActions acts st) = U ++ ps
    /\ List.length ps = List.length acts
    /\ (acts <> [] -> exists ps', ps = snapshot st :: ps').
Proof.
  revert st. induction acts as [|a acts IH] using rev_ind; intros st Hp Hlen.
  - exists (undo_stack st), []. rewrite app_nil_r. repeat split. congruence.
  - apply Forall_app in Hp. destruct Hp as [Hp Ha].
    inversion Ha as [|? ? Ha1 _]; subst.
    rewrite length_app in Hlen. cbn [List.length] in Hlen.
    destruct (IH st Hp) as (U & ps & HU & Hps & Hhd); [lia|].
    unfold runActions. rewrite fold_left_app. cbn [fold_left].
    fold (runActions acts st).
    set (s := runActions acts st) in *.
    destruct (Ha1 (clearRedo (pushUndo s))) as [Hau _]. rewrite Hau.
    cbn [clearRedo set_stacks undo_stack]. unfold pushUndo, set_stacks.
    cbn [undo_stack]. rewrite HU.
    assert (Hfirst : acts ++ [a] <> [] ->
                     exists ps', ps ++ [snapshot s] = snapshot st :: ps').
    { intros _. destruct acts as [|a0 acts0].
      - destruct ps; [|discriminate]. exists []. reflexivity.
      - destruct Hhd as [ps' ->]; [discriminate|]. exists (ps' ++ [snapshot s]).
        reflexivity. }
    destruct (120 <? List.length ((U ++ ps) ++ [snapshot s]))%nat eqn:E.
    + apply Nat.ltb_lt in E. rewrite !length_app in E. cbn [List.length] in E.
      destruct U as [|u0 U]; [cbn [List.length] in E; lia|].
      exists U, (ps ++ [snapshot s]). split; [|split].
      * cbn [app tl]. now rewrite <- app_assoc.
      * rewrite !length_app. cbn [List.length]. lia.
      * exact Hfirst.
    + exists U, (ps ++ [snapshot s]). split; [|split].
      * now rewrite <- app_assoc.
      * rewrite !length_app. cbn [List.length]. lia.
      * exact Hfirst.
Qed.

(** X15. Undo goes as deep as the actions: after a run of up to 120
    actions, each started with [pushUndo(); clearRedo()], undoing once per
    action brings back the object list and the background record the run
    started from. *)
Theorem undo_every_action (acts : list (State -> State)) (st : State) :
  Forall stackPreserving acts ->
  (List.length acts <= 120)%nat ->
  objects (Nat.iter (List.length acts) undo (runActions acts st)) = objects st
  /\ bg (Nat.iter (List.length acts) undo (runActions acts st)) = bg st.
Proof.
  intros Hp Hlen.
  destruct acts as [|a acts]; [split; reflexivity|].
  destruct (runActions_stack (a :: acts) st Hp Hlen) as (U & ps & HU & Hps & Hhd).
  destruct Hhd as [ps' ->]; [discriminate|].
  cbn [List.length] in Hps. injection Hps as Hps. cbn [List.length].
  rewrite <- Hps.
  destruct (undo_pile ps' (runActions (a :: acts) st) U (snapshot st) HU)
    as (H1 & H2 & _).
  split; assumption.
Qed.

(** X16. Undo brings back more than the objects: after an action started
    with [pushUndo(); clearRedo()], [undo] restores the tool, the colour,
    the brush size, the camera, the title, the background and the objects
    of the state before the action, provided the tool and colour names were
    not empty and the size and zoom not 0 (values that [applySnapshot]
    replaces by its defaults); the selection is cleared. *)
Theorem undo_restores_document (st : State) (action : State -> State) :
  stackPreserving action ->
  tool st <> EmptyString -> color st <> EmptyString ->
  size st <> 0 -> zoom st <> 0 ->
  let st' := undo (action (clearRedo (pushUndo st))) in
  tool st' = tool st /\ color st' = color st /\ size st' = size st
  /\ zoom st' = zoom st /\ panX st' = panX st /\ panY st' = panY st
  /\ title st' = title st /\ bg st' = bg st /\ objects st' = objects st
  /\ selectionIndex st' = (-1)%Z.
Proof.
  intros Hact Ht Hc Hs Hz st'. subst st'.
  destruct (pushUndo_stack st) as [l Hl].
  destruct (Hact (clearRedo (pushUndo st))) as [Hu _].
  unfold undo. rewrite Hu. cbn [clearRedo set_stacks undo_stack].
  rewrite Hl, pop_snoc.
  cbn [applySnapshot snapshot tool color size zoom panX panY title bg objects
       selectionIndex snap_tool snap_color snap_size snap_zoom snap_panX
       snap_panY snap_title snap_bg snap_objects].
  assert (Hno : forall x d, x <> 0 -> num_or x d = x).
  { intros x d Hx. unfold num_or. apply Reqb_false in Hx. now rewrite Hx. }
  assert (Hpan : forall x, num_or x 0 = x).
  { intros x. unfold num_or. destruct (Reqb x 0) eqn:E; [|reflexivity].
    apply Reqb_true in E. now subst. }
  assert (Hstr : forall s d, s <> EmptyString -> str_or s d = s).
  { intros s d Hne. destruct s; [congruence|reflexivity]. }
  rewrite !Hno, !Hpan, !Hstr by assumption.
  repeat split. destruct (title st); reflexivity.
Qed.

(* ================================================================= *)
(** ** Reveal: buttons and keys *)

Lemma revealFrom_all_false (s : Z) (nodes : list SvgNode) (i : nat) :
  (s < Z.of_nat i)%Z ->
  revealFrom i s nodes = map (fun n => mkNode (node_tag n) false) nodes.
Proof.
  revert i. induction nodes as [|n rest IH]; intros i Hi; cbn [revealFrom map];
    [reflexivity|].
  replace (Z.of_nat i <=? s)%Z with false by (symmetry; apply Z.leb_gt; lia).
  rewrite IH by lia. reflexivity.
Qed.

Lemma revealFrom_all_true (s : Z) (nodes : list SvgNode) (i : nat) :
  (Z.of_nat i + Z.of_nat (List.length nodes) - 1 <= s)%Z ->
  revealFrom i s nodes = map (fun n => mkNode (node_tag n) true) nodes.
Proof.
  revert i. induction nodes as [|n rest IH]; intros i Hi; cbn [revealFrom map];
    [reflexivity|].
  cbn [List.length] in Hi.
  replace (Z.of_nat i <=? s)%Z with true by (symmetry; apply Z.leb_le; lia).
  rewrite IH by lia. reflexivity.
Qed.

(** X17. Revealing to a step below 0 is the reset button ([setAllHidden])
    and revealing to the last node or beyond is the show-all button
    ([setAllVisible]): same cursor, same visibility of every node.  So the
    Home and End keys do what the two buttons do. *)
Theorem reveal_ends_are_the_buttons (st : State) (nodes : list SvgNode)
        (step : Z) :
  ((step <= -1)%Z -> revealTo st nodes step = setAllHidden st nodes)
  /\ ((Z.of_nat (List.length nodes) - 1 <= step)%Z ->
      revealTo st nodes step = setAllVisible st nodes).
Proof.
  split; intros H; unfold revealTo, setAllHidden, setAllVisible, revealStep.
  - replace (Z.max (-1) (Z.min (Z.of_nat (List.length nodes) - 1) step))
      with (-1)%Z by lia.
    rewrite revealFrom_all_false by lia. reflexivity.
  - replace (Z.max (-1) (Z.min (Z.of_nat (List.length nodes) - 1) step))
      with (Z.of_nat (List.length nodes) - 1)%Z by lia.
    rewrite revealFrom_all_true by lia. reflexivity.
Qed.

Lemma revealFrom_length (i : nat) (s : Z) (nodes : list SvgNode) :
  List.length (revealFrom i s nodes) = List.length nodes.
Proof.
  revert i. induction nodes as [|n rest IH]; intros i; cbn; [reflexivity|].
  now rewrite IH.
Qed.

Lemma keyReveal_forward (st : State) (nodes : list SvgNode) (shiftKey : bool) :
  nodes <> [] ->
  let r := keyReveal st nodes ArrowForward shiftKey in
  svg_step (svg (fst r))
  = Z.max (-1) (Z.min (Z.of_nat (List.length nodes) - 1)
                      (svg_step (svg st) + (if shiftKey then 5 else 1)))%Z
  /\ List.length (snd r) = List.length nodes
  /\ map node_visible (snd r)
     = map (fun i => (Z.of_nat i <=? svg_step (svg (fst r)))%Z)
           (seq 0 (List.length nodes)).
Proof.
  intros Hne. destruct nodes as [|n rest]; [congruence|].
  set (ns := n :: rest). cbv zeta.
  change (keyReveal st ns ArrowForward shiftKey)
    with (revealTo st ns (svg_step (svg st) + (if shiftKey then 5 else 1))).
  unfold revealTo. cbn [fst snd svg set_svg svg_step set_step].
  split; [reflexivity|]. split; [apply revealFrom_length|apply revealFrom_visible].
Qed.

(** X18. Stepping forward saturates at the last node: from a cursor within
    range, [k] presses of the forward arrow (5 nodes a press with Shift, 1
    without) leave the cursor at [min(n - 1, cursor + k * jump)], with
    exactly the nodes up to the cursor visible. *)
Theorem forward_steps_saturate (k : nat) (st : State) (nodes : list SvgNode)
        (shiftKey : bool) :
  nodes <> [] ->
  (-1 <= svg_step (svg st) <= Z.of_nat (List.length nodes) - 1)%Z ->
  let r := pressKey (S k) ArrowForward shiftKey st nodes in
  let jump := (if shiftKey then 5 else 1)%Z in
  svg_step (svg (fst r))
  = Z.min (Z.of_nat (List.length nodes) - 1)
          (svg_step (svg st) + Z.of_nat (S k) * jump)
  /\ map node_visible (snd r)
     = map (fun i => (Z.of_nat i <=? svg_step (svg (fst r)))%Z)
           (seq 0 (List.length nodes)).
Proof.
  revert st nodes. induction k as [|k IH]; intros st nodes Hne Hin.
  - destruct (keyReveal_forward st nodes shiftKey Hne) as (Hs & Hl & Hv).
    cbv zeta in *. cbn [pressKey fst snd]. split; [|exact Hv].
    rewrite Hs. destruct shiftKey; lia.
  - destruct (keyReveal_forward st nodes shiftKey Hne) as (Hs & Hl & Hv).
    change (pressKey (S (S k)) ArrowForward shiftKey st nodes)
      with (pressKey (S k) ArrowForward shiftKey
                     (fst (keyReveal st nodes ArrowForward shiftKey))
                     (snd (keyReveal st nodes ArrowForward shiftKey))).
    set (r1 := keyReveal st nodes ArrowForward shiftKey) in *.
    assert (Hne1 : snd r1 <> []).
    { intros E. rewrite E in Hl. destruct nodes; [congruence|discriminate]. }
    assert (Hin1 : (-1 <= svg_step (svg (fst r1))
                    <= Z.of_nat (List.length (snd r1)) - 1)%Z).
    { rewrite Hs, Hl. lia. }
    destruct (IH (fst r1) (snd r1) Hne1 Hin1) as (Hs2 & Hv2).
    cbv zeta in *. rewrite Hl in Hs2, Hv2. split; [|exact Hv2].
    rewrite Hs2, Hs. destruct shiftKey; lia.
Qed.

(* ================================================================= *)
(** ** Export: escaping and counting *)

(** Membership in the characters of one replacement text. *)
Ltac escaped_char H :=
  repeat (destruct H as [H|H]; [subst; reflexivity|]); destruct H.

Lemma chars_app (a b : string) :
  list_ascii_of_string (a ++ b)
  = (list_ascii_of_string a ++ list_ascii_of_string b)%list.
Proof. induction a as [|c a IH]; cbn; [reflexivity|now rewrite IH]. Qed.

(** X19. [svgEscape] leaves none of the characters [<], [>], double quote
    and single quote in its output, and it returns a text that has none of
    the five special characters as it is. *)
Theorem svgEscape_removes_markup (s : string) :
  (forall c, In c (list_ascii_of_string (svgEscape s)) -> markupChar c = false)
  /\ (forallb plainChar (list_ascii_of_string s) = true -> svgEscape s = s).
Proof.
  split.
  - induction s as [|ch s IH]; intros c Hc; [destruct Hc|].
    cbn [svgEscape] in Hc. rewrite chars_app in Hc. apply in_app_or in Hc.
    destruct Hc as [Hc|Hc]; [|now apply IH].
    destruct (Ascii.eqb ch "&"); [cbn in Hc; escaped_char Hc|].
    destruct (Ascii.eqb ch "<") eqn:E1; [cbn in Hc; escaped_char Hc|].
    destruct (Ascii.eqb ch ">") eqn:E2; [cbn in Hc; escaped_char Hc|].
    destruct (Ascii.eqb ch (ascii_of_nat 34)) eqn:E3;
      [cbn in Hc; escaped_char Hc|].
    destruct (Ascii.eqb ch "'") eqn:E4; [cbn in Hc; escaped_char Hc|].
    cbn in Hc. destruct Hc as [<-|[]]. unfold markupChar.
    now rewrite E1, E2, E3, E4.
  - induction s as [|ch s IH]; intros H; [reflexivity|].
    cbn [list_ascii_of_string forallb] in H. apply andb_prop in H.
    destruct H as [Hch Hs]. cbn [svgEscape]. rewrite (IH Hs).
    unfold plainChar, markupChar in Hch. apply negb_true_iff in Hch.
    apply orb_false_elim in Hch. destruct Hch as [H0 Hm].
    apply orb_false_elim in Hm. destruct Hm as [Hm H4].
    apply orb_false_elim in Hm. destruct Hm as [Hm H3].
    apply orb_false_elim in Hm. destruct Hm as [H1 H2].
    rewrite H0, H1, H2, H3, H4. reflexivity.
Qed.

Lemma exportStep_maskCount (acc : ExportAcc) (o : Obj) :
  maskCount (exportStep acc o)
  = (maskCount acc + (if erases o then 1 else 0))%nat.
Proof.
  destruct o as [c sz pts|sz pts|x y t c fs rot|k c sz x1 y1 x2 y2 rot];
    cbn [exportStep erases].
  - destruct (objectMarkup (Stroke c sz pts)); cbn [maskCount]; lia.
  - destruct (pathFromPoints pts); cbn [wrapWithEraseMask maskCount]; lia.
  - destruct (objectMarkup (Text x y t c fs rot)); cbn [maskCount]; lia.
  - destruct (objectMarkup (Shape k c sz x1 y1 x2 y2 rot)); cbn [maskCount]; lia.
Qed.

(** X20. The export defines one mask per eraser stroke that has a path
    (two points or more), and none for any other object: the mask counter
    ends at the number of such eraser strokes. *)
Theorem export_counts_erasers (objs : list Obj) :
  maskCount (exportLoop exportInit objs) = List.length (filter erases objs).
Proof.
  assert (H : forall acc,
             maskCount (exportLoop acc objs)
             = (maskCount acc + List.length (filter erases objs))%nat).
  { induction objs as [|o objs IH]; intros acc; [cbn; lia|].
    unfold exportLoop in *. cbn [fold_left filter].
    rewrite IH, exportStep_maskCount.
    destruct (erases o); cbn [List.length]; lia. }
  rewrite H. reflexivity.
Qed.

Lemma later_without_erasers (objs : list Obj) (n : nat) :
  forallb (fun o => negb (erases o)) objs = true ->
  laterOpens n objs = EmptyString
  /\ laterRest n objs = concatMarkup objs
  /\ laterDefs n objs = EmptyString.
Proof.
  induction objs as [|o objs IH]; intros H; [repeat split|].
  cbn [forallb] in H. apply andb_prop in H. destruct H as [Ho Hr].
  apply negb_true_iff in Ho. destruct (IH Hr) as (H1 & H2 & H3).
  cbn [laterOpens laterRest laterDefs concatMarkup]. rewrite Ho, H1, H2.
  unfold ownMarkup.
  destruct o as [c sz pts|sz pts|x y t c fs rot|k c sz x1 y1 x2 y2 rot].
  - destruct (objectMarkup (Stroke c sz pts)); repeat split; assumption.
  - cbn [erases] in Ho. cbn [objectMarkup].
    destruct (pathFromPoints pts); [repeat split; assumption|discriminate].
  - destruct (objectMarkup (Text x y t c fs rot)); repeat split; assumption.
  - destruct (objectMarkup (Shape k c sz x1 y1 x2 y2 rot)); repeat split; assumption.
Qed.

(** X21. Without an eraser stroke that has a path, the export defines no
    mask and its ink layer is the markup of the objects one after the
    other in drawing order; strokes and eraser strokes of fewer than two
    points contribute nothing. *)
Theorem export_without_erasers (objs : list Obj) :
  forallb (fun o => negb (erases o)) objs = true ->
  exportDefs objs = EmptyString
  /\ inkMarkup objs = concatMarkup objs.
Proof.
  intros H. unfold exportDefs, inkMarkup.
  destruct (exportLoop_shape objs exportInit) as [Hi Hd].
  destruct (later_without_erasers objs 0 H) as (H1 & H2 & H3).
  cbn [maskCount exportInit] in Hi, Hd. rewrite Hi, Hd, H1, H2, H3.
  split; reflexivity.
Qed.

(* ================================================================= *)
(** ** Snapping an angle twice *)

Ltac in_snaps :=
  unfold snaps, snapsDeg; cbn [map In];
  repeat (first [left; reflexivity | right]).

Ltac nearest_by_cases Hd Hne :=
  unfold snapsDeg in Hd; cbn [In] in Hd;
  repeat (destruct Hd as [<-|Hd]); try contradiction;
  try (exfalso; apply Hne; reflexivity);
  repeat angdiff_eval; unfold Rabs;
  repeat match goal with
    | |- context [Rcase_abs ?x] => destruct (Rcase_abs x)
    end; lra.

(** X22. Every angle of the candidate set snaps to itself, so snapping an
    angle a second time changes nothing. *)
Theorem snapAngleRad_idempotent (angleRad : R) :
  snapAngleRad (snapAngleRad angleRad) = snapAngleRad angleRad.
Proof.
  pose proof PI_RGT_0 as Hpi.
  destruct (snapAngleRad_nearest angleRad) as [Hin _].
  set (s0 := snapAngleRad angleRad) in *. clearbody s0.
  apply snaps_cases in Hin. destruct Hin as (d0 & -> & Hd0).
  unfold snapsDeg in Hd0. cbn [In] in Hd0.
  repeat (destruct Hd0 as [<-|Hd0]); try contradiction;
    (apply snapAngleRad_unique;
     [in_snaps
     |rewrite atan2_sin_cos by lra;
      intros s Hs Hne; apply snaps_cases in Hs; destruct Hs as (d & -> & Hd);
      nearest_by_cases Hd Hne]).
Qed.

(* ================================================================= *)
(** ** Pointer down *)

Lemma pushUndo_redo_cleared (st : State) :
  objects (clearRedo (pushUndo st)) = objects st
  /\ redo_stack (clearRedo (pushUndo st)) = []
  /\ undo_stack (clearRedo (pushUndo st)) = undo_stack (pushUndo st).
Proof. repeat split. Qed.

Lemma nth_error_snoc (l : list Obj) (o : Obj) :
  nth_error (l ++ [o]) (List.length l) = Some o.
Proof.
  rewrite nth_error_app2 by lia. now rewrite Nat.sub_diag.
Qed.

Lemma replaceAt_snoc (l : list Obj) (o v : Obj) :
  replaceAt (l ++ [o]) (List.length l) v = l ++ [v].
Proof.
  unfold replaceAt. rewrite firstn_app, Nat.sub_diag, firstn_all.
  cbn [firstn]. rewrite app_nil_r. f_equal. f_equal.
  rewrite skipn_all2; [reflexivity|]. rewrite length_app. cbn. lia.
Qed.

(** X23. A pen or eraser drag draws one stroke: pointer down with the pen
    (or the eraser) pushes one undo entry, empties the redo stack, clears
    the selection and appends a stroke (an eraser stroke of width
    [max(10, size * 2.2)]) that starts under the pointer; the moves that
    follow append their points to it, in order, and change nothing else. *)
Theorem pen_drag_draws_stroke (promptText : option string) (h : Handles)
        (st : State) (g : Gesture) (e0 : PointerEvent)
        (evs : list PointerEvent) :
  tool st = "pen"%string \/ tool st = "eraser"%string ->
  exists st1 g1 h1,
    onPointerDown false promptText h st g e0 = Some (st1, g1, h1)
    /\ undo_stack st1 = undo_stack (pushUndo st)
    /\ redo_stack st1 = [] /\ selectionIndex st1 = (-1)%Z
    /\ pointerMoves st1 g1 evs
       = Some (set_objects st1
                 (objects st
                  ++ [if String.eqb (tool st) "pen"
                      then Stroke (color st) (size st)
                                  (evWorld st e0 :: map (evWorld st) evs)
                      else Erase (Rmax 10 (size st * 2.2))
                                 (evWorld st e0 :: map (evWorld st) evs)]),
               g1).
Proof.
  intros Ht. unfold onPointerDown.
  assert (Hnt : String.eqb (tool st) "text" = false
                /\ String.eqb (tool st) "select" = false
                /\ String.eqb (tool st) "bgMove" = false
                /\ String.eqb (tool st) "bgScale" = false
                /\ String.eqb (tool st) "bgRotate" = false).
  { destruct Ht as [-> | ->]; repeat split. }
  destruct Hnt as (H1 & H2 & H3 & H4 & H5). rewrite H1, H2, H3, H4, H5.
  set (w0 := screenToWorld st (ev_sx e0) (ev_sy e0)).
  set (st1 := set_selection (clearRedo (pushUndo st)) (-1)).
  set (o0 := if String.eqb (tool st) "pen"
             then Stroke (color st) (size st) [w0]
             else Erase (Rmax 10 (size st * 2.2)) [w0]).
  set (m0 := if String.eqb (tool st) "pen" then MDrawStroke else MDrawErase).
  assert (Hnew : newDrawing st1 w0 = Some (o0, m0)).
  { unfold newDrawing, o0, m0. cbn [tool st1 set_selection clearRedo pushUndo set_stacks color size].
    destruct Ht as [-> | ->]; reflexivity. }
  rewrite Hnew.
  eexists. eexists. eexists. split; [reflexivity|].
  split; [reflexivity|]. split; [reflexivity|]. split; [reflexivity|].
  rewrite (stroke_moves evs _ _ (List.length (objects st1)) o0).
  - cbn [objects set_objects]. rewrite replaceAt_snoc.
    replace (withPoints o0 (strokePoints o0 ++ map (evWorld (set_objects st1 (objects st1 ++ [o0]))) evs))
      with (if String.eqb (tool st) "pen"
            then Stroke (color st) (size st) (evWorld st e0 :: map (evWorld st) evs)
            else Erase (Rmax 10 (size st * 2.2))
                       (evWorld st e0 :: map (evWorld st) evs))
      by (unfold o0; destruct (String.eqb (tool st) "pen"); reflexivity).
    reflexivity.
  - reflexivity.
  - unfold m0. cbn [g_mode g_with_mode].
    destruct (String.eqb (tool st) "pen"); [now left|now right].
  - reflexivity.
  - cbn [objects set_objects]. apply nth_error_snoc.
  - unfold o0. destruct (String.eqb (tool st) "pen"); reflexivity.
Qed.

(** X24. The text tool: when the prompt is cancelled or left empty,
    pointer down changes neither the document nor the history and leaves no
    gesture active; with a text it pushes one undo entry, appends one text
    object at the pointer in the current colour with the font size
    [max(14, round(size * 4))], selects it, switches to the select tool and
    shows its handles. *)
Theorem text_tool_places_or_aborts (h : Handles) (st : State) (g : Gesture)
        (e : PointerEvent) :
  tool st = "text"%string ->
  (forall p, p = None \/ p = Some EmptyString ->
             exists g1, onPointerDown false p h st g e = Some (st, g1, h)
                        /\ g_active g1 = false /\ g_mode g1 = MNone)
  /\ (forall c s,
         exists st1 g1 h1,
           onPointerDown false (Some (String c s)) h st g e = Some (st1, g1, h1)
           /\ objects st1
              = objects st
                ++ [Text (px (evWorld st e)) (py (evWorld st e)) (String c s)
                         (color st) (Rmax 14 (jsround (size st * 4))) 0]
           /\ selectionIndex st1 = Z.of_nat (List.length (objects st))
           /\ tool st1 = "select"%string
           /\ undo_stack st1 = undo_stack (pushUndo st)
           /\ redo_stack st1 = []
           /\ g_active g1 = false /\ h_visible h1 = true).
Proof.
  intros Ht. split.
  - intros p Hp. unfold onPointerDown. rewrite Ht. cbn [String.eqb Ascii.eqb Bool.eqb].
    eexists. destruct Hp as [-> | ->]; (split; [reflexivity|split; reflexivity]).
  - intros c s. unfold onPointerDown. rewrite Ht.
    cbn [String.eqb Ascii.eqb Bool.eqb].
    eexists. eexists. eexists. split; [reflexivity|].
    cbn [objects set_tool set_selection set_objects selectionIndex tool
         undo_stack redo_stack clearRedo set_stacks g_active g_with_mode
         g_with_active color size pushUndo].
    split; [reflexivity|]. split.
    { rewrite length_app. cbn [List.length]. lia. }
    split; [reflexivity|]. split; [reflexivity|]. split; [reflexivity|].
    split; [reflexivity|].
    unfold computeHandles.
    cbn [tool set_tool set_selection set_objects selectionIndex objects
         clearRedo set_stacks pushUndo String.eqb Ascii.eqb Bool.eqb negb].
    set (n := (Z.of_nat (List.length (objects st ++ [Text (px (screenToWorld st (ev_sx e) (ev_sy e))) (py (screenToWorld st (ev_sx e) (ev_sy e))) (String c s) (color st) (Rmax 14 (jsround (size st * 4))) 0])) - 1)%Z).
    assert (Hn : n = Z.of_nat (List.length (objects st))).
    { unfold n. rewrite length_app. cbn [List.length]. lia. }
    rewrite Hn. replace (Z.of_nat (List.length (objects st)) <? 0)%Z with false
      by (symmetry; apply Z.ltb_ge; lia).
    rewrite Nat2Z.id, nth_error_snoc. cbn [hasOwnRot].
    replace (Reqb 0 0) with true by (symmetry; now apply Reqb_true).
    reflexivity.
Qed.

Lemma findHit_valid (st : State) (wx wy : R) (i : nat) :
  findHit st wx wy = Z.of_nat i ->
  exists o, nth_error (objects st) i = Some o /\ hitObject o wx wy = true.
Proof.
  unfold findHit. intros H.
  destruct (findHitFrom_spec (objects st) wx wy (List.length (objects st)))
    as [[Hm _]|(j & o & Hj & _ & Hnth & Hhit & _)].
  - rewrite Hm in H. lia.
  - rewrite Hj in H. apply Nat2Z.inj in H. subst j. eauto.
Qed.

Lemma findHit_range (st : State) (wx wy : R) :
  findHit st wx wy = (-1)%Z \/ exists i, findHit st wx wy = Z.of_nat i.
Proof.
  unfold findHit.
  destruct (findHitFrom_spec (objects st) wx wy (List.length (objects st)))
    as [[Hm _]|(j & o & Hj & _)]; [now left|right; eauto].
Qed.

(** X25. A click with the select tool outside every handle selects the
    topmost object under the pointer, or nothing.  On empty canvas the
    selection is cleared and the history is left alone; on an object the
    click already opens a move drag, which pushes an undo entry and empties
    the redo stack although nothing has moved. *)
Theorem select_click (promptText : option string) (h : Handles) (st : State)
        (g : Gesture) (e : PointerEvent) :
  tool st = "select"%string ->
  hitHandle h (ev_sx e) (ev_sy e) = None ->
  exists st1 g1 h1,
    onPointerDown false promptText h st g e = Some (st1, g1, h1)
    /\ selectionIndex st1 = findHit st (px (evWorld st e)) (py (evWorld st e))
    /\ objects st1 = objects st
    /\ g_active g1 = true
    /\ (findHit st (px (evWorld st e)) (py (evWorld st e)) = (-1)%Z ->
        undo_stack st1 = undo_stack st /\ redo_stack st1 = redo_stack st
        /\ g_mode g1 = MSelect)
    /\ ((0 <= findHit st (px (evWorld st e)) (py (evWorld st e)))%Z ->
        undo_stack st1 = undo_stack (pushUndo st) /\ redo_stack st1 = []
        /\ g_mode g1 = MSelMove).
Proof.
  intros Ht Hh. unfold onPointerDown. rewrite Ht, Hh.
  cbn [String.eqb Ascii.eqb Bool.eqb]. unfold selectUnderPointer.
  fold (evWorld st e). set (w := evWorld st e).
  destruct (findHit_range st (px w) (py w)) as [Hm|[i Hi]].
  - rewrite Hm. cbn [Z.leb Z.compare].
    eexists. eexists. eexists. split; [reflexivity|].
    split; [reflexivity|]. split; [reflexivity|]. split; [reflexivity|].
    split; intros Hcase; first [lia | repeat split].
  - destruct (findHit_valid st (px w) (py w) i Hi) as (o & Hnth & _).
    rewrite Hi. replace (0 <=? Z.of_nat i)%Z with true
      by (symmetry; apply Z.leb_le; lia).
    unfold beginSelectionTransform. cbn [selectionIndex set_selection].
    replace (Z.of_nat i <? 0)%Z with false by (symmetry; apply Z.ltb_ge; lia).
    change (objects (clearRedo (pushUndo (set_selection st (Z.of_nat i)))))
      with (objects st).
    rewrite Nat2Z.id, Hnth.
    eexists. eexists. eexists. split; [reflexivity|].
    split; [reflexivity|]. split; [reflexivity|]. split; [reflexivity|].
    split; intros Hcase; first [lia | repeat split].
Qed.

(** X26. Dragging an object with the select tool: pointer down outside the
    handles on a point that hits an object, then any moves and a last one,
    leaves the topmost object under the pointer-down position moved by the
    vector from there to the last pointer position, and every other object
    as it was. *)
Theorem select_drag_moves_object (promptText : option string) (h : Handles)
        (st : State) (g : Gesture) (e0 : PointerEvent)
        (evs : list PointerEvent) (e : PointerEvent) (i : nat) :
  tool st = "select"%string ->
  hitHandle h (ev_sx e0) (ev_sy e0) = None ->
  findHit st (px (evWorld st e0)) (py (evWorld st e0)) = Z.of_nat i ->
  exists o st1 g1 h1,
    nth_error (objects st) i = Some o
    /\ onPointerDown false promptText h st g e0 = Some (st1, g1, h1)
    /\ pointerMoves st1 g1 (evs ++ [e])
       = Some (set_objects st1
                 (replaceAt (objects st) i
                    (moveObject o
                       (px (evWorld st e) - px (evWorld st e0))
                       (py (evWorld st e) - py (evWorld st e0)))),
               g1).
Proof.
  intros Ht Hh Hi.
  destruct (findHit_valid st _ _ i Hi) as (o & Hnth & _).
  assert (Hlt : (i < List.length (objects st))%nat).
  { apply nth_error_Some. congruence. }
  exists o. unfold onPointerDown. rewrite Ht, Hh.
  cbn [String.eqb Ascii.eqb Bool.eqb]. unfold selectUnderPointer.
  fold (evWorld st e0). set (w0 := evWorld st e0) in *.
  rewrite Hi. replace (0 <=? Z.of_nat i)%Z with true
    by (symmetry; apply Z.leb_le; lia).
  unfold beginSelectionTransform. cbn [selectionIndex set_selection].
  replace (Z.of_nat i <? 0)%Z with false by (symmetry; apply Z.ltb_ge; lia).
  change (objects (clearRedo (pushUndo (set_selection st (Z.of_nat i)))))
    with (objects st).
  rewrite Nat2Z.id, Hnth.
  eexists. eexists. eexists. split; [reflexivity|]. split; [reflexivity|].
  apply (overwrite_moves (clearRedo (pushUndo (set_selection st (Z.of_nat i))))
           _ i
           (fun ev => moveObject o (px (evWorld st ev) - px w0)
                                 (py (evWorld st ev) - py w0))).
  - exact Hlt.
  - intros objs ev Hlen. unfold onPointerMove.
    cbn [g_active g_mode g_selIndex g_selStartObj g_startWorld
         g_with_start g_with_sel gestureDown negb].
    replace (0 <=? Z.of_nat i)%Z with true by (symmetry; apply Z.leb_le; lia).
    unfold writeObj. cbn [objects set_objects]. rewrite Nat2Z.id.
    rewrite setAt_lt by (change (objects (clearRedo (pushUndo (set_selection st (Z.of_nat i)))))
                           with (objects st) in Hlen; lia).
    reflexivity.
Qed.

(** X27. With the space key held a drag pans whatever the tool: pointer
    down changes neither the document nor the handle cache and starts a
    pan at the pointer's position; the moves that follow change the pan
    and nothing else, one addition per move and axis, the first step
    counted from the pointer-down position. *)
Theorem space_drag_pans (promptText : option string) (h : Handles)
        (st : State) (g : Gesture) (e0 : PointerEvent)
        (evs : list PointerEvent) :
  exists g1 g',
    onPointerDown true promptText h st g e0 = Some (st, g1, h)
    /\ g_active g1 = true /\ g_mode g1 = MPan
    /\ g_lastScreen g1 = Some (evScreen e0)
    /\ pointerMoves st g1 evs
       = Some (set_camera st (zoom st)
                 (fst (panAfter (panX st) (panY st) (evScreen e0) evs))
                 (snd (panAfter (panX st) (panY st) (evScreen e0) evs)),
               g').
Proof.
  unfold onPointerDown. eexists. eexists.
  split; [reflexivity|]. split; [reflexivity|]. split; [reflexivity|].
  split; [reflexivity|].
  apply pan_moves; reflexivity.
Qed.

(** X28. The Delete key removes the selected object and nothing else, and
    the removal can be undone; without a selection it changes nothing, not
    even the history. *)
Theorem delete_removes_selection (st : State) :
  (forall i o,
      selectionIndex st = Z.of_nat i ->
      nth_error (objects st) i = Some o ->
      objects (deleteSelection st)
      = firstn i (objects st) ++ skipn (S i) (objects st)
      /\ S (List.length (objects (deleteSelection st)))
         = List.length (objects st)
      /\ selectionIndex (deleteSelection st) = (-1)%Z
      /\ redo_stack (deleteSelection st) = []
      /\ objects (undo (deleteSelection st)) = objects st)
  /\ ((selectionIndex st < 0)%Z -> deleteSelection st = st).
Proof.
  split.
  - intros i o Hi Hnth.
    assert (Hlt : (i < List.length (objects st))%nat).
    { apply nth_error_Some. congruence. }
    assert (Hdel : deleteSelection st
                   = set_selection
                       (set_objects (clearRedo (pushUndo st))
                          (firstn i (objects st) ++ skipn (S i) (objects st)))
                       (-1)).
    { unfold deleteSelection. rewrite Hi.
      replace (0 <=? Z.of_nat i)%Z with true by (symmetry; apply Z.leb_le; lia).
      cbn [selectionIndex clearRedo pushUndo set_stacks]. rewrite Hi, Nat2Z.id.
      reflexivity. }
    rewrite Hdel. cbn [objects set_objects set_selection selectionIndex redo_stack
                       clearRedo set_stacks].
    split; [reflexivity|]. split.
    { rewrite length_app, length_firstn, length_skipn. lia. }
    split; [reflexivity|]. split; [reflexivity|].
    destruct (pushUndo_stack st) as [l Hl].
    apply (undo_top _ l (snapshot st)). exact Hl.
  - intros Hneg. unfold deleteSelection.
    replace (0 <=? selectionIndex st)%Z with false
      by (symmetry; apply Z.leb_gt; lia).
    reflexivity.
Qed.

(** The moves of a shape drag: each one rewrites the second corner from
    the first corner and the pointer alone. *)
Lemma shape_moves (evs : list PointerEvent) (st : State) (g : Gesture)
      (i : nat) (k : ShapeKind) (col : string) (sz x1 y1 x2 y2 rot : R)
      (e : PointerEvent) :
  g_active g = true -> g_mode g = MDrawShape -> g_activeObj g = Some i ->
  nth_error (objects st) i = Some (Shape k col sz x1 y1 x2 y2 rot) ->
  pointerMoves st g (evs ++ [e])
  = Some (set_objects st
            (replaceAt (objects st) i
               (Shape k col sz x1 y1 (px (shapeEnd st k x1 y1 e))
                      (py (shapeEnd st k x1 y1 e)) rot)),
          g).
Proof.
  intros Ha Hm Hact.
  assert (Hstep : forall st' x2' y2' ev,
             nth_error (objects st') i = Some (Shape k col sz x1 y1 x2' y2' rot) ->
             onPointerMove st' g ev
             = Some (set_objects st'
                       (replaceAt (objects st') i
                          (Shape k col sz x1 y1 (px (shapeEnd st' k x1 y1 ev))
                                 (py (shapeEnd st' k x1 y1 ev)) rot)),
                     g)).
  { intros st' x2' y2' ev Hnth.
    assert (Hlt : (i < List.length (objects st'))%nat).
    { apply nth_error_Some. congruence. }
    unfold onPointerMove. rewrite Ha, Hm, Hact, Hnth. cbn [negb].
    unfold writeObj. rewrite Nat2Z.id, setAt_lt by exact Hlt. reflexivity. }
  revert st x2 y2. induction evs as [|e1 evs IH]; intros st x2 y2 Hnth.
  - cbn [app pointerMoves]. now rewrite (Hstep st x2 y2 e Hnth).
  - assert (Hlt : (i < List.length (objects st))%nat).
    { apply nth_error_Some. congruence. }
    cbn [app pointerMoves]. rewrite (Hstep st x2 y2 e1 Hnth).
    rewrite (IH _ (px (shapeEnd st k x1 y1 e1)) (py (shapeEnd st k x1 y1 e1))).
    + cbn [objects set_objects]. rewrite replaceAt_replaceAt by exact Hlt.
      reflexivity.
    + cbn [objects set_objects]. now apply replaceAt_nth.
Qed.

(** X29. A shape tool draws a rubber band: pointer down with the line,
    rectangle, circle or arrow tool pushes one undo entry and appends a
    shape whose two corners are the pointer; after any moves and a last
    one the first corner is still the pointer-down position and the second
    is the last pointer position (snapped for a line or arrow when that
    event has Ctrl or Cmd), whatever the moves in between were. *)
Theorem shape_drag_rubber_band (promptText : option string) (h : Handles)
        (st : State) (g : Gesture) (e0 : PointerEvent)
        (evs : list PointerEvent) (e : PointerEvent) (k : ShapeKind) :
  shapeKindOfTool (tool st) = Some k ->
  exists st1 g1 h1,
    onPointerDown false promptText h st g e0 = Some (st1, g1, h1)
    /\ undo_stack st1 = undo_stack (pushUndo st) /\ redo_stack st1 = []
    /\ pointerMoves st1 g1 (evs ++ [e])
       = Some (set_objects st1
                 (objects st
                  ++ [Shape k (color st) (size st)
                            (px (evWorld st e0)) (py (evWorld st e0))
                            (px (shapeEnd st k (px (evWorld st e0))
                                          (py (evWorld st e0)) e))
                            (py (shapeEnd st k (px (evWorld st e0))
                                          (py (evWorld st e0)) e)) 0]),
               g1).
Proof.
  intros Hk. unfold onPointerDown.
  set (w0 := screenToWorld st (ev_sx e0) (ev_sy e0)).
  change (evWorld st e0) with w0.
  set (st1 := set_selection (clearRedo (pushUndo st)) (-1)).
  assert (Htool : String.eqb (tool st) "text" = false
                  /\ String.eqb (tool st) "select" = false
                  /\ String.eqb (tool st) "bgMove" = false
                  /\ String.eqb (tool st) "bgScale" = false
                  /\ String.eqb (tool st) "bgRotate" = false
                  /\ newDrawing st1 w0
                     = Some (Shape k (color st) (size st) (px w0) (py w0)
                                   (px w0) (py w0) 0, MDrawShape)).
  { unfold shapeKindOfTool in Hk. unfold newDrawing.
    cbn [tool st1 set_selection clearRedo pushUndo set_stacks color size].
    destruct (String.eqb (tool st) "line") eqn:E1.
    { apply String.eqb_eq in E1. rewrite E1. inversion Hk. repeat split. }
    destruct (String.eqb (tool st) "rect") eqn:E2.
    { apply String.eqb_eq in E2. rewrite E2. inversion Hk. repeat split. }
    destruct (String.eqb (tool st) "circle") eqn:E3.
    { apply String.eqb_eq in E3. rewrite E3. inversion Hk. repeat split. }
    destruct (String.eqb (tool st) "arrow") eqn:E4; [|discriminate].
    apply String.eqb_eq in E4. rewrite E4. inversion Hk. repeat split. }
  destruct Htool as (H1 & H2 & H3 & H4 & H5 & Hnew).
  rewrite H1, H2, H3, H4, H5, Hnew.
  eexists. eexists. eexists. split; [reflexivity|].
  split; [reflexivity|]. split; [reflexivity|].
  rewrite (shape_moves evs _ _ (List.length (objects st1)) k (color st) (size st)
                       (px w0) (py w0) (px w0) (py w0) 0 e).
  - cbn [objects set_objects]. rewrite replaceAt_snoc. reflexivity.
  - reflexivity.
  - reflexivity.
  - reflexivity.
  - cbn [objects set_objects]. apply nth_error_snoc.
Qed.

(* ================================================================= *)
(** ** Selection handles *)

(** X30. Handles are shown exactly when the select tool is active and the
    selection index names an object of the list; when they are shown there
    are a rotate handle of radius 7 and the four corner handles nw, ne, se,
    sw of half-size 10, in this order; and with no handles shown no handle
    is ever hit. *)
Theorem handles_shown_iff (st : State) :
  (h_visible (computeHandles st) = true
   <-> tool st = "select"%string
       /\ exists i o, selectionIndex st = Z.of_nat i
                      /\ nth_error (objects st) i = Some o)
  /\ (h_visible (computeHandles st) = true ->
      exists r cs,
        h_rotate (computeHandles st) = Some r /\ r_r r = 7
        /\ h_corners (computeHandles st) = Some cs
        /\ map c_name cs = [NW; NE; SE; SW]
        /\ map c_s cs = [10; 10; 10; 10])
  /\ (forall h sx sy, h_visible h = false -> hitHandle h sx sy = None).
Proof.
  assert (Hshape : forall obj,
             tool st = "select"%string ->
             (0 <= selectionIndex st)%Z ->
             nth_error (objects st) (Z.to_nat (selectionIndex st)) = Some obj ->
             h_visible (computeHandles st) = true
             /\ exists r cs,
                 h_rotate (computeHandles st) = Some r /\ r_r r = 7
                 /\ h_corners (computeHandles st) = Some cs
                 /\ map c_name cs = [NW; NE; SE; SW]
                 /\ map c_s cs = [10; 10; 10; 10]).
  { intros obj Ht Hsel Hnth. unfold computeHandles. rewrite Ht.
    cbn [String.eqb Ascii.eqb Bool.eqb negb].
    replace (selectionIndex st <? 0)%Z with false
      by (symmetry; apply Z.ltb_ge; lia).
    rewrite Hnth. destruct (hasOwnRot obj).
    - destruct (match obj with
                | Text _ _ t _ fs _ =>
                    let m := textMetrics t fs in (tm_w m, tm_h m)
                | Shape Rect _ _ x1 y1 x2 y2 _ | Shape Circle _ _ x1 y1 x2 y2 _ =>
                    (Rabs (x2 - x1), Rabs (y2 - y1))
                | _ => (maxX (objectBounds obj) - minX (objectBounds obj),
                        maxY (objectBounds obj) - minY (objectBounds obj))
                end) as [w hh].
      unfold rotatedCorners. cbn [map].
      split; [reflexivity|]. eexists. eexists. repeat split.
    - split; [reflexivity|]. eexists. eexists. repeat split. }
  split; [|split].
  - split.
    + intros Hv. unfold computeHandles in Hv.
      destruct (String.eqb (tool st) "select") eqn:Et; [|discriminate].
      apply String.eqb_eq in Et. cbn [negb] in Hv.
      destruct (selectionIndex st <? 0)%Z eqn:Es; [discriminate|].
      apply Z.ltb_ge in Es.
      destruct (nth_error (objects st) (Z.to_nat (selectionIndex st)))
        as [o|] eqn:En; [|discriminate].
      split; [exact Et|]. exists (Z.to_nat (selectionIndex st)), o.
      split; [now rewrite Z2Nat.id|exact En].
    + intros (Ht & i & o & Hi & Hnth).
      apply (Hshape o Ht); [lia|]. rewrite Hi, Nat2Z.id. exact Hnth.
  - intros Hv. unfold computeHandles in Hv.
    destruct (String.eqb (tool st) "select") eqn:Et; [|discriminate].
    apply String.eqb_eq in Et. cbn [negb] in Hv.
    destruct (selectionIndex st <? 0)%Z eqn:Es; [discriminate|].
    apply Z.ltb_ge in Es.
    destruct (nth_error (objects st) (Z.to_nat (selectionIndex st)))
      as [o|] eqn:En; [|discriminate].
    destruct (Hshape o Et Es eq_refl) as [_ Hr]. exact Hr.
  - intros h sx sy Hv. unfold hitHandle. now rewrite Hv.
Qed.

End Engine.

(* ================================================================= *)
(** * Closed instances *)

(** ** Camera *)



(** ** The scale scenario *)

(** C7 as stated does not hold: scaling (0,0)-(100,50) by 2 about (50,25)
    does not give the corners (-25,-25)-(125,75). *)
Lemma scale_rect_not_as_stated :
  scaleObjectXY sampleRect (Fin 2) (Fin 2) 50 25
  <> Shape Rect "#111111" 5 (-25) (-25) 125 75 0.
Proof.
  unfold sampleRect, scaleObjectXY. rewrite appliedFactor_2.
  intros H. inversion H as [[Hx1 Hy1 Hx2 Hy2]]. lra.
Qed.

(** The anchor of the scenario is the centre of the rectangle's bounds. *)
Lemma sampleRect_centre :
  boundsCenter (objectBounds sampleMeasure sampleRect) = mkPoint 50 25.
Proof.
  unfold sampleRect, objectBounds, boundsOfPoints, rotatedCorners, boundsCenter.
  cbn [map px py minOf maxOf fold_left minX minY maxX maxY].
  rewrite cos_0, sin_0.
  replace (Rabs (100 - 0)) with 100 by (unfold Rabs; destruct (Rcase_abs _); lra).
  replace (Rabs (50 - 0)) with 50 by (unfold Rabs; destruct (Rcase_abs _); lra).
  f_equal; rcompute.
Qed.

(** ** History *)

Lemma undo_redo_object_roundtrip_witness :
  let act := fun s => set_objects s [sampleLine] in
  let st := sampleState [sampleRect] (-1) in
  undo_stack (act (clearRedo (pushUndo st))) = undo_stack (clearRedo (pushUndo st))
  /\ objects (undo (act (clearRedo (pushUndo st)))) = objects st
  /\ objects (redo (undo (act (clearRedo (pushUndo st)))))
     = objects (act (clearRedo (pushUndo st))).
Proof.
  intros act st.
  assert (H : undo_stack (act (clearRedo (pushUndo st)))
              = undo_stack (clearRedo (pushUndo st))) by reflexivity.
  split; [exact H|]. exact (undo_redo_object_roundtrip st act H).
Defined.

(** C4 on a document with an overlay: drawing a line pushes an undo entry
    without the overlay, and undoing the line leaves the default overlay
    state in place of the loaded one. *)
Lemma undo_loses_overlay :
  let act := fun s => set_objects s [sampleLine] in
  snap_svg (snapshot overlayState) = None
  /\ svg (act (clearRedo (pushUndo overlayState))) = sampleOverlay
  /\ svg (undo (act (clearRedo (pushUndo overlayState)))) = svg_default
  /\ svg_default <> sampleOverlay.
Proof.
  intros act. split; [reflexivity|]. split; [reflexivity|]. split.
  - apply (undo_resets_overlay overlayState act). reflexivity.
  - unfold svg_default, sampleOverlay. discriminate.
Qed.

(** ** Hit-testing *)


Lemma sampleLine_tol : hitTol sampleLine = 8.
Proof. unfold hitTol, sampleLine, objSize. rcompute. Qed.

(** The distance from [(5, y)], [y >= 0], to the segment (0,0)-(10,0). *)
Lemma sampleLine_dist (y : R) : 0 <= y -> distToSeg 5 y 0 0 10 0 = y.
Proof.
  intros Hy. unfold distToSeg.
  assert (E : Reqb (10 - 0) 0 = false) by (apply Reqb_false; lra).
  rewrite E. cbn [andb].
  replace (((5 - 0) * (10 - 0) + (y - 0) * (0 - 0))
           / ((10 - 0) * (10 - 0) + (0 - 0) * (0 - 0))) with (1 / 2) by (field; lra).
  replace (clamp (1 / 2) 0 1) with (1 / 2) by rcompute.
  unfold hypot.
  replace ((5 - (0 + 1 / 2 * (10 - 0))) * (5 - (0 + 1 / 2 * (10 - 0)))
           + (y - (0 + 1 / 2 * (0 - 0))) * (y - (0 + 1 / 2 * (0 - 0))))
    with (y * y) by lra.
  now apply sqrt_square.
Qed.

(** A point exactly at the tolerance from the line is hit; one a
    thousandth further is not. *)
Lemma hit_at_tolerance :
  hitObject sampleMeasure sampleLine 5 8 = true
  /\ hitObject sampleMeasure sampleLine 5 8.001 = false.
Proof.
  unfold hitObject. rewrite sampleLine_tol. unfold sampleLine.
  rewrite !sampleLine_dist by lra. split.
  - apply Rleb_true. lra.
  - apply Rleb_false. lra.
Qed.


(** ** Vector export *)

Lemma erase_masks_what_precedes_witness :
  let pts := [mkPoint 0 0; mkPoint 10 0] in
  let short := [mkPoint 5 0] in
  ((2 <= List.length pts)%nat
   /\ (let n := S (maskCount (exportLoop sampleMeasure sampleFixed sampleNum
                                         exportInit [sampleLine])) in
       inkMarkup sampleMeasure sampleFixed sampleNum
                 ([sampleLine] ++ Erase 22 pts :: [sampleRect])
       = (laterOpens sampleFixed n [sampleRect]
          ++ maskGroup (maskId n)
                       (inkMarkup sampleMeasure sampleFixed sampleNum [sampleLine])
          ++ laterRest sampleMeasure sampleFixed sampleNum n [sampleRect])%string
       /\ exportDefs sampleMeasure sampleFixed sampleNum
                     ([sampleLine] ++ Erase 22 pts :: [sampleRect])
          = (exportDefs sampleMeasure sampleFixed sampleNum [sampleLine]
             ++ maskDef sampleNum (maskId n) (pathFromPoints sampleFixed pts)
                        (Rmax 1 (num_or 22 20))
             ++ laterDefs sampleFixed sampleNum n [sampleRect])%string
       /\ pathFromPoints sampleFixed pts <> EmptyString
       /\ exists p0 p1 rest,
           pts = p0 :: p1 :: rest
           /\ pathFromPoints sampleFixed pts
              = (("M " ++ sampleFixed (px p0) 2 ++ " " ++ sampleFixed (py p0) 2)
                 ++ String.concat ""
                      (map (fun p => " L " ++ sampleFixed (px p) 2 ++ " "
                                      ++ sampleFixed (py p) 2)
                           (p1 :: rest)))%string))
  /\ ((List.length short < 2)%nat
      /\ pathFromPoints sampleFixed short = EmptyString
      /\ inkMarkup sampleMeasure sampleFixed sampleNum
                   ([sampleLine] ++ Erase 22 short :: [sampleRect])
         = inkMarkup sampleMeasure sampleFixed sampleNum
                     ([sampleLine] ++ [sampleRect])
      /\ exportDefs sampleMeasure sampleFixed sampleNum
                    ([sampleLine] ++ Erase 22 short :: [sampleRect])
         = exportDefs sampleMeasure sampleFixed sampleNum
                      ([sampleLine] ++ [sampleRect])
      /\ maskCount (exportLoop sampleMeasure sampleFixed sampleNum exportInit
                               ([sampleLine] ++ Erase 22 short :: [sampleRect]))
         = maskCount (exportLoop sampleMeasure sampleFixed sampleNum exportInit
                                 ([sampleLine] ++ [sampleRect]))).
Proof.
  intros pts short.
  assert (H : (2 <= List.length pts)%nat) by (cbn; lia).
  assert (Hs : (List.length short < 2)%nat) by (cbn; lia).
  split.
  - split; [exact H|].
    exact (proj1 (erase_masks_what_precedes sampleMeasure sampleFixed sampleNum
                    [sampleLine] [sampleRect] 22 pts) H).
  - split; [exact Hs|].
    exact (proj2 (erase_masks_what_precedes sampleMeasure sampleFixed sampleNum
                    [sampleLine] [sampleRect] 22 short) Hs).
Defined.

(** C3 as stated does not hold for every eraser object: one made by a click
    without a drag has a single point, and the export of a line followed by
    it holds the line alone, with no mask defined or applied. *)
Lemma single_point_erase_masks_nothing :
  let objs := [sampleLine; Erase 22 [mkPoint 5 0]] in
  maskCount (exportLoop sampleMeasure sampleFixed sampleNum exportInit objs) = 0%nat
  /\ exportDefs sampleMeasure sampleFixed sampleNum objs = EmptyString
  /\ Some (inkMarkup sampleMeasure sampleFixed sampleNum objs)
     = objectMarkup sampleMeasure sampleFixed sampleNum sampleLine.
Proof.
  intros objs. unfold objs, inkMarkup, exportDefs, exportLoop.
  cbn [fold_left]. rewrite exportStep_short_erase by (cbn; lia).
  repeat split.
Qed.

(** ** Scale factors *)

Lemma scale_factors_guarded_witness :
  let st := sampleState [sampleLine] 0 in
  let anchor := mkPoint 5 0 in
  let start := mkPoint 10 0 in
  let g := mkGesture true MSelScale (Some start) (Some start) (Some start)
                     (Some start) None 0 (Some sampleLine) (Some anchor)
                     (Some (mkPoint 5 0)) 0 None in
  let e := pointerAt 20 0 in
  let w := screenToWorld st (ev_sx e) (ev_sy e) in
  (Rabs 0 < 0.001 /\ fst (scaleFactors 0 5 7 9 false) = Fin 1)
  /\ (scaling g 0 sampleLine anchor start
      /\ (0 < List.length (objects st))%nat
      /\ exists o,
          onPointerMove sampleMeasure st g e
          = Some (set_objects st (replaceAt (objects st) 0 o), g)
          /\ selScaleObj sampleMeasure sampleLine anchor start w (ev_shift e)
             = Some o
          /\ (hasOwnRot sampleLine = false ->
              exists fx fy,
                scaleFactors (px start - px anchor) (py start - py anchor)
                             (px w - px anchor) (py w - py anchor)
                             (ev_shift e)
                = (Fin fx, Fin fy)
                /\ o = scaleObjectXY sampleLine (Fin fx) (Fin fy)
                                     (px anchor) (py anchor)))
  /\ (-20 <= 7 <= 20 /\ appliedFactor (Fin 7) = 7)
  /\ -20 <= appliedFactor (Fin 100) <= 20.
Proof.
  intros st anchor start g e w.
  pose proof (scale_factors_guarded sampleMeasure) as T.
  destruct T as (_ & Tx & _ & _ & Tmove & Tclamp & _ & _ & Tin & _).
  assert (H0 : Rabs 0 < 0.001) by (rewrite Rabs_R0; lra).
  assert (Hg : scaling g 0 sampleLine anchor start)
    by (repeat split; reflexivity).
  assert (Hl : (0 < List.length (objects st))%nat) by (cbn; lia).
  split; [split; [exact H0|exact (Tx 0 5 7 9 H0)]|].
  split; [split; [exact Hg|split; [exact Hl|]]|].
  - exact (Tmove st g e 0%nat sampleLine anchor start Hg Hl).
  - assert (H7 : -20 <= 7 <= 20) by lra.
    split; [split; [exact H7|exact (Tin 7 H7)]|].
    exact (proj1 (Tclamp sampleLine (Fin 100) (Fin 100) 5 0)).
Defined.

Lemma hypot_0_0 : hypot 0 0 = 0.
Proof. unfold hypot. replace (0 * 0 + 0 * 0) with 0 by lra. apply sqrt_0. Qed.

Lemma hypot_3_4 : hypot 3 4 = 5.
Proof.
  unfold hypot. replace (3 * 3 + 4 * 4) with (5 * 5) by lra.
  apply sqrt_square. lra.
Qed.

Lemma uniformFactor_from_anchor : uniformFactor 0 0 3 4 = Fin 5.
Proof.
  rewrite uniformFactor_finite, hypot_0_0, hypot_3_4. f_equal. rcompute.
Qed.

(** C6 as stated does not hold: with Shift held and the drag started
    exactly on the anchor (a start vector of length zero), the factor is
    the length of the current vector, here 5, and the line (-1,0)-(1,0)
    becomes (-5,0)-(5,0). *)
Lemma uniform_scale_from_anchor_is_not_identity :
  scaleFactors 0 0 3 4 true = (Fin 5, Fin 5)
  /\ selScaleObj sampleMeasure (Shape Line "#111111" 5 (-1) 0 1 0 0)
                 (mkPoint 0 0) (mkPoint 0 0) (mkPoint 3 4) true
     = Some (Shape Line "#111111" 5 (-5) 0 5 0 0)
  /\ Fin 5 <> Fin 1.
Proof.
  assert (Hf : scaleFactors 0 0 3 4 true = (Fin 5, Fin 5)).
  { unfold scaleFactors. now rewrite uniformFactor_from_anchor. }
  split; [exact Hf|]. split.
  - unfold selScaleObj. cbn [hasOwnRot px py].
    replace (0 - 0) with 0 by lra. replace (3 - 0) with 3 by lra.
    replace (4 - 0) with 4 by lra. rewrite Hf.
    unfold scaleObjectXY.
    replace (appliedFactor (Fin 5)) with 5
      by (unfold appliedFactor, finiteOr1; rcompute).
    do 2 f_equal; lra.
  - intros H. inversion H. lra.
Qed.

Lemma axisFactor_ratio (v0 v1 f : R) :
  0.001 <= Rabs v0 -> v1 = f * v0 -> axisFactor v0 v1 = Fin f.
Proof.
  intros H0 H1. unfold axisFactor.
  assert (E : Rltb (Rabs v0) 0.001 = false) by (apply Rltb_false; lra).
  assert (Hv : v0 <> 0) by (intros ->; rewrite Rabs_R0 in H0; lra).
  rewrite E, jsdiv_finite by exact Hv. f_equal. subst v1. now field.
Qed.

(** On the own-rotation branch the factors reach the object as computed:
    a square of side 2, turned by half a turn, dragged from its corner to a
    point a hundred times further from the centre, gets the side 200. *)
Lemma own_rotation_scale_is_not_clamped :
  selScaleObj sampleMeasure (Shape Rect "#111111" 5 0 0 2 2 PI)
              (mkPoint 1 1) (mkPoint 2 2) (mkPoint 101 101) false
  = Some (Shape Rect "#111111" 5 (-99) (-99) 101 101 PI).
Proof.
  pose proof PI_RGT_0 as Hpi.
  unfold selScaleObj. cbn [hasOwnRot objRot px py].
  assert (E : Reqb PI 0 = false) by (apply Reqb_false; lra).
  rewrite E. cbn [negb]. unfold selScaleOwnRot. cbn [px py].
  rewrite cos_neg, sin_neg, cos_PI, sin_PI. unfold scaleFactors.
  rewrite !(axisFactor_ratio _ _ 100); [|rcompute|lra|rcompute|lra].
  replace (Rabs (2 - 0)) with 2 by rcompute.
  replace (Rmax 1 (2 * 100)) with 200 by rcompute.
  do 2 f_equal; lra.
Qed.

(** ** Gestures *)

Lemma selScale_snapshot_purity_witness :
  let st := sampleState [sampleRect; sampleLine] 1 in
  let g := pressed 10 0 (mkPoint 10 0) in
  let w0 := mkPoint 10 0 in
  let evs := [mkEvent 12 3 false false false; mkEvent 40 8 true false false] in
  let e := mkEvent 20 0 false false false in
  g_active g = true
  /\ exists st1 g1,
      beginSelectionTransform sampleMeasure HScale st g w0 = Some (st1, g1, true)
      /\ exists idx obj0 o,
          selectionIndex st = Z.of_nat idx
          /\ nth_error (objects st) idx = Some obj0
          /\ selScaleObj sampleMeasure obj0
                         (boundsCenter (objectBounds sampleMeasure obj0)) w0
                         (screenToWorld st (ev_sx e) (ev_sy e)) (ev_shift e)
             = Some o
          /\ pointerMoves sampleMeasure st1 g1 (evs ++ [e])
             = Some (set_objects st1 (replaceAt (objects st) idx o), g1).
Proof.
  intros st g w0 evs e. split; [reflexivity|].
  eexists. eexists. split; [reflexivity|].
  eapply (selScale_snapshot_purity sampleMeasure st g w0); reflexivity.
Defined.

Lemma angle_snap_witness :
  let st := sampleState [Shape Line "#111111" 5 0 0 0 0 0] (-1) in
  let e := mkEvent 3 4 false true false in
  let w := screenToWorld st (ev_sx e) (ev_sy e) in
  let len := hypot (px w - 0) (py w - 0) in
  let ang := atan2 (py w - 0) (px w - 0) in
  let a := atan2 (sin ang) (cos ang) in
  0.0001 <= len
  /\ exists s,
      s = snapAngleRad ang
      /\ In s snaps
      /\ (forall s', In s' snaps -> angDiff a s <= angDiff a s')
      /\ onPointerMove sampleMeasure st drawingLine e
         = Some (set_objects st
                   (replaceAt (objects st) 0
                      (Shape Line "#111111" 5 0 0
                             (0 + cos s * len) (0 + sin s * len) 0)),
                 drawingLine).
Proof.
  intros st e w len ang a.
  assert (Hlen : 0.0001 <= len).
  { unfold len, w, screenToWorld, st. cbn.
    replace ((3 - 0) / 1 - 0) with 3 by (field; lra).
    replace ((4 - 0) / 1 - 0) with 4 by (field; lra).
    rewrite hypot_3_4. lra. }
  split; [exact Hlen|].
  exact (proj1 (proj1 (angle_snap sampleMeasure) st drawingLine e 0%nat Line
                      "#111111"%string 5 0 0 0 0 0
                      eq_refl eq_refl eq_refl eq_refl (or_introl eq_refl)
                      eq_refl)
               Hlen).
Defined.

(** The drag of the witness, worked out: the line (0,0)-(10,0), selected
    after a rectangle, is grabbed at (10,0), five units right of its centre
    (5,0), and released at (20,0) after two other moves; it ends as
    (-10,0)-(20,0), three times as long about its centre, whatever the moves
    in between were. *)
Lemma selScale_drag_example :
  let st := sampleState [sampleRect; sampleLine] 1 in
  let g := pressed 10 0 (mkPoint 10 0) in
  let evs := [mkEvent 12 3 false false false; mkEvent 40 8 true false false] in
  let e := mkEvent 20 0 false false false in
  exists st1 g1,
    beginSelectionTransform sampleMeasure HScale st g (mkPoint 10 0)
    = Some (st1, g1, true)
    /\ option_map (fun r => objects (fst r))
                  (pointerMoves sampleMeasure st1 g1 (evs ++ [e]))
       = Some [sampleRect; Shape Line "#111111" 5 (-10) 0 20 0 0].
Proof.
  intros st g evs e.
  assert (Hc : boundsCenter (objectBounds sampleMeasure sampleLine) = mkPoint 5 0).
  { unfold sampleLine, objectBounds, boundsCenter. cbn [minX minY maxX maxY].
    f_equal; rcompute. }
  eexists. eexists. split; [reflexivity|].
  match goal with
  | |- context [pointerMoves _ ?s1 ?g1 _] =>
      destruct (selScale_moves sampleMeasure s1 g1 1%nat sampleLine
                  (boundsCenter (objectBounds sampleMeasure sampleLine))
                  (mkPoint 10 0) evs e) as (o & Ho & Hmv);
        [repeat split | cbn; lia | rewrite Hmv]
  end.
  cbn [option_map fst objects set_objects]. f_equal.
  unfold replaceAt. cbn [firstn skipn app clearRedo pushUndo set_stacks objects st sampleState].
  do 2 f_equal.
  rewrite Hc in Ho. unfold selScaleObj in Ho. cbn [hasOwnRot sampleLine px py] in Ho.
  unfold scaleFactors, screenToWorld in Ho. cbn in Ho.
  rewrite (axisFactor_ratio _ _ 3) in Ho; [|rcompute|field].
  rewrite axisFactor_degenerate in Ho by rcompute.
  inversion Ho. unfold scaleObjectXY.
  replace (appliedFactor (Fin 3)) with 3 by (unfold appliedFactor, finiteOr1; rcompute).
  replace (appliedFactor (Fin 1)) with 1 by (unfold appliedFactor, finiteOr1; rcompute).
  f_equal; lra.
Qed.


(* ================================================================= *)
(** ** Closed instances of the further properties *)

(** *** Bounds *)

Lemma bounds_contain_outline_witness :
  let circle := Shape Circle "#111111" 5 0 0 100 50 (PI / 4) in
  let p := nth 4 (outlinePoints sampleMeasure circle) (mkPoint 0 0) in
  (0 <= objSize sampleLine
   /\ In (mkPoint 10 0) (outlinePoints sampleMeasure sampleLine)
   /\ inBounds (objectBounds sampleMeasure sampleLine) (mkPoint 10 0))
  /\ (0 <= objSize circle
      /\ In p (outlinePoints sampleMeasure circle)
      /\ inBounds (objectBounds sampleMeasure circle) p).
Proof.
  intros circle p.
  assert (H : 0 <= objSize sampleLine) by (cbn; lra).
  assert (Hin : In (mkPoint 10 0) (outlinePoints sampleMeasure sampleLine))
    by (right; left; reflexivity).
  assert (Hc : 0 <= objSize circle) by (cbn; lra).
  assert (Hp : In p (outlinePoints sampleMeasure circle))
    by (do 4 right; left; reflexivity).
  split.
  - split; [exact H|]. split; [exact Hin|].
    exact (bounds_contain_outline sampleMeasure sampleLine (mkPoint 10 0) H Hin).
  - split; [exact Hc|]. split; [exact Hp|].
    exact (bounds_contain_outline sampleMeasure circle p Hc Hp).
Defined.

(** *** Drags *)

Lemma selMove_from_snapshot_witness :
  let st := sampleState [sampleRect; sampleLine] 1 in
  let w0 := mkPoint 5 0 in
  let g := pressed 5 0 w0 in
  let evs := [pointerAt 6 1; pointerAt 40 8] in
  let e := pointerAt 8 3 in
  g_active g = true
  /\ exists st1 g1,
      beginSelectionTransform sampleMeasure HMove st g w0 = Some (st1, g1, true)
      /\ exists idx obj0,
          selectionIndex st = Z.of_nat idx
          /\ nth_error (objects st) idx = Some obj0
          /\ pointerMoves sampleMeasure st1 g1 (evs ++ [e])
             = Some (set_objects st1
                       (replaceAt (objects st) idx
                          (moveObject obj0
                             (px (screenToWorld st (ev_sx e) (ev_sy e)) - px w0)
                             (py (screenToWorld st (ev_sx e) (ev_sy e)) - py w0))),
                     g1).
Proof.
  intros st w0 g evs e. split; [reflexivity|].
  eexists. eexists. split; [reflexivity|].
  eapply (selMove_from_snapshot sampleMeasure st g w0); reflexivity.
Defined.

Lemma selRotate_from_snapshot_witness :
  let st := sampleState [sampleRect; sampleLine] 1 in
  let w0 := mkPoint 10 0 in
  let g := pressed 10 0 w0 in
  let evs := [pointerAt 6 1; pointerAt 40 8] in
  let e := mkEvent 5 5 true false false in
  g_active g = true
  /\ exists st1 g1,
      beginSelectionTransform sampleMeasure HRotate st g w0 = Some (st1, g1, true)
      /\ exists idx obj0,
          selectionIndex st = Z.of_nat idx
          /\ nth_error (objects st) idx = Some obj0
          /\ pointerMoves sampleMeasure st1 g1 (evs ++ [e])
             = Some (set_objects st1
                       (replaceAt (objects st) idx
                          (let c := boundsCenter (objectBounds sampleMeasure obj0) in
                           selRotateObj sampleMeasure obj0 c
                                        (atan2 (py w0 - py c) (px w0 - px c))
                                        (screenToWorld st (ev_sx e) (ev_sy e))
                                        (ev_shift e))),
                     g1).
Proof.
  intros st w0 g evs e. split; [reflexivity|].
  eexists. eexists. split; [reflexivity|].
  eapply (selRotate_from_snapshot sampleMeasure st g w0); reflexivity.
Defined.

Lemma bg_drag_from_snapshot_witness :
  let w0 := mkPoint 10 10 in
  let g := pressed 10 10 w0 in
  let evs := [pointerAt 12 3] in
  let e := pointerAt 30 50 in
  let cx0 := bg_x (bg bgState) + bg_natW (bg bgState) / 2 in
  let cy0 := bg_y (bg bgState) + bg_natH (bg bgState) / 2 in
  g_active g = true
  /\ exists st1 g1,
      beginBgTransform ToolBgScale bgState g w0 = (st1, g1, true)
      /\ exists b,
          bgTransform MBgScale (bg bgState) w0 (evWorld bgState e) = Some b
          /\ pointerMoves sampleMeasure st1 g1 (evs ++ [e])
             = Some (set_bg st1 b, g1)
          /\ bg_src b = bg_src (bg bgState)
          /\ bg_natW b = bg_natW (bg bgState)
          /\ bg_natH b = bg_natH (bg bgState)
          /\ bg_x b = cx0 - bg_natW (bg bgState) / 2
          /\ bg_y b = cy0 - bg_natH (bg bgState) / 2
          /\ 0.05 <= bg_scale b <= 10
          /\ bg_rot b = bg_rot (bg bgState).
Proof.
  intros w0 g evs e cx0 cy0. split; [reflexivity|].
  eexists. eexists. split; [reflexivity|].
  eapply (bg_drag_from_snapshot sampleMeasure ToolBgScale bgState g w0);
    reflexivity.
Defined.

Lemma pan_drag_follows_pointer_witness :
  let st := sampleState [sampleLine] (-1) in
  let g := g_with_mode (pressed 5 0 (mkPoint 5 0)) MPan in
  let evs := [pointerAt 6 1; pointerAt 40 8] in
  let e := pointerAt 8 3 in
  g_active g = true /\ g_mode g = MPan /\ g_lastScreen g = Some (mkPoint 5 0)
  /\ exists pX pY g',
      pointerMoves sampleMeasure st g (evs ++ [e])
      = Some (set_camera st (zoom st) pX pY, g')
      /\ (pX, pY) = panAfter (panX st) (panY st) (mkPoint 5 0) (evs ++ [e])
      /\ g_active g' = true /\ g_mode g' = MPan
      /\ g_lastScreen g' = Some (evScreen e)
      /\ onPointerMove sampleMeasure st g e
         = Some (set_camera st (zoom st) (panX st + (ev_sx e - 5))
                            (panY st + (ev_sy e - 0)),
                 g_with_lastScreen g (evScreen e)).
Proof.
  intros st g evs e. split; [reflexivity|]. split; [reflexivity|].
  split; [reflexivity|].
  exact (pan_drag_follows_pointer sampleMeasure st g (mkPoint 5 0) evs e
                                  eq_refl eq_refl eq_refl).
Defined.

Lemma drawStroke_appends_witness :
  let st := sampleState [sampleStroke] (-1) in
  let evs := [pointerAt 1 1; pointerAt 2 3] in
  g_active drawingStroke = true
  /\ g_mode drawingStroke = MDrawStroke
  /\ g_activeObj drawingStroke = Some 0%nat
  /\ nth_error (objects st) 0 = Some sampleStroke
  /\ isStroke sampleStroke = true
  /\ exists st',
      pointerMoves sampleMeasure st drawingStroke evs = Some (st', drawingStroke)
      /\ nth_error (objects st') 0
         = Some (withPoints sampleStroke
                   (strokePoints sampleStroke ++ map (evWorld st) evs))
      /\ List.length (objects st') = List.length (objects st)
      /\ (forall j, j <> 0%nat ->
                    nth_error (objects st') j = nth_error (objects st) j)
      /\ undo_stack st' = undo_stack st
      /\ selectionIndex st' = selectionIndex st.
Proof.
  intros st evs. repeat (split; [reflexivity|]).
  exact (drawStroke_appends sampleMeasure evs st drawingStroke 0 sampleStroke
                            eq_refl (or_introl eq_refl) eq_refl eq_refl eq_refl).
Defined.

(** *** History *)

Lemma history_stays_bounded_witness :
  let st := sampleState [sampleRect] (-1) in
  historyBounded st
  /\ historyBounded (clearRedo (pushUndo st))
  /\ historyBounded (undo st)
  /\ historyBounded (redo st).
Proof.
  intros st.
  assert (H : historyBounded st) by (unfold historyBounded; cbn; lia).
  split; [exact H|]. exact (history_stays_bounded st H).
Defined.

Lemma undo_every_action_witness :
  let acts := [(fun s => set_objects s [sampleLine]);
               (fun s => set_objects s [])] in
  let st := sampleState [sampleRect] (-1) in
  Forall stackPreserving acts
  /\ (List.length acts <= 120)%nat
  /\ objects (Nat.iter (List.length acts) undo (runActions acts st)) = objects st
  /\ bg (Nat.iter (List.length acts) undo (runActions acts st)) = bg st.
Proof.
  intros acts st.
  assert (Hs : Forall stackPreserving acts)
    by (repeat constructor; intros s; split; reflexivity).
  assert (Hl : (List.length acts <= 120)%nat) by (cbn; lia).
  split; [exact Hs|]. split; [exact Hl|].
  exact (undo_every_action acts st Hs Hl).
Defined.

Lemma undo_restores_document_witness :
  let action := fun s => set_objects s [sampleLine] in
  let st := sampleState [sampleRect] (-1) in
  let st' := undo (action (clearRedo (pushUndo st))) in
  stackPreserving action
  /\ tool st' = tool st /\ color st' = color st /\ size st' = size st
  /\ zoom st' = zoom st /\ panX st' = panX st /\ panY st' = panY st
  /\ title st' = title st /\ bg st' = bg st /\ objects st' = objects st
  /\ selectionIndex st' = (-1)%Z.
Proof.
  intros action st st'.
  assert (Hs : stackPreserving action) by (intros s; split; reflexivity).
  assert (Ht : tool st <> EmptyString) by (cbn; discriminate).
  assert (Hc : color st <> EmptyString) by (cbn; discriminate).
  assert (Hz : size st <> 0) by (cbn; lra).
  assert (Hzoom : zoom st <> 0) by (cbn; lra).
  split; [exact Hs|].
  exact (undo_restores_document st action Hs Ht Hc Hz Hzoom).
Defined.

(** *** Reveal *)

Lemma revealTo_clamps_cursor_witness :
  (-1 <= 1 <= Z.of_nat (List.length sampleNodes) - 1)%Z
  /\ svg_step (svg (fst (revealTo overlayState sampleNodes 1))) = 1%Z
  /\ (Z.of_nat (List.length sampleNodes) - 1 <= 7)%Z
  /\ svg_step (svg (fst (revealTo overlayState sampleNodes 7))) = 2%Z
  /\ (-5 <= -1)%Z
  /\ svg_step (svg (fst (revealTo overlayState sampleNodes (-5)))) = (-1)%Z
  /\ map node_visible (snd (revealTo overlayState sampleNodes 1))
     = [true; true; false].
Proof.
  assert (H1 : (-1 <= 1 <= Z.of_nat (List.length sampleNodes) - 1)%Z)
    by (cbn; lia).
  assert (H7 : (Z.of_nat (List.length sampleNodes) - 1 <= 7)%Z) by (cbn; lia).
  assert (H5 : (-5 <= -1)%Z) by lia.
  pose proof (revealTo_clamps_cursor overlayState sampleNodes 1) as T1.
  pose proof (revealTo_clamps_cursor overlayState sampleNodes 7) as T7.
  pose proof (revealTo_clamps_cursor overlayState sampleNodes (-5)) as T5.
  cbv zeta in T1, T7, T5.
  destruct T1 as (_ & Tin & _ & _ & _ & _ & Tvis).
  destruct T7 as (_ & _ & _ & Tup & _).
  destruct T5 as (_ & _ & Tlow & _).
  split; [exact H1|]. split; [exact (Tin H1)|]. split; [exact H7|].
  split; [exact (Tup H7)|]. split; [exact H5|]. split; [exact (Tlow H5)|].
  exact Tvis.
Defined.

Lemma reveal_ends_are_the_buttons_witness :
  revealTo overlayState sampleNodes (-3) = setAllHidden overlayState sampleNodes
  /\ revealTo overlayState sampleNodes 7 = setAllVisible overlayState sampleNodes.
Proof.
  split.
  - apply (proj1 (reveal_ends_are_the_buttons overlayState sampleNodes (-3))).
    lia.
  - apply (proj2 (reveal_ends_are_the_buttons overlayState sampleNodes 7)).
    cbn. lia.
Defined.

Lemma forward_steps_saturate_witness :
  let st := set_svg overlayState (set_step sampleOverlay 0) in
  let r := pressKey 4 ArrowForward false st sampleNodes in
  sampleNodes <> []
  /\ (-1 <= svg_step (svg st) <= Z.of_nat (List.length sampleNodes) - 1)%Z
  /\ svg_step (svg (fst r))
     = Z.min (Z.of_nat (List.length sampleNodes) - 1)
             (svg_step (svg st) + Z.of_nat 4 * 1)
  /\ map node_visible (snd r)
     = map (fun i => (Z.of_nat i <=? svg_step (svg (fst r)))%Z)
           (seq 0 (List.length sampleNodes)).
Proof.
  intros st r.
  assert (Hn : sampleNodes <> []) by discriminate.
  assert (Hr : (-1 <= svg_step (svg st)
                <= Z.of_nat (List.length sampleNodes) - 1)%Z) by (cbn; lia).
  split; [exact Hn|]. split; [exact Hr|].
  exact (forward_steps_saturate 3 st sampleNodes false Hn Hr).
Defined.

(** *** Export *)

Lemma svgEscape_removes_markup_witness :
  (forall c, In c (list_ascii_of_string (svgEscape "a<b>")) ->
             markupChar c = false)
  /\ svgEscape "a b" = "a b"%string.
Proof.
  split.
  - exact (proj1 (svgEscape_removes_markup "a<b>")).
  - exact (proj2 (svgEscape_removes_markup "a b") eq_refl).
Defined.

Lemma export_without_erasers_witness :
  let objs := [sampleRect; Erase 20 [mkPoint 0 0];
               Stroke "#111111" 5 [mkPoint 0 0; mkPoint 10 0; mkPoint 10 10];
               sampleLine] in
  forallb (fun o => negb (erases sampleFixed o)) objs = true
  /\ exportDefs sampleMeasure sampleFixed sampleNum objs = EmptyString
  /\ inkMarkup sampleMeasure sampleFixed sampleNum objs
     = concatMarkup sampleMeasure sampleFixed sampleNum objs.
Proof.
  intros objs. split; [reflexivity|].
  exact (export_without_erasers sampleMeasure sampleFixed sampleNum objs eq_refl).
Defined.


(** *** Pointer down and the keyboard *)

Lemma pen_drag_draws_stroke_witness :
  let st := overlayState in
  let e0 := pointerAt 1 2 in
  let evs := [pointerAt 3 4; pointerAt 5 6] in
  (tool st = "pen"%string \/ tool st = "eraser"%string)
  /\ exists st1 g1 h1,
      onPointerDown sampleMeasure false None noHandles st hardResetGesture e0
      = Some (st1, g1, h1)
      /\ undo_stack st1 = undo_stack (pushUndo st)
      /\ redo_stack st1 = [] /\ selectionIndex st1 = (-1)%Z
      /\ pointerMoves sampleMeasure st1 g1 evs
         = Some (set_objects st1
                   (objects st
                    ++ [Stroke (color st) (size st)
                               (evWorld st e0 :: map (evWorld st) evs)]),
                 g1).
Proof.
  intros st e0 evs.
  assert (H : tool st = "pen"%string \/ tool st = "eraser"%string)
    by (left; reflexivity).
  split; [exact H|].
  exact (pen_drag_draws_stroke sampleMeasure None noHandles st hardResetGesture
                               e0 evs H).
Defined.

Lemma text_tool_places_or_aborts_witness :
  let st := set_tool (sampleState [sampleLine] (-1)) "text" in
  let e := pointerAt 30 40 in
  tool st = "text"%string
  /\ (exists g1,
         onPointerDown sampleMeasure false None noHandles st hardResetGesture e
         = Some (st, g1, noHandles)
         /\ g_active g1 = false /\ g_mode g1 = MNone)
  /\ (exists st1 g1 h1,
         onPointerDown sampleMeasure false (Some "hi"%string) noHandles st
                       hardResetGesture e
         = Some (st1, g1, h1)
         /\ objects st1
            = objects st
              ++ [Text (px (evWorld st e)) (py (evWorld st e)) "hi"
                       (color st) (Rmax 14 (jsround (size st * 4))) 0]
         /\ selectionIndex st1 = Z.of_nat (List.length (objects st))
         /\ tool st1 = "select"%string
         /\ undo_stack st1 = undo_stack (pushUndo st)
         /\ redo_stack st1 = []
         /\ g_active g1 = false /\ h_visible h1 = true).
Proof.
  intros st e.
  assert (H : tool st = "text"%string) by reflexivity.
  split; [exact H|]. split.
  - exact (proj1 (text_tool_places_or_aborts sampleMeasure noHandles st
                    hardResetGesture e H) None (or_introl eq_refl)).
  - exact (proj2 (text_tool_places_or_aborts sampleMeasure noHandles st
                    hardResetGesture e H) "h"%char "i"%string).
Defined.

Lemma select_click_witness :
  let st := sampleState [sampleLine] (-1) in
  let e := pointerAt 300 300 in
  tool st = "select"%string
  /\ hitHandle noHandles (ev_sx e) (ev_sy e) = None
  /\ exists st1 g1 h1,
      onPointerDown sampleMeasure false None noHandles st hardResetGesture e
      = Some (st1, g1, h1)
      /\ selectionIndex st1
         = findHit sampleMeasure st (px (evWorld st e)) (py (evWorld st e))
      /\ objects st1 = objects st
      /\ g_active g1 = true
      /\ (findHit sampleMeasure st (px (evWorld st e)) (py (evWorld st e))
          = (-1)%Z ->
          undo_stack st1 = undo_stack st /\ redo_stack st1 = redo_stack st
          /\ g_mode g1 = MSelect)
      /\ ((0 <= findHit sampleMeasure st (px (evWorld st e))
                        (py (evWorld st e)))%Z ->
          undo_stack st1 = undo_stack (pushUndo st) /\ redo_stack st1 = []
          /\ g_mode g1 = MSelMove).
Proof.
  intros st e. split; [reflexivity|]. split; [reflexivity|].
  exact (select_click sampleMeasure None noHandles st hardResetGesture e
                      eq_refl eq_refl).
Defined.

(** The pointer at screen (5, 8) is on [sampleLine]. *)
Lemma sampleLine_under_pointer :
  let st := sampleState [sampleLine] (-1) in
  findHit sampleMeasure st (px (evWorld st (pointerAt 5 8)))
          (py (evWorld st (pointerAt 5 8)))
  = Z.of_nat 0.
Proof.
  intros st. unfold evWorld, screenToWorld, st, sampleState, pointerAt.
  cbn [px py ev_sx ev_sy panX panY zoom].
  replace ((5 - 0) / 1) with 5 by (field; lra).
  replace ((8 - 0) / 1) with 8 by (field; lra).
  unfold findHit. cbn [objects List.length findHitFrom nth_error].
  unfold hitObject. rewrite sampleLine_tol. unfold sampleLine.
  rewrite sampleLine_dist by lra.
  replace (Rleb 8 8) with true by (symmetry; apply Rleb_true; lra).
  reflexivity.
Qed.

Lemma select_drag_moves_object_witness :
  let st := sampleState [sampleLine] (-1) in
  let e0 := pointerAt 5 8 in
  let evs := [pointerAt 6 1; pointerAt 40 8] in
  let e := pointerAt 8 3 in
  tool st = "select"%string
  /\ hitHandle noHandles (ev_sx e0) (ev_sy e0) = None
  /\ findHit sampleMeasure st (px (evWorld st e0)) (py (evWorld st e0))
     = Z.of_nat 0
  /\ exists o st1 g1 h1,
      nth_error (objects st) 0 = Some o
      /\ onPointerDown sampleMeasure false None noHandles st hardResetGesture e0
         = Some (st1, g1, h1)
      /\ pointerMoves sampleMeasure st1 g1 (evs ++ [e])
         = Some (set_objects st1
                   (replaceAt (objects st) 0
                      (moveObject o
                         (px (evWorld st e) - px (evWorld st e0))
                         (py (evWorld st e) - py (evWorld st e0)))),
                 g1).
Proof.
  intros st e0 evs e. split; [reflexivity|]. split; [reflexivity|].
  split; [exact sampleLine_under_pointer|].
  exact (select_drag_moves_object sampleMeasure None noHandles st
                                  hardResetGesture e0 evs e 0 eq_refl eq_refl
                                  sampleLine_under_pointer).
Defined.

Lemma delete_removes_selection_witness :
  let st := sampleState [sampleRect; sampleLine] 1 in
  let st0 := sampleState [sampleRect] (-1) in
  (selectionIndex st = Z.of_nat 1
   /\ nth_error (objects st) 1 = Some sampleLine
   /\ objects (deleteSelection st)
      = firstn 1 (objects st) ++ skipn 2 (objects st)
   /\ S (List.length (objects (deleteSelection st)))
      = List.length (objects st)
   /\ selectionIndex (deleteSelection st) = (-1)%Z
   /\ redo_stack (deleteSelection st) = []
   /\ objects (undo (deleteSelection st)) = objects st)
  /\ (selectionIndex st0 < 0)%Z
  /\ deleteSelection st0 = st0.
Proof.
  intros st st0. split; [|split].
  - split; [reflexivity|]. split; [reflexivity|].
    exact (proj1 (delete_removes_selection st) 1%nat sampleLine
                 eq_refl eq_refl).
  - reflexivity.
  - exact (proj2 (delete_removes_selection st0) eq_refl).
Defined.

Lemma shape_drag_rubber_band_witness :
  let st := set_tool (sampleState [sampleLine] (-1)) "rect" in
  let e0 := pointerAt 10 20 in
  let evs := [pointerAt 6 1; pointerAt 40 8] in
  let e := mkEvent 110 70 false true false in
  shapeKindOfTool (tool st) = Some Rect
  /\ exists st1 g1 h1,
      onPointerDown sampleMeasure false None noHandles st hardResetGesture e0
      = Some (st1, g1, h1)
      /\ undo_stack st1 = undo_stack (pushUndo st) /\ redo_stack st1 = []
      /\ pointerMoves sampleMeasure st1 g1 (evs ++ [e])
         = Some (set_objects st1
                   (objects st
                    ++ [Shape Rect (color st) (size st)
                              (px (evWorld st e0)) (py (evWorld st e0))
                              (px (shapeEnd st Rect (px (evWorld st e0))
                                            (py (evWorld st e0)) e))
                              (py (shapeEnd st Rect (px (evWorld st e0))
                                            (py (evWorld st e0)) e)) 0]),
                 g1).
Proof.
  intros st e0 evs e. split; [reflexivity|].
  exact (shape_drag_rubber_band sampleMeasure None noHandles st
                                hardResetGesture e0 evs e Rect eq_refl).
Defined.

Lemma handles_shown_iff_witness :
  let st := sampleState [sampleRect; sampleLine] 1 in
  h_visible (computeHandles sampleMeasure st) = true
  /\ (exists r cs,
         h_rotate (computeHandles sampleMeasure st) = Some r /\ r_r r = 7
         /\ h_corners (computeHandles sampleMeasure st) = Some cs
         /\ map c_name cs = [NW; NE; SE; SW]
         /\ map c_s cs = [10; 10; 10; 10])
  /\ hitHandle noHandles 5 5 = None.
Proof.
  intros st.
  assert (Hv : h_visible (computeHandles sampleMeasure st) = true).
  { apply (proj1 (handles_shown_iff sampleMeasure st)).
    split; [reflexivity|]. exists 1%nat, sampleLine.
    split; reflexivity. }
  split; [exact Hv|]. split.
  - exact (proj1 (proj2 (handles_shown_iff sampleMeasure st)) Hv).
  - exact (proj2 (proj2 (handles_shown_iff sampleMeasure st)) noHandles 5 5
                 eq_refl).
Defined.
